(** * CAPM / Fama-French regression notebook: a shallow embedding

    The notebook [CAPM_Fama_Regression_Notebook.ipynb] is a pandas script.
    Cells are IEEE binary64 numbers ([float]), a missing cell is NaN, a
    [Series] is a list of labelled values and a [DataFrame] a shared index
    with named columns of numbers (a column of another type, which the
    notebook filters out with [select_dtypes], is not represented).  The
    calls into numpy, pandas' reductions, scipy and statsmodels whose
    result is a number computed by the library are taken as parameters;
    the data-frame plumbing (shift, reindex, where, replace, concat,
    dropna, loc, sort_index, add_constant) is written out. *)

From Stdlib Require Import String Ascii ZArith Floats Bool Lia List.
From Stdlib Require Import Sorting.Sorted Sorting.Permutation.
Import ListNotations.

Set Implicit Arguments.

(** ** Python results and exceptions *)

Module Py.

Inductive exn_class : Type :=
| ValueError
| KeyError
| IndexError
| TypeError
| InvalidIndexError
| OtherError (name : string).

Record exn : Type := mkExn { exn_cls : exn_class; exn_msg : string }.

Inductive result (A : Type) : Type :=
| Ok (a : A)
| Raise (e : exn).

Arguments Ok {A} a.
Arguments Raise {A} e.

Definition bind {A B} (m : result A) (k : A -> result B) : result B :=
  match m with
  | Ok a => k a
  | Raise e => Raise e
  end.

(** [for x in l: ...] with a body that may raise: the first exception
    stops the loop. *)
Fixpoint mapM {A B} (f : A -> result B) (l : list A) : result (list B) :=
  match l with
  | [] => Ok []
  | a :: l' =>
      bind (f a) (fun b => bind (mapM f l') (fun bs => Ok (b :: bs)))
  end.

End Py.

Import Py.

Notation "x <- m ;; k" := (Py.bind m (fun x => k))
  (at level 61, m at next level, right associativity).

(** ** Cells *)

Open Scope float_scope.

(** [Series.isna] on a float cell. *)
Definition isna (x : float) : bool := PrimFloat.is_nan x.

(** [x == 0]: exact comparison with zero (true for [-0.0], false for NaN). *)
Definition eq0 (x : float) : bool := PrimFloat.eqb x 0.

(** ** Index labels *)

(** A row label: a time stamp (days, or nanoseconds, since the epoch;
    only its order matters) or an arbitrary text, as in an object-typed
    index. *)
Inductive label : Type :=
| Stamp (t : Z)
| Text (s : string).

Definition label_eqb (a b : label) : bool :=
  match a, b with
  | Stamp x, Stamp y => Z.eqb x y
  | Text x, Text y => String.eqb x y
  | _, _ => false
  end.

(** ** Tables *)

(** A frame as [read_excel] gives it: a date column followed by value
    columns, rows addressed by position (the default [RangeIndex]). *)
Record DatedTable : Type := mkDated {
  date_column : list label;
  value_columns : list (string * list float)
}.

(** A series with integer labels (the [RangeIndex] of a dated table). *)
Definition Series : Type := list (Z * float).

(** A frame whose index is the time stamps ([set_index('Date')]). *)
Record DataFrame : Type := mkFrame {
  index : list label;
  columns : list (string * list float)
}.

(** ** Return Transform *)

Section ReturnTransform.

(** [np.log] *)
Variable np_log : float -> float.
(** [Series.mean] of a series without missing values *)
Variable pd_mean : list float -> float.

(** [col.shift(1)]: every value moves one row down, the first row is
    filled with NaN, the last value falls off. *)
Fixpoint shift_fill (fill : float) (col : list float) : list float :=
  match col with
  | [] => []
  | x :: rest => fill :: shift_fill x rest
  end.

Definition shift1 (col : list float) : list float := shift_fill nan col.

(** [np.log(col.shift(1) / col)] *)
Definition log_return_column (col : list float) : list float :=
  map (fun pc => np_log (fst pc / snd pc)) (combine (shift1 col) col).

(** [calculate_log_returns(df)].  [insert(0, 'Date', ...)] raises when a
    value column is already called Date. *)
Definition calculate_log_returns (df : DatedTable) : result DatedTable :=
  let date_column := date_column df in
  let log_returns :=
    map (fun c => (fst c, log_return_column (snd c))) (value_columns df) in
  if existsb (String.eqb "Date") (map fst log_returns)
  then Raise (mkExn ValueError "cannot insert Date, already exists")
  else Ok (mkDated date_column log_returns).

(** [df[1:]] *)
Definition drop_first_row (df : DatedTable) : DatedTable :=
  mkDated (tl (date_column df))
          (map (fun c => (fst c, tl (snd c))) (value_columns df)).

(** [(series != 0) & series.notna()] *)
Definition is_valid (x : float) : bool := negb (eq0 x) && negb (isna x).

(** [(series == 0) | series.isna()] *)
Definition is_gap (x : float) : bool := eq0 x || isna x.

(** [valid_indices.min()] and [.max()] of a non-empty index *)
Definition index_min (i : Z) (rest : list Z) : Z := fold_left Z.min rest i.
Definition index_max (i : Z) (rest : list Z) : Z := fold_left Z.max rest i.

(** [series[(series != 0) & series.notna()]] *)
Definition valid_values (series : Series) : Series :=
  filter (fun p => is_valid (snd p)) series.

(** [replace_nans_and_zeros_with_mean(series)] *)
Definition replace_nans_and_zeros_with_mean (series : Series) : Series :=
  let valid_values := valid_values series in
  let overall_mean := pd_mean (map snd valid_values) in
  match map fst valid_values with
  | [] => series
  | i :: rest =>
      let first_valid_index := index_min i rest in
      let last_valid_index := index_max i rest in
      map (fun p =>
             if is_gap (snd p)
                && (first_valid_index <=? fst p)%Z
                && (fst p <=? last_valid_index)%Z
             then (fst p, overall_mean)
             else p)
          series
  end.

(** The labels [start, start+1, ...] of the rows of a column. *)
Fixpoint range_from (start : Z) (col : list float) : Series :=
  match col with
  | [] => []
  | x :: rest => (start, x) :: range_from (start + 1) rest
  end.

(** The first part of the cell "Beginning the analysis":
    [df1 = calculate_log_returns(df)[1:]], the gap repair of every value
    column, and [set_index('Date')]. *)
Definition prepare_returns (df : DatedTable) : result DataFrame :=
  raw <- calculate_log_returns df ;;
  let df1 := drop_first_row raw in
  Ok (mkFrame (date_column df1)
        (map (fun c =>
                (fst c,
                 map snd (replace_nans_and_zeros_with_mean
                            (range_from 1 (snd c)))))
             (value_columns df1))).

End ReturnTransform.

(** ** pandas plumbing on label-indexed frames *)

Module Pandas.

(** [index.is_unique] *)
Fixpoint is_unique (idx : list label) : bool :=
  match idx with
  | [] => true
  | t :: rest => negb (existsb (label_eqb t) rest) && is_unique rest
  end.

(** [a.equals(b)] on two indexes *)
Fixpoint index_equals (a b : list label) : bool :=
  match a, b with
  | [], [] => true
  | x :: a', y :: b' => label_eqb x y && index_equals a' b'
  | _, _ => false
  end.

(** The value a column holds at label [t] (first row carrying it). *)
Fixpoint lookup (idx : list label) (vals : list float) (t : label)
  : option float :=
  match idx, vals with
  | i :: idx', v :: vals' =>
      if label_eqb i t then Some v else lookup idx' vals' t
  | _, _ => None
  end.

Definition or_nan (o : option float) : float :=
  match o with Some v => v | None => nan end.

(** The values of a column moved onto the labels [target]; a label the
    column does not have gives a missing value. *)
Definition reindex_values (idx : list label) (vals : list float)
           (target : list label) : list float :=
  map (fun t => or_nan (lookup idx vals t)) target.

(** [series.reindex(target)] for a series given by its index and values:
    pandas returns the values as they are when the two indexes are equal
    and refuses an index with duplicate labels otherwise. *)
Definition reindex_series (idx : list label) (vals : list float)
           (target : list label) : result (list float) :=
  if index_equals idx target then Ok vals
  else if is_unique idx then Ok (reindex_values idx vals target)
  else Raise (mkExn ValueError
                "cannot reindex on an axis with duplicate labels").

(** [df.reindex(target)] *)
Definition reindex (df : DataFrame) (target : list label)
  : result DataFrame :=
  if index_equals (index df) target then Ok df
  else if is_unique (index df)
  then Ok (mkFrame target
             (map (fun c => (fst c, reindex_values (index df) (snd c) target))
                  (columns df)))
  else Raise (mkExn ValueError
                "cannot reindex on an axis with duplicate labels").

(** [df[name]] *)
Fixpoint find_column (name : string) (cols : list (string * list float))
  : option (list float) :=
  match cols with
  | [] => None
  | c :: rest =>
      if String.eqb (fst c) name then Some (snd c) else find_column name rest
  end.

Definition get_column (df : DataFrame) (name : string)
  : result (list float) :=
  match find_column name (columns df) with
  | Some col => Ok col
  | None => Raise (mkExn KeyError name)
  end.

(** [col.subtract(other)], both on the same index *)
Definition subtract (col other : list float) : list float :=
  map (fun p => fst p - snd p) (combine col other).

(** [col.where(col == 0, other)]: the cell itself where it equals zero,
    the cell of [other] elsewhere *)
Definition where_eq0 (col other : list float) : list float :=
  map (fun p => if eq0 (fst p) then fst p else snd p) (combine col other).

(** [col.replace(0.00, np.nan)] *)
Definition replace_zero (col : list float) : list float :=
  map (fun x => if eq0 x then nan else x) col.

Definition map_columns (f : list float -> list float) (df : DataFrame)
  : DataFrame :=
  mkFrame (index df) (map (fun c => (fst c, f (snd c))) (columns df)).

(** [col.notna()] *)
Definition notna_mask (col : list float) : list bool :=
  map (fun v => negb (isna v)) col.

Definition and_masks (m1 m2 : list bool) : list bool :=
  map (fun p => fst p && snd p) (combine m1 m2).

(** [col[mask]] *)
Definition select {A : Type} (mask : list bool) (col : list A) : list A :=
  map snd (filter fst (combine mask col)).

(** An index that holds time stamps only is a [DatetimeIndex]. *)
Definition is_datetime_index (idx : list label) : bool :=
  forallb (fun t => match t with Stamp _ => true | Text _ => false end) idx.

(** [index.sort_values()] on an index of time stamps: ascending. *)
Definition stamp_leb (a b : label) : bool :=
  match a, b with
  | Stamp x, Stamp y => (x <=? y)%Z
  | _, _ => true
  end.

Fixpoint insert_label (t : label) (idx : list label) : list label :=
  match idx with
  | [] => [t]
  | u :: rest => if stamp_leb t u then t :: idx else u :: insert_label t rest
  end.

Definition sort_values (idx : list label) : list label :=
  fold_right insert_label [] idx.

End Pandas.

Import Pandas.

(** Every column of a frame has one cell per index label. *)
Definition well_formed (df : DataFrame) : Prop :=
  forall c, In c (columns df) -> length (snd c) = length (index df).

(** ** Excess Return Aligner *)

(** The second part of the cell "Beginning the analysis", for the frame
    [df1] the risk-free series is aligned to:
<<
    df_riskfree_aligned = df_riskfree.reindex(df1.index)
    df_log_excess_return_etf =
        df1.where(df1 == 0,
                  df1.subtract(df_riskfree_aligned['ln riskfree'], axis=0))
>>
    The result is the excess frame before the zero replacement.  (The
    statement for the second frame of the notebook, [df2], is
    [subtract_riskfree_mutual] below.) *)
Definition subtract_riskfree (df1 df_riskfree : DataFrame)
  : result DataFrame :=
  df_riskfree_aligned <- reindex df_riskfree (index df1) ;;
  riskfree <- get_column df_riskfree_aligned "ln riskfree" ;;
  Ok (map_columns (fun col => where_eq0 col (subtract col riskfree)) df1).

(** Then [df1.replace(0.00, np.nan, inplace=True)] and the same on the
    excess frame: the pair (raw returns, excess returns) the regressions
    and the descriptive statistics read. *)
Definition excess_returns (df1 df_riskfree : DataFrame)
  : result (DataFrame * DataFrame) :=
  df_log_excess_return <- subtract_riskfree df1 df_riskfree ;;
  Ok (map_columns replace_zero df1,
      map_columns replace_zero df_log_excess_return).




(** ** The statistics libraries *)

(** What [sm.OLS(y, X).fit()] exposes and the notebook reads. *)
Record OLSResults : Type := mkOLS {
  params : list float;
  pvalues : list float;
  rsquared : float;
  f_pvalue : float;
  conf_int : list (float * float);
  resid : list float;
  fittedvalues : list float
}.

(** The numerical routines of statsmodels, scipy and pandas the notebook
    calls.  A design matrix is passed as the list of its columns. *)
Record StatsLib : Type := mkLib {
  (** [sm.OLS(endog, exog).fit()] *)
  OLS_fit : list float -> list (list float) -> result OLSResults;
  (** [het_breuschpagan(resid, exog)]: LM, its p-value, F, its p-value *)
  het_breuschpagan :
    list float -> list (list float) -> result (float * float * float * float);
  (** [het_white(resid, exog)] *)
  het_white :
    list float -> list (list float) -> result (float * float * float * float);
  (** [stats.shapiro(x)]: statistic and p-value *)
  shapiro : list float -> result (float * float);
  (** [stats.jarque_bera(x)]: statistic and p-value *)
  jarque_bera : list float -> result (float * float);
  (** [stats.skew(x)] *)
  skew : list float -> result float;
  (** [stats.kurtosis(x, fisher=...)] *)
  kurtosis : bool -> list float -> result float;
  (** [pd.to_datetime(index)] *)
  to_datetime : list label -> result (list label);
  (** the four matplotlib panels drawn from the residuals and the fitted
      values of one column, up to [plt.tight_layout()] *)
  draw_panels : string -> list float -> list float -> result unit
}.

Module Statsmodels.

(** [np.maximum] and [np.minimum]: a NaN operand wins. *)
Definition np_maximum (a b : float) : float :=
  if is_nan a then a else if is_nan b then b else if a <? b then b else a.

Definition np_minimum (a b : float) : float :=
  if is_nan a then a else if is_nan b then b else if b <? a then b else a.

(** [np.ptp(s) == 0.0 and np.any(s != 0.0)], False on an empty column
    (where [np.ptp] raises and [add_trend] answers False). *)
Definition is_nonzero_const (col : list float) : bool :=
  match col with
  | [] => false
  | x :: rest =>
      (fold_left np_maximum rest x - fold_left np_minimum rest x =? 0)
      && existsb (fun v => negb (v =? 0)) col
  end.

(** [sm.add_constant(df)] with its defaults [prepend=True] and
    [has_constant='skip']: a column [const] of ones is put in front,
    unless some column is already a non-zero constant, in which case the
    frame is returned as it is. *)
Definition add_constant (df : DataFrame) : DataFrame :=
  if existsb (fun c => is_nonzero_const (snd c)) (columns df)
  then df
  else mkFrame (index df)
               (("const"%string, repeat 1 (length (index df))) :: columns df).

Definition remove_nth {A : Type} (i : nat) (l : list A) : list A :=
  firstn i l ++ skipn (S i) l.

(** [variance_inflation_factor(exog, exog_idx)]:
<<
    x_i = exog[:, exog_idx]
    x_noti = exog[:, mask]          # every other column
    r_squared_i = OLS(x_i, x_noti).fit().rsquared
    vif = 1. / (1. - r_squared_i)
>> *)
Definition variance_inflation_factor (lib : StatsLib)
           (exog : list (list float)) (exog_idx : nat) : result float :=
  let x_i := nth exog_idx exog [] in
  let x_noti := remove_nth exog_idx exog in
  fit <- OLS_fit lib x_i x_noti ;;
  Ok (1 / (1 - rsquared fit)).

End Statsmodels.

Import Statsmodels.

(** ** Regression Engine *)

(** [seq[i]] on the coefficient vectors of a fit *)
Definition item {A : Type} (what : string) (l : list A) (i : nat)
  : result A :=
  match nth_error l i with
  | Some a => Ok a
  | None => Raise (mkExn IndexError what)
  end.

(** The rows [pd.concat([y, X], axis=1).dropna()] keeps.  [concat] joins
    the two indexes: equal indexes are kept as they are, otherwise both
    must be duplicate-free and the result is indexed by their union, the
    labels of [y] followed by the labels only [X] has; the union of two
    non-empty indexes of time stamps is put in ascending order (pandas
    sorts the union of two different [DatetimeIndex]).  The exception for
    duplicate labels is [InvalidIndexError] when [X] is a frame, as in
    [regression_fama], and [ValueError] when [y] and [X] are two series,
    as in [regression_capm].  A row survives [dropna] when neither [y]
    nor any column of [X] is missing there. *)
Record RegressionData : Type := mkData {
  data_index : list label;
  y_clean : list float;
  X_clean : list (string * list float)
}.

Definition union_index (yidx xidx : list label) : list label :=
  let union :=
    yidx ++ filter (fun t => negb (existsb (label_eqb t) yidx)) xidx in
  match yidx, xidx with
  | [], _ | _, [] => union
  | _, _ =>
      if is_datetime_index yidx && is_datetime_index xidx
      then sort_values union
      else union
  end.

Definition concat_index_with (duplicates : exn) (yidx xidx : list label)
  : result (list label) :=
  if index_equals yidx xidx then Ok yidx
  else if is_unique yidx && is_unique xidx then Ok (union_index yidx xidx)
  else Raise duplicates.

Definition frames_duplicates : exn :=
  mkExn InvalidIndexError
        "Reindexing only valid with uniquely valued Index objects".

Definition series_duplicates : exn :=
  mkExn ValueError "cannot reindex on an axis with duplicate labels".

Definition concat_index : list label -> list label -> result (list label) :=
  concat_index_with frames_duplicates.

Definition concat_dropna_with (duplicates : exn) (yidx : list label)
           (y : list float) (X : DataFrame) : result RegressionData :=
  joined <- concat_index_with duplicates yidx (index X) ;;
  let same := index_equals yidx (index X) in
  let y' := if same then y else reindex_values yidx y joined in
  let X' :=
    map (fun c => (fst c,
                   if same then snd c
                   else reindex_values (index X) (snd c) joined))
        (columns X) in
  let mask := fold_left and_masks (map (fun c => notna_mask (snd c)) X')
                        (notna_mask y') in
  Ok (mkData (select mask joined) (select mask y')
             (map (fun c => (fst c, select mask (snd c))) X')).

Definition concat_dropna : list label -> list float -> DataFrame
                           -> result RegressionData :=
  concat_dropna_with frames_duplicates.

(** [sm.add_constant(regression_data.iloc[:, 1:])]: the design matrix of
    the fit. *)
Definition design_matrix (data : RegressionData) : DataFrame :=
  add_constant (mkFrame (data_index data) (X_clean data)).

(** One line of the CAPM result table. *)
Record CapmRow : Type := mkCapmRow {
  capm_fund : string;
  capm_alpha : float;
  capm_beta : float;
  capm_p_alpha : float;
  capm_p_beta : float;
  capm_rsquared : float;
  capm_ci_alpha : float * float;
  capm_ci_beta : float * float
}.

(** What one pass of the loop of a regression function produces: the
    line of the result table, the index of [regression_data] (the rows of
    the estimation), and the residuals and fitted values put back on the
    index of the input frame. *)
Record Fitted (Row : Type) : Type := mkFitted {
  fit_row : Row;
  fit_index : list label;
  fit_residuals : list float;
  fit_fitted_values : list float
}.

(** The body of the loop of [regression_capm] for the column [column];
    [X] is the frame of the one series [df_regressor_capm['ln excess']]. *)
Definition capm_column (lib : StatsLib) (log_excess_return : DataFrame)
           (X : DataFrame) (column : string * list float)
  : result (Fitted CapmRow) :=
  let y := snd column in
  regression_data <- concat_dropna_with series_duplicates
                       (index log_excess_return) y X ;;
  let y_clean := y_clean regression_data in
  let X_clean := design_matrix regression_data in
  results <- OLS_fit lib y_clean (map snd (columns X_clean)) ;;
  alpha <- item "params[0]" (params results) 0 ;;
  beta <- item "params[1]" (params results) 1 ;;
  p_alpha <- item "pvalues[0]" (pvalues results) 0 ;;
  p_beta <- item "pvalues[1]" (pvalues results) 1 ;;
  ci_alpha <- item "conf_int().iloc[0]" (conf_int results) 0 ;;
  ci_beta <- item "conf_int().iloc[1]" (conf_int results) 1 ;;
  residuals <- reindex_series (data_index regression_data) (resid results)
                              (index log_excess_return) ;;
  fitted <- reindex_series (data_index regression_data)
                           (fittedvalues results)
                           (index log_excess_return) ;;
  Ok (mkFitted
        (mkCapmRow (fst column) alpha beta p_alpha p_beta
                   (rsquared results) ci_alpha ci_beta)
        (data_index regression_data) residuals fitted).

(** Results table, residual frame, fitted-value frame. *)
Definition RegressionOutput (Row : Type) : Type :=
  (list Row * DataFrame * DataFrame)%type.

Definition collect {Row : Type} (idx : list label)
           (fits : list (string * Fitted Row)) : RegressionOutput Row :=
  (map (fun f => fit_row (snd f)) fits,
   mkFrame idx (map (fun f => (fst f, fit_residuals (snd f))) fits),
   mkFrame idx (map (fun f => (fst f, fit_fitted_values (snd f))) fits)).

(** The sheets an [ExcelWriter] has received. *)
Definition Writer : Type := list string.

(** [regression_capm(log_excess_return, df_regressor_capm, writer)] *)
Definition regression_capm (lib : StatsLib)
           (log_excess_return df_regressor_capm : DataFrame)
           (writer : Writer)
  : result (RegressionOutput CapmRow * Writer) :=
  X <- get_column df_regressor_capm "ln excess" ;;
  let X := mkFrame (index df_regressor_capm) [("ln excess"%string, X)] in
  fits <- mapM (fun column =>
                  f <- capm_column lib log_excess_return X column ;;
                  Ok (fst column, f))
               (columns log_excess_return) ;;
  Ok (collect (index log_excess_return) fits,
      writer ++ ["CAPM Results"; "Residuals"; "Fitted Values"]%string).

(** The fields a factor adds to a line of the Fama-French table. *)
Record FamaBeta : Type := mkFamaBeta {
  beta_regressor : string;
  beta_value : float;
  beta_p : float;
  beta_ci : float * float
}.

Record FamaRow : Type := mkFamaRow {
  fama_fund : string;
  fama_alpha : float;
  fama_p_alpha : float;
  fama_rsquared : float;
  fama_model_p : float;
  fama_ci_alpha : float * float;
  fama_betas : list FamaBeta
}.

(** The body of the loop of [regression_fama] for the column [column]. *)
Definition fama_column (lib : StatsLib) (log_excess_return : DataFrame)
           (X : DataFrame) (column : string * list float)
  : result (Fitted FamaRow) :=
  let y := snd column in
  regression_data <- concat_dropna (index log_excess_return) y X ;;
  let y_clean := y_clean regression_data in
  let X_clean := design_matrix regression_data in
  results <- OLS_fit lib y_clean (map snd (columns X_clean)) ;;
  alpha <- item "params[0]" (params results) 0 ;;
  p_alpha <- item "pvalues[0]" (pvalues results) 0 ;;
  ci_alpha <- item "conf_int().iloc[0]" (conf_int results) 0 ;;
  betas <- mapM (fun ir =>
                   let i := fst ir in
                   b <- item "params[i + 1]" (params results) (i + 1) ;;
                   p <- item "pvalues[i + 1]" (pvalues results) (i + 1) ;;
                   ci <- item "conf_int().iloc[i + 1]"
                              (conf_int results) (i + 1) ;;
                   Ok (mkFamaBeta (snd ir) b p ci))
                (combine (seq 0 (length (columns X)))
                         (map fst (columns X))) ;;
  residuals <- reindex_series (data_index regression_data) (resid results)
                              (index log_excess_return) ;;
  fitted <- reindex_series (data_index regression_data)
                           (fittedvalues results)
                           (index log_excess_return) ;;
  Ok (mkFitted
        (mkFamaRow (fst column) alpha p_alpha (rsquared results)
                   (f_pvalue results) ci_alpha betas)
        (data_index regression_data) residuals fitted).

(** [regression_fama(log_excess_return, df_regressor_fama, writer)] *)
Definition regression_fama (lib : StatsLib)
           (log_excess_return df_regressor_fama : DataFrame)
           (writer : Writer)
  : result (RegressionOutput FamaRow * Writer) :=
  let X := df_regressor_fama in
  fits <- mapM (fun column =>
                  f <- fama_column lib log_excess_return X column ;;
                  Ok (fst column, f))
               (columns log_excess_return) ;;
  Ok (collect (index log_excess_return) fits,
      writer ++ ["Fama Results"; "Residuals"; "Fitted Values"]%string).

(** ** Diagnostic Test Suite *)

Module Index.

Definition is_stamp (t : label) : bool :=
  match t with Stamp _ => true | Text _ => false end.

(** [pd.api.types.is_datetime64_any_dtype(index)].  The type of an index
    is read off its labels: an index of time stamps only is a datetime
    index.  (An object-typed index that holds time stamps only is
    converted by [pd.to_datetime] without error and the converted index
    is not used, so the notebook goes on in the same way.) *)
Definition is_datetime64_any_dtype (idx : list label) : bool :=
  forallb is_stamp idx.

(** Python's [<=] on two labels of the same kind. *)
Definition label_leb (a b : label) : bool :=
  match a, b with
  | Stamp x, Stamp y => (x <=? y)%Z
  | Text x, Text y => String.leb x y
  | Stamp _, Text _ => true
  | Text _, Stamp _ => false
  end.

(** Labels of one kind can be compared; a time stamp and a text cannot. *)
Definition comparable (idx : list label) : bool :=
  forallb is_stamp idx || forallb (fun t => negb (is_stamp t)) idx.

Fixpoint insert_row {A : Type} (r : label * A) (rows : list (label * A))
  : list (label * A) :=
  match rows with
  | [] => [r]
  | r' :: rest =>
      if label_leb (fst r) (fst r') then r :: rows
      else r' :: insert_row r rest
  end.

Definition sorted_rows {A : Type} (rows : list (label * A))
  : list (label * A) :=
  fold_right insert_row [] rows.

(** [obj.sort_index()]: ascending by label (rows with the same label,
    among which pandas promises no order, are kept in their given order);
    [TypeError] when the labels cannot be compared. *)
Definition sort_index {A : Type} (rows : list (label * A))
  : result (list (label * A)) :=
  if comparable (map fst rows) then Ok (sorted_rows rows)
  else Raise (mkExn TypeError "'<' not supported between instances").

(** [obj.loc[wanted]] once the index has read the keys (see
    [cast_listlike] below): for every wanted label the rows carrying it;
    [KeyError] when a label is not in the index. *)
Definition loc {A : Type} (rows : list (label * A)) (wanted : list label)
  : result (list (label * A)) :=
  found <- mapM (fun t =>
                   match filter (fun r => label_eqb (fst r) t) rows with
                   | [] => Raise (mkExn KeyError "not in index")
                   | m => Ok m
                   end)
                wanted ;;
  Ok (concat found).

(** The rows of a frame, and the frame of a list of rows. *)
Fixpoint rows_of_columns (idx : list label) (cols : list (list float))
  : list (label * list float) :=
  match idx with
  | [] => []
  | t :: idx' =>
      (t, map (hd nan) cols) :: rows_of_columns idx' (map (@tl float) cols)
  end.

Definition rows_of (df : DataFrame) : list (label * list float) :=
  rows_of_columns (index df) (map snd (columns df)).

Definition frame_of_rows (names : list string)
           (rows : list (label * list float)) : DataFrame :=
  mkFrame (map fst rows)
          (map (fun jn =>
                  (snd jn, map (fun r => nth (fst jn) (snd r) nan) rows))
               (combine (seq 0 (length names)) names)).

End Index.

Import Index.

Definition HetRow : Type := (string * (float * float * float * float))%type.
Definition ShapiroRow : Type := (string * (float * float))%type.

Record JBRow : Type := mkJB {
  jb_fund : string;
  jb_statistic : float;
  jb_pvalue : float;
  jb_skewness : float;
  jb_kurtosis : float
}.

Record Diagnostics : Type := mkDiag {
  results_bp : list HetRow;
  results_white : list HetRow;
  shapiro_results : list ShapiroRow;
  jarque_bera_results : list JBRow
}.

(** What the run leaves outside its return value. *)
Record World : Type := mkWorld {
  stdout : list string;
  figures : list string
}.

Definition quote : string := String (ascii_of_nat 34) EmptyString.

(** [f'Error converting indices to datetime for column "{column}": {e}'] *)
Definition skip_message (column : string) (e : exn) : string :=
  ("Error converting indices to datetime for column "
   ++ quote ++ column ++ quote ++ ": " ++ exn_msg e)%string.

(** What one pass of the loop of [combined_tests] does: [continue] after
    a printed message, or the four tests and a saved figure. *)
Inductive Outcome : Type :=
| Skipped (message : string)
| Tested (bp white : HetRow) (sw : ShapiroRow) (jb : JBRow)
         (figure : string).

(** How an index reads the keys of a look-up
    ([_maybe_cast_listlike_indexer]): an index of time stamps reads keys
    that are not time stamps as dates, with the parser of [to_datetime],
    when all of them can be read; any other keys are taken as they
    are. *)
Definition cast_listlike (lib : StatsLib) (idx keys : list label)
  : list label :=
  if is_datetime64_any_dtype idx && negb (is_datetime64_any_dtype keys)
  then match to_datetime lib keys with
       | Ok converted => converted
       | Raise _ => keys
       end
  else keys.

(** [obj.loc[keys]] for an index object [keys]. *)
Definition loc_keys {A : Type} (lib : StatsLib) (rows : list (label * A))
           (keys : list label) : result (list (label * A)) :=
  loc rows (cast_listlike lib (map fst rows) keys).

(** [residuals_df[column].dropna()] *)
Definition dropna_series (idx : list label) (col : list float)
  : list (label * float) :=
  filter (fun r => negb (isna (snd r))) (combine idx col).

(** The sample the tests of a column are computed on:
    [residuals_df[column].dropna().sort_index()]. *)
Definition residual_sample (residuals_df : DataFrame) (col : list float)
  : result (list (label * float)) :=
  sort_index (dropna_series (index residuals_df) col).

(** The body of the loop of [combined_tests]. *)
Definition test_column (lib : StatsLib)
           (residuals_df fitted_values_df regressor excess_returns_df
            : DataFrame)
           (output_dir : string) (c : string * list float)
  : result Outcome :=
  let column := fst c in
  let residuals := dropna_series (index residuals_df) (snd c) in
  let matching_indices := map fst residuals in
  let converted :=
    if is_datetime64_any_dtype matching_indices then Ok matching_indices
    else to_datetime lib matching_indices in
  match converted with
  | Raise e =>
      Ok (Skipped (skip_message column e))
  | Ok _ =>
      residuals <- sort_index residuals ;;
      let matching_indices := map fst residuals in
      fcol <- get_column fitted_values_df column ;;
      fitted_values <- loc_keys lib (combine (index fitted_values_df) fcol)
                                matching_indices ;;
      fitted_values <- sort_index fitted_values ;;
      ecol <- get_column excess_returns_df column ;;
      excess_returns <- loc_keys lib
                          (combine (index excess_returns_df) ecol)
                          matching_indices ;;
      excess_returns <- sort_index excess_returns ;;
      regressor_filtered <- loc_keys lib (rows_of regressor)
                                     matching_indices ;;
      regressor_filtered <- sort_index regressor_filtered ;;
      let exog_with_const :=
        add_constant (frame_of_rows (map fst (columns regressor))
                                    regressor_filtered) in
      let exog := map snd (columns exog_with_const) in
      let sample := map snd residuals in
      bp_test_result <- het_breuschpagan lib sample exog ;;
      white_test_result <- het_white lib sample exog ;;
      shapiro_test <- shapiro lib sample ;;
      jb_test <- jarque_bera lib sample ;;
      skewness <- skew lib sample ;;
      kurtosis <- kurtosis lib false sample ;;
      _ <- draw_panels lib column (map snd fitted_values) sample ;;
      Ok (Tested (column, bp_test_result) (column, white_test_result)
                 (column, shapiro_test)
                 (mkJB column (fst jb_test) (snd jb_test) skewness kurtosis)
                 (output_dir ++ "/residual_tests_" ++ column ++ ".png"))
  end.

Definition record_outcome (o : Outcome) (acc : Diagnostics * World)
  : Diagnostics * World :=
  let (d, w) := acc in
  match o with
  | Skipped message => (d, mkWorld (stdout w ++ [message]) (figures w))
  | Tested bp white sw jb figure =>
      (mkDiag (results_bp d ++ [bp]) (results_white d ++ [white])
              (shapiro_results d ++ [sw]) (jarque_bera_results d ++ [jb]),
       mkWorld (stdout w) (figures w ++ [figure]))
  end.

(** The loop over [residuals_df.columns]: an exception leaves the loop
    and the function. *)
Fixpoint tests_loop (body : string * list float -> result Outcome)
         (cols : list (string * list float)) (acc : Diagnostics * World)
  : result Diagnostics * World :=
  match cols with
  | [] => (Ok (fst acc), snd acc)
  | c :: rest =>
      match body c with
      | Raise e => (Raise e, snd acc)
      | Ok o => tests_loop body rest (record_outcome o acc)
      end
  end.

(** [combined_tests(residuals_df, fitted_values_df, regressor,
    excess_returns_df, output_dir, writer)]: the four tables, the sheets
    written, and the messages printed and figures saved on the way. *)
Definition combined_tests (lib : StatsLib)
           (residuals_df fitted_values_df regressor excess_returns_df
            : DataFrame)
           (output_dir : string) (writer : Writer) (w : World)
  : result (Diagnostics * Writer) * World :=
  let (r, w') :=
    tests_loop (test_column lib residuals_df fitted_values_df regressor
                            excess_returns_df output_dir)
               (columns residuals_df)
               (mkDiag [] [] [] [], w) in
  (d <- r ;;
   Ok (d, writer ++ ["Shapiro-Wilk Test"; "Jarque-Bera Test";
                     "Breusch-Pagan Test"; "White Test"]%string),
   w').

(** ** Multicollinearity *)

(** [vif_fama(df_regressor_fama)]: the table of variable names and VIFs. *)
Definition vif_fama (lib : StatsLib) (df_regressor_fama : DataFrame)
  : result (list (string * float)) :=
  let df_with_constant := add_constant df_regressor_fama in
  let values := map snd (columns df_with_constant) in
  vifs <- mapM (variance_inflation_factor lib values)
               (seq 0 (length (columns df_with_constant))) ;;
  Ok (combine (map fst (columns df_with_constant)) vifs).

(** ** Autocorrelation *)

(** [d[key] = value] on a dictionary kept in insertion order: a key
    already present keeps its place and takes the new value. *)
Fixpoint dict_set {V : Type} (key : string) (value : V)
         (d : list (string * V)) : list (string * V) :=
  match d with
  | [] => [(key, value)]
  | kv :: rest =>
      if String.eqb (fst kv) key then (fst kv, value) :: rest
      else kv :: dict_set key value rest
  end.

(** [durbin_watson_capm(residuals_df, writer)], with statsmodels'
    [durbin_watson] as a parameter:
<<
    dw_results = {column: durbin_watson(residuals_df[column].dropna())
                  for column in residuals_df.columns}
    dw_df = pd.DataFrame(list(dw_results.items()), columns=[...])
    dw_df.to_excel(writer, sheet_name='Durbin-Watson Test', index=False)
>>
    (With two columns of one name [residuals_df[column]] is a frame, not
    a series; the model is that of frames with distinct column names.) *)
Definition durbin_watson_capm (durbin_watson : list float -> float)
           (residuals_df : DataFrame) (writer : Writer)
  : list (string * float) * Writer :=
  let dw_results :=
    fold_left (fun d c =>
                 dict_set (fst c)
                          (durbin_watson
                             (map snd (dropna_series (index residuals_df)
                                                     (snd c))))
                          d)
              (columns residuals_df) [] in
  (dw_results, writer ++ ["Durbin-Watson Test"%string]).

(** ** A reference implementation of the library routines

    Used to run the model on concrete tables.  The logarithm is a series,
    least squares goes through the normal equations, the moments are
    plain sums; the p-values and confidence bounds, which need the
    quantiles of the t, F and chi-square laws, and the Shapiro-Wilk
    statistic are left missing.  The exceptions are those the libraries
    raise on samples that are too small. *)

Module Ref.

Definition fsum (l : list float) : float := fold_left PrimFloat.add l 0.

Definition fcount (l : list float) : float :=
  fold_left (fun n _ => n + 1) l 0.

Definition mean (l : list float) : float := fsum l / fcount l.

(** [ln x = 2 (y + y^3/3 + y^5/5 + ...)] with [y = (x-1)/(x+1)] *)
Fixpoint log_series (terms : nat) (y2 power k : float) : float :=
  match terms with
  | O => 0
  | S terms' => power / k + log_series terms' y2 (power * y2) (k + 2)
  end.

Definition log (x : float) : float :=
  if is_nan x then nan
  else if x <? 0 then nan
  else if x =? 0 then neg_infinity
  else if x =? infinity then infinity
  else let y := (x - 1) / (x + 1) in 2 * log_series 40 (y * y) y 1.

Definition dot (a b : list float) : float :=
  fold_left (fun s p => s + fst p * snd p) (combine a b) 0.

(** Gaussian elimination on the rows [a1 ... ak | b]. *)
Fixpoint solve (k : nat) (rows : list (list float)) : list float :=
  match k, rows with
  | S k', r :: rs =>
      let pivot := hd nan r in
      let r' := map (fun v => v / pivot) (tl r) in
      let rs' :=
        map (fun q => map (fun ab => fst ab - hd nan q * snd ab)
                          (combine (tl q) r'))
            rs in
      let sol := solve k' rs' in
      (last r' nan - dot (removelast r') sol) :: sol
  | _, _ => []
  end.

Definition scaled_sum (coefs : list float) (cols : list (list float))
           (n : nat) : list float :=
  fold_left (fun acc pc =>
               map (fun ab => fst ab + fst pc * snd ab)
                   (combine acc (snd pc)))
            (combine coefs cols) (repeat 0 n).

Definition is_const (col : list float) : bool :=
  match col with
  | [] => false
  | x :: rest => negb (x =? 0) && forallb (fun v => v =? x) rest
  end.

Definition sum_sq (l : list float) : float := dot l l.

Definition OLS_fit (y : list float) (X : list (list float))
  : result OLSResults :=
  match y with
  | [] => Raise (mkExn ValueError
                   "zero-size array to reduction operation maximum")
  | _ =>
      let beta :=
        solve (length X) (map (fun ci => map (dot ci) X ++ [dot ci y]) X) in
      let fitted := scaled_sum beta X (length y) in
      let res := map (fun ab => fst ab - snd ab) (combine y fitted) in
      let tss :=
        if existsb is_const X
        then sum_sq (map (fun v => v - mean y) y)
        else sum_sq y in
      Ok (mkOLS beta (map (fun _ => nan) beta)
                (1 - sum_sq res / tss) nan
                (map (fun _ => (nan, nan)) beta) res fitted)
  end.

(** [n R^2] of the regression of the squared residuals on [exog], and
    the F form of the same test. *)
Definition lm_test (what : string) (res : list float)
           (exog : list (list float))
  : result (float * float * float * float) :=
  match exog with
  | [] | [_] =>
      Raise (mkExn ValueError
               (what ++ " requires exog to have at least two columns"))
  | _ =>
      fit <- OLS_fit (map (fun e => e * e) res) exog ;;
      let r2 := rsquared fit in
      let n := fcount res in
      let k := fcount (map (fun _ => 0) exog) in
      Ok (n * r2, nan, (r2 / (k - 1)) / ((1 - r2) / (n - k)), nan)
  end.

Definition het_breuschpagan := lm_test "The Breusch-Pagan test".

(** The products [x_i x_j], [i <= j], of the columns of [exog]. *)
Fixpoint cross_products (cols : list (list float)) : list (list float) :=
  match cols with
  | [] => []
  | c :: rest =>
      map (fun d => map (fun ab => fst ab * snd ab) (combine c d)) cols
      ++ cross_products rest
  end.

Definition het_white (res : list float) (exog : list (list float))
  : result (float * float * float * float) :=
  match exog with
  | [] | [_] =>
      Raise (mkExn ValueError
               "White's test requires exog to have at least two columns")
  | _ => lm_test "White's test" res (cross_products exog)
  end.

Definition shapiro (x : list float) : result (float * float) :=
  if (length x <? 3)%nat
  then Raise (mkExn ValueError "Data must be at least length 3.")
  else Ok (nan, nan).

(** The central moment of order 2, 3 or 4. *)
Definition moment (order : nat) (x : list float) : float :=
  let m := mean x in
  mean (map (fun v => fold_left PrimFloat.mul (repeat (v - m) order) 1) x).

Definition skew (x : list float) : result float :=
  let m2 := moment 2 x in
  Ok (moment 3 x / (m2 * PrimFloat.sqrt m2)).

Definition kurtosis (fisher : bool) (x : list float) : result float :=
  let m2 := moment 2 x in
  let vals := moment 4 x / (m2 * m2) in
  Ok (if fisher then vals - 3 else vals).

Definition jarque_bera (x : list float) : result (float * float) :=
  match x with
  | [] => Raise (mkExn ValueError "At least one observation is required.")
  | _ =>
      let m2 := moment 2 x in
      let s := moment 3 x / (m2 * PrimFloat.sqrt m2) in
      let k := moment 4 x / (m2 * m2) in
      Ok (fcount x / 6 * (s * s + (k - 3) * (k - 3) / 4), nan)
  end.

Definition digit (c : ascii) : option Z :=
  let n := Z.of_nat (nat_of_ascii c) in
  if ((48 <=? n) && (n <=? 57))%Z then Some (n - 48)%Z else None.

Fixpoint number (acc : Z) (s : list ascii) : option Z :=
  match s with
  | [] => Some acc
  | c :: rest =>
      match digit c with
      | Some d => number (10 * acc + d)%Z rest
      | None => None
      end
  end.

(** Days since 1970-01-01 of a date of the Gregorian calendar. *)
Definition days_from_civil (y m d : Z) : Z :=
  let y := (if m <=? 2 then y - 1 else y)%Z in
  let era := (y / 400)%Z in
  let yoe := (y - era * 400)%Z in
  let doy := ((153 * (if m >? 2 then m - 3 else m + 9) + 2) / 5 + d - 1)%Z in
  let doe := (yoe * 365 + yoe / 4 - yoe / 100 + doy)%Z in
  (era * 146097 + doe - 719468)%Z.

(** A text of the form YYYY-MM-DD. *)
Definition parse_date (s : string) : option Z :=
  match list_ascii_of_string s with
  | [y1; y2; y3; y4; d1; m1; m2; d2; a1; a2] =>
      if (Ascii.eqb d1 "-" && Ascii.eqb d2 "-")%bool
      then match number 0 [y1; y2; y3; y4], number 0 [m1; m2],
                 number 0 [a1; a2] with
           | Some y, Some m, Some d =>
               if ((1 <=? m) && (m <=? 12) && (1 <=? d) && (d <=? 31))%Z
               then Some (days_from_civil y m d)
               else None
           | _, _, _ => None
           end
      else None
  | _ => None
  end.

Definition to_datetime (idx : list label) : result (list label) :=
  mapM (fun t =>
          match t with
          | Stamp _ => Ok t
          | Text s =>
              match parse_date s with
              | Some d => Ok (Stamp d)
              | None =>
                  Raise (mkExn ValueError
                           ("Unknown datetime string format: " ++ s))
              end
          end)
       idx.

Definition draw_panels (column : string) (fitted res : list float)
  : result unit := Ok tt.

(** [np.sum(np.diff(resids)**2) / np.sum(resids**2)] *)
Definition durbin_watson (resids : list float) : float :=
  let diff := map (fun ab => snd ab - fst ab) (combine resids (tl resids)) in
  sum_sq diff / sum_sq resids.

Definition lib : StatsLib :=
  mkLib OLS_fit het_breuschpagan het_white shapiro jarque_bera skew
        kurtosis to_datetime draw_panels.

End Ref.

(** ** Sample tables *)

(** The price series of the scenario: four consecutive time stamps. *)
Definition scenario_prices : DatedTable :=
  mkDated [Stamp 1; Stamp 2; Stamp 3; Stamp 4]
          [("Fund"%string, [100; 105; 103; 108])].

(** Two return columns on three time stamps, and a risk-free series that
    lacks the second of them. *)
Definition sample_returns : DataFrame :=
  mkFrame [Stamp 1; Stamp 2; Stamp 3]
          [("FundA"%string, [0.5; 0; 0.75]);
           ("FundB"%string, [nan; 0.125; 0.5])].

Definition sample_riskfree : DataFrame :=
  mkFrame [Stamp 3; Stamp 1] [("ln riskfree"%string, [0.25; 0.5])].

(** Excess returns of two funds on six time stamps, a market factor on
    the stamps 0-5, and the three Fama-French factors on the stamps 1-6. *)
Definition sample_excess : DataFrame :=
  mkFrame [Stamp 1; Stamp 2; Stamp 3; Stamp 4; Stamp 5; Stamp 6]
          [("FundA"%string, [0.5; nan; 0.25; 1; 0.75; 1.5]);
           ("FundB"%string, [0.125; 0.5; nan; nan; 1; 2])].

Definition sample_capm_regressor : DataFrame :=
  mkFrame [Stamp 0; Stamp 1; Stamp 2; Stamp 3; Stamp 4; Stamp 5]
          [("ln excess"%string, [2; 0.25; 0.5; 0.125; nan; 0.75])].

Definition sample_fama_regressor : DataFrame :=
  mkFrame [Stamp 1; Stamp 2; Stamp 3; Stamp 4; Stamp 5; Stamp 6]
          [("ln excess"%string, [0.25; 0.5; 0.125; 0.375; 0.75; 1]);
           ("SMB"%string, [1; 0; 0.5; 0.25; 0; 1]);
           ("HML"%string, [0; 1; 0.5; 1; 0.25; 0.5])].

(** ** Predicates of the statements *)

(** [data] are the rows the column [column] of [T] is estimated on with
    the regressors [X], and [r] is the fit on them. *)
Definition estimation_of (lib : StatsLib) (T X : DataFrame)
           (column : string * list float)
           (data : RegressionData) (r : OLSResults) : Prop :=
  concat_dropna (index T) (snd column) X = Ok data
  /\ OLS_fit lib (y_clean data) (map snd (columns (design_matrix data)))
     = Ok r.

(** [series] is [values], known on the rows [estimation], put back on
    the index [original]: one cell per original label, the value of the
    row for a label of the estimation, a missing cell for any other
    label; and when no value is missing, the rows left after dropping the
    missing rows of [series] are the rows of the estimation with their
    values, each of them once (in the order of [original], which need
    not be that of the estimation). *)
Definition re_expanded (original estimation : list label)
           (values series : list float) : Prop :=
  length series = length original
  /\ (forall k t j v,
         nth_error original k = Some t ->
         nth_error estimation j = Some t ->
         nth_error values j = Some v ->
         nth_error series k = Some v)
  /\ (forall k t,
         nth_error original k = Some t -> ~ In t estimation ->
         nth_error series k = Some nan)
  /\ ((forall v, In v values -> isna v = false) ->
      Permutation (dropna_series original series)
                  (combine estimation values)).

(** The label [t] carries a value of [y] and a value of every column of
    [X], none of them missing. *)
Definition complete_row (yidx : list label) (y : list float) (X : DataFrame)
           (t : label) : bool :=
  negb (isna (or_nan (lookup yidx y t)))
  && forallb (fun c => negb (isna (or_nan (lookup (index X) (snd c) t))))
             (columns X).


Definition short_fama_regressor : DataFrame :=
  mkFrame [Stamp 1; Stamp 2; Stamp 3]
          [("ln excess"%string, [0.25; 0.5; 0.125]);
           ("SMB"%string, [1; 0; 0.5]);
           ("HML"%string, [0; 1; 0.5])].

(** A fund with a single usable observation. *)
Definition single_excess : DataFrame :=
  mkFrame [Stamp 1; Stamp 2] [("FundA"%string, [0.5; nan])].

Definition single_regressor : DataFrame :=
  mkFrame [Stamp 1; Stamp 2] [("ln excess"%string, [0.25; 0.5])].

(** Rows in ascending order of their labels. *)
Definition rows_le {A : Type} (a b : label * A) : Prop :=
  label_leb (fst a) (fst b) = true.

(** The rows a pass of the loop of [combined_tests] adds to the tables. *)
Definition bp_rows_of (o : result Outcome) : list HetRow :=
  match o with Ok (Tested bp _ _ _ _) => [bp] | _ => [] end.

Definition white_rows_of (o : result Outcome) : list HetRow :=
  match o with Ok (Tested _ white _ _ _) => [white] | _ => [] end.

Definition shapiro_rows_of (o : result Outcome) : list ShapiroRow :=
  match o with Ok (Tested _ _ sw _ _) => [sw] | _ => [] end.

Definition jb_rows_of (o : result Outcome) : list JBRow :=
  match o with Ok (Tested _ _ _ jb _) => [jb] | _ => [] end.

(** The passes of the loop of [combined_tests] that ran the tests, and
    those that went on to the next column after a message. *)
Definition is_tested (o : result Outcome) : bool :=
  match o with Ok (Tested _ _ _ _ _) => true | _ => false end.

Definition is_skipped (o : result Outcome) : bool :=
  match o with Ok (Skipped _) => true | _ => false end.

(** Residuals of two funds on four time stamps and on a row whose label
    is not a date; FundA has no residual on that row. *)
Definition diag_residuals : DataFrame :=
  mkFrame [Stamp 3; Stamp 1; Stamp 2; Stamp 4; Text "Total"]
          [("FundA"%string, [0.125; 0.5; -0.25; -0.375; nan]);
           ("FundB"%string, [0.125; 0.25; -0.5; 0.25; 0.5])].

Definition diag_fitted : DataFrame :=
  mkFrame [Stamp 3; Stamp 1; Stamp 2; Stamp 4; Text "Total"]
          [("FundA"%string, [1; 0.5; 0.75; 1.5; nan]);
           ("FundB"%string, [0.5; 0.25; 1; 2; 0.75])].

Definition diag_excess : DataFrame :=
  mkFrame [Stamp 3; Stamp 1; Stamp 2; Stamp 4; Text "Total"]
          [("FundA"%string, [1.125; 1; 0.5; 1.125; nan]);
           ("FundB"%string, [0.625; 0.5; 0.5; 2.25; 1.25])].

Definition diag_regressor : DataFrame :=
  mkFrame [Stamp 1; Stamp 2; Stamp 3; Stamp 4; Stamp 5]
          [("ln excess"%string, [0.25; 0.5; 0.125; 0.75; 1])].

(** The same regressor without the fourth time stamp. *)
Definition diag_regressor_short : DataFrame :=
  mkFrame [Stamp 1; Stamp 2; Stamp 3]
          [("ln excess"%string, [0.25; 0.5; 0.125])].

Definition empty_world : World := mkWorld [] [].

(** Residuals of a fund on four time stamps, beside a fund that has
    none. *)
Definition partial_residuals : DataFrame :=
  mkFrame [Stamp 1; Stamp 2; Stamp 3; Stamp 4]
          [("FundA"%string, [0.5; -0.25; 0.125; -0.375]);
           ("FundC"%string, [nan; nan; nan; nan])].

(** The residuals of one fund on four time stamps, not in ascending
    order. *)
Definition stamped_residuals : DataFrame :=
  mkFrame [Stamp 3; Stamp 1; Stamp 2; Stamp 4]
          [("FundA"%string, [0.125; 0.5; -0.25; -0.375])].

(** The residuals of [stamped_residuals] on an index of date strings
    (an index of type object): day 3 is 1970-01-04. *)
Definition dated_residuals : DataFrame :=
  mkFrame [Text "1970-01-04"; Text "1970-01-02"; Text "1970-01-03";
           Text "1970-01-05"]
          [("FundA"%string, [0.125; 0.5; -0.25; -0.375])].

(** A fund without a single residual. *)
Definition missing_residuals : DataFrame :=
  mkFrame [Stamp 1; Stamp 2] [("FundC"%string, [nan; nan])].




Definition trend_regressor : DataFrame :=
  mkFrame [Stamp 1; Stamp 2; Stamp 3] [("ln excess"%string, [1; 2; 3])].

(** Excess returns on an index with a repeated date. *)
Definition repeated_dates : DataFrame :=
  mkFrame [Stamp 1; Stamp 1; Stamp 2] [("FundA"%string, [0.5; 1; 2])].

(** A regressor panel whose second factor is a non-zero constant. *)
Definition panel_with_constant : DataFrame :=
  mkFrame [Stamp 1; Stamp 2; Stamp 3]
          [("ln excess"%string, [0.25; 0.5; 0.125]);
           ("SMB"%string, [1; 1; 1])].

(** * Properties *)

Unset Implicit Arguments.

(** ** Results and loops *)

Lemma bind_ok {A B} (m : result A) (k : A -> result B) b :
  Py.bind m k = Ok b -> exists a, m = Ok a /\ k a = Ok b.
Proof.
  destruct m as [a|e]; simpl; intros H; [exists a; auto | discriminate].
Qed.

Lemma mapM_length {A B} (f : A -> result B) l bs :
  mapM f l = Ok bs -> length bs = length l.
Proof.
  revert bs; induction l as [|a l IH]; simpl; intros bs H.
  - now inversion H.
  - apply bind_ok in H as (b & _ & H).
    apply bind_ok in H as (bs' & Hbs & H).
    inversion H; subst; simpl; f_equal; auto.
Qed.

Lemma mapM_nth {A B} (f : A -> result B) l bs :
  mapM f l = Ok bs ->
  forall i a, nth_error l i = Some a ->
              exists b, nth_error bs i = Some b /\ f a = Ok b.
Proof.
  revert bs; induction l as [|a l IH]; simpl; intros bs H i x Hi.
  - destruct i; discriminate.
  - apply bind_ok in H as (b & Hb & H).
    apply bind_ok in H as (bs' & Hbs & H).
    inversion H; subst; clear H.
    destruct i as [|i]; simpl in *.
    + inversion Hi; subst; eauto.
    + eauto.
Qed.

(** ** Cells and labels *)

Lemma div_nan_l (x : float) : nan / x = nan.
Proof. apply Prim2SF_inj; rewrite div_spec; reflexivity. Qed.

Lemma isna_nan : isna nan = true.
Proof. reflexivity. Qed.

Lemma eq0_nan : eq0 nan = false.
Proof. reflexivity. Qed.

Lemma label_eqb_spec a b : reflect (a = b) (label_eqb a b).
Proof.
  destruct a as [x|x], b as [y|y]; simpl; try (constructor; discriminate).
  - destruct (Z.eqb_spec x y); constructor; congruence.
  - destruct (String.eqb_spec x y); constructor; congruence.
Qed.

Lemma label_eqb_refl a : label_eqb a a = true.
Proof. destruct (label_eqb_spec a a); congruence. Qed.

(** ** Return Transform: log returns *)

Section LogReturns.

Variable np_log : float -> float.

Lemma shift_fill_length fill col :
  length (shift_fill fill col) = length col.
Proof.
  revert fill; induction col as [|x col IH]; simpl; intros; auto.
Qed.

Lemma log_return_column_length col :
  length (log_return_column np_log col) = length col.
Proof.
  unfold log_return_column, shift1.
  rewrite length_map, length_combine, shift_fill_length; lia.
Qed.

Lemma log_return_fill_succ fill col i prev cur :
  nth_error col i = Some prev ->
  nth_error col (S i) = Some cur ->
  nth_error (map (fun pc => np_log (fst pc / snd pc))
                 (combine (shift_fill fill col) col)) (S i)
  = Some (np_log (prev / cur)).
Proof.
  revert fill i; induction col as [|x col IH]; intros fill i Hp Hc.
  - destruct i; discriminate.
  - destruct col as [|x' col]; [destruct i; discriminate|].
    destruct i as [|i].
    + simpl in *. inversion Hp; inversion Hc; subst; reflexivity.
    + change (shift_fill fill (x :: x' :: col))
        with (fill :: shift_fill x (x' :: col)).
      change (nth_error (x :: x' :: col) (S i))
        with (nth_error (x' :: col) i) in Hp.
      change (nth_error (x :: x' :: col) (S (S i)))
        with (nth_error (x' :: col) (S i)) in Hc.
      simpl combine. simpl map. simpl nth_error at 1.
      apply (IH x i Hp Hc).
Qed.

Lemma log_return_column_succ col i prev cur :
  nth_error col i = Some prev ->
  nth_error col (S i) = Some cur ->
  nth_error (log_return_column np_log col) (S i)
  = Some (np_log (prev / cur)).
Proof. apply log_return_fill_succ. Qed.

Lemma log_return_column_first col :
  np_log nan = nan -> col <> [] ->
  nth_error (log_return_column np_log col) 0 = Some nan.
Proof.
  intros Hnan Hne; destruct col as [|x col]; [congruence|].
  unfold log_return_column, shift1; simpl.
  now rewrite div_nan_l, Hnan.
Qed.

Lemma nth_error_tl {A} (l : list A) i :
  nth_error (tl l) i = nth_error l (S i).
Proof. destruct l; simpl; [destruct i|]; reflexivity. Qed.

Lemma length_tl {A} (l : list A) : length (tl l) = pred (length l).
Proof. destruct l; reflexivity. Qed.

Lemma no_date_column (cols : list (string * list float))
      (f : list float -> list float) :
  (forall c, In c cols -> fst c <> "Date"%string) ->
  existsb (String.eqb "Date")
          (map fst (map (fun c => (fst c, f (snd c))) cols)) = false.
Proof.
  intros H; induction cols as [|c cols IH]; [reflexivity|].
  cbn [map existsb fst]; apply orb_false_iff; split.
  - destruct (String.eqb_spec "Date" (fst c)) as [E|E]; [|reflexivity].
    exfalso; apply (H c); [now left | now symmetry].
  - apply IH; intros; apply H; now right.
Qed.

End LogReturns.

(** C1 (as amended): for every price table without a value column called
    Date and every instrument column, [calculate_log_returns] returns a
    column with as many rows as the price column, whose first row is
    missing and whose row [i+1] is [ln(price[i] / price[i+1])] (the
    previous price over the current one); the date column is returned
    whole.  The first row is removed by the next statement of the
    notebook, [df[1:]], after which the column is one row shorter and its
    row [i] is [ln(price[i] / price[i+1])].  For the prices
    [100, 105, 103, 108] at stamps 1-4 the function returns
    [NaN, ln(100/105), ln(105/103), ln(103/108)] at stamps 1-4, and after
    [df[1:]] the three returns stand at stamps 2-4. *)
Theorem calculate_log_returns_rows (np_log : float -> float) :
  np_log nan = nan ->
  (forall df,
      (forall c, In c (value_columns df) -> fst c <> "Date"%string) ->
      exists out,
        calculate_log_returns np_log df = Ok out
        /\ date_column out = date_column df
        /\ date_column (drop_first_row out) = tl (date_column df)
        /\ forall k name col,
            nth_error (value_columns df) k = Some (name, col) ->
            exists r,
              nth_error (value_columns out) k = Some (name, r)
              /\ nth_error (value_columns (drop_first_row out)) k
                 = Some (name, tl r)
              /\ length r = length col
              /\ length (tl r) = pred (length col)
              /\ (col <> [] -> nth_error r 0 = Some nan)
              /\ forall i prev cur,
                  nth_error col i = Some prev ->
                  nth_error col (S i) = Some cur ->
                  nth_error r (S i) = Some (np_log (prev / cur))
                  /\ nth_error (tl r) i = Some (np_log (prev / cur)))
  /\ calculate_log_returns np_log scenario_prices
     = Ok (mkDated [Stamp 1; Stamp 2; Stamp 3; Stamp 4]
             [("Fund"%string,
               [nan; np_log (100 / 105); np_log (105 / 103);
                np_log (103 / 108)])])
  /\ (forall out,
         calculate_log_returns np_log scenario_prices = Ok out ->
         drop_first_row out
         = mkDated [Stamp 2; Stamp 3; Stamp 4]
             [("Fund"%string,
               [np_log (100 / 105); np_log (105 / 103);
                np_log (103 / 108)])]).
Proof.
  intros Hnan.
  assert (Hsc : calculate_log_returns np_log scenario_prices
                = Ok (mkDated [Stamp 1; Stamp 2; Stamp 3; Stamp 4]
                        [("Fund"%string,
                          [nan; np_log (100 / 105); np_log (105 / 103);
                           np_log (103 / 108)])])).
  { unfold calculate_log_returns, scenario_prices, log_return_column, shift1.
    simpl.
    match goal with
    | |- Ok (mkDated _ [(_, ?a :: _)]) = _ => change a with (np_log nan)
    end.
    rewrite Hnan; reflexivity. }
  split; [|split; [exact Hsc|]].
  - intros df Hdate.
    unfold calculate_log_returns; cbv zeta.
    rewrite (no_date_column _ (log_return_column np_log) Hdate).
    eexists; split; [reflexivity|].
    split; [reflexivity|]. split; [reflexivity|].
    intros k name col Hk.
    exists (log_return_column np_log col). simpl.
    split; [now rewrite nth_error_map, Hk|].
    split; [now rewrite !nth_error_map, Hk|].
    split; [apply log_return_column_length|].
    split; [now rewrite length_tl, log_return_column_length|].
    split; [now apply log_return_column_first|].
    intros i prev cur Hp Hc.
    rewrite nth_error_tl.
    split; now apply log_return_column_succ.
  - intros out Hout. rewrite Hsc in Hout.
    inversion Hout; subst; reflexivity.
Qed.

Lemma calculate_log_returns_rows_witness :
  Ref.log nan = nan
  /\ exists out,
      calculate_log_returns Ref.log scenario_prices = Ok out
      /\ date_column out = [Stamp 1; Stamp 2; Stamp 3; Stamp 4]
      /\ date_column (drop_first_row out) = [Stamp 2; Stamp 3; Stamp 4].
Proof.
  split; [reflexivity|].
  destruct (calculate_log_returns_rows Ref.log eq_refl) as [H _].
  destruct (H scenario_prices) as (out & Hout & Hd & Hd' & _).
  - intros c [<-|[]]; discriminate.
  - exists out; repeat split; assumption.
Defined.

(** C1 as stated fails: on the four prices of the scenario the function
    returns four rows, stamp 1 included, the first of them missing. *)
Lemma calculate_log_returns_keeps_first_row :
  exists out r,
    calculate_log_returns Ref.log scenario_prices = Ok out
    /\ date_column out = [Stamp 1; Stamp 2; Stamp 3; Stamp 4]
    /\ value_columns out = [("Fund"%string, r)]
    /\ length r = 4%nat
    /\ nth_error r 0 = Some nan.
Proof.
  eexists; eexists; split; [vm_compute; reflexivity|].
  repeat split.
Qed.

Lemma index_min_spec (i : Z) (rest : list Z) :
  In (index_min i rest) (i :: rest)
  /\ forall j, In j (i :: rest) -> (index_min i rest <= j)%Z.
Proof.
  unfold index_min; revert i; induction rest as [|x rest IH]; intros i; simpl.
  - split; [now left|]. intros j [<-|[]]; lia.
  - destruct (IH (Z.min i x)) as [Hin Hle]; split.
    + destruct Hin as [E|Hin]; [|now right; right].
      rewrite <- E. destruct (Z.min_spec i x) as [[_ ->]|[_ ->]]; auto.
    + intros j [<-|[<-|Hj]].
      * specialize (Hle (Z.min i x) (or_introl eq_refl)); lia.
      * specialize (Hle (Z.min i x) (or_introl eq_refl)); lia.
      * apply Hle; now right.
Qed.

Lemma index_max_spec (i : Z) (rest : list Z) :
  In (index_max i rest) (i :: rest)
  /\ forall j, In j (i :: rest) -> (j <= index_max i rest)%Z.
Proof.
  unfold index_max; revert i; induction rest as [|x rest IH]; intros i; simpl.
  - split; [now left|]. intros j [<-|[]]; lia.
  - destruct (IH (Z.max i x)) as [Hin Hle]; split.
    + destruct Hin as [E|Hin]; [|now right; right].
      rewrite <- E. destruct (Z.max_spec i x) as [[_ ->]|[_ ->]]; auto.
    + intros j [<-|[<-|Hj]].
      * specialize (Hle (Z.max i x) (or_introl eq_refl)); lia.
      * specialize (Hle (Z.max i x) (or_introl eq_refl)); lia.
      * apply Hle; now right.
Qed.

(** C3: [replace_nans_and_zeros_with_mean] takes the mean of the values
    that are neither NaN nor zero.  Without such a value the series comes
    back unchanged.  Otherwise, with [first] and [last] the least and the
    greatest label of a valid value, every row keeps its label, a row
    whose value is NaN or zero and whose label lies in [first, last] gets
    that mean, and every other row keeps its value: in particular no
    value outside [first, last] and no valid value is modified. *)
Theorem replace_nans_and_zeros_with_mean_spec
        (pd_mean : list float -> float) (series : Series) :
  let valid := valid_values series in
  let overall_mean := pd_mean (map snd valid) in
  let repaired := replace_nans_and_zeros_with_mean pd_mean series in
  (forall p, In p valid <-> In p series /\ eq0 (snd p) = false
                            /\ isna (snd p) = false)
  /\ (valid = [] -> repaired = series)
  /\ (valid <> [] ->
      exists first last,
        In first (map fst valid) /\ In last (map fst valid)
        /\ (forall j, In j (map fst valid) -> (first <= j <= last)%Z)
        /\ length repaired = length series
        /\ (forall k i v,
               nth_error series k = Some (i, v) ->
               (eq0 v = true \/ isna v = true) ->
               (first <= i <= last)%Z ->
               nth_error repaired k = Some (i, overall_mean))
        /\ (forall k i v,
               nth_error series k = Some (i, v) ->
               (i < first \/ last < i)%Z ->
               nth_error repaired k = Some (i, v))
        /\ (forall k i v,
               nth_error series k = Some (i, v) ->
               eq0 v = false -> isna v = false ->
               nth_error repaired k = Some (i, v))).
Proof.
  cbv zeta. split; [|split].
  - intros p; unfold valid_values; rewrite filter_In; unfold is_valid.
    rewrite andb_true_iff, !negb_true_iff; tauto.
  - intros Hv; unfold replace_nans_and_zeros_with_mean; now rewrite Hv.
  - intros Hv; unfold replace_nans_and_zeros_with_mean.
    destruct (valid_values series) as [|[i0 v0] rest] eqn:E; [congruence|].
    cbn [map fst].
    destruct (index_min_spec i0 (map fst rest)) as [Hmin_in Hmin].
    destruct (index_max_spec i0 (map fst rest)) as [Hmax_in Hmax].
    exists (index_min i0 (map fst rest)), (index_max i0 (map fst rest)).
    split; [exact Hmin_in|]. split; [exact Hmax_in|].
    split; [intros j Hj; split; auto|].
    split; [apply length_map|].
    split; [|split]; intros k i v Hk.
    + intros Hgap [Hlo Hhi].
      rewrite nth_error_map, Hk; cbn [option_map fst snd].
      assert (is_gap v = true) as ->
          by (unfold is_gap; apply orb_true_iff; exact Hgap).
      assert ((index_min i0 (map fst rest) <=? i)%Z = true) as ->
          by (apply Z.leb_le; exact Hlo).
      assert ((i <=? index_max i0 (map fst rest))%Z = true) as ->
          by (apply Z.leb_le; exact Hhi).
      reflexivity.
    + intros Hout.
      rewrite nth_error_map, Hk; cbn [option_map fst snd].
      destruct Hout as [Hout|Hout].
      * assert ((index_min i0 (map fst rest) <=? i)%Z = false) as ->
            by (apply Z.leb_gt; exact Hout).
        now rewrite andb_false_r.
      * assert ((i <=? index_max i0 (map fst rest))%Z = false) as ->
            by (apply Z.leb_gt; exact Hout).
        now rewrite andb_false_r.
    + intros Hz Hn.
      rewrite nth_error_map, Hk; cbn [option_map fst snd].
      unfold is_gap; now rewrite Hz, Hn.
Qed.

Example repair_interior_gaps :
  replace_nans_and_zeros_with_mean Ref.mean
    [(1%Z, 0); (2%Z, 1); (3%Z, nan); (4%Z, 0); (5%Z, 3); (6%Z, nan)]
  = [(1%Z, 0); (2%Z, 1); (3%Z, 2); (4%Z, 2); (5%Z, 3); (6%Z, nan)].
Proof. reflexivity. Qed.

(** The Return Transform on the scenario: the first row is gone and no
    value needs a repair. *)
Example prepare_returns_scenario :
  prepare_returns Ref.log Ref.mean scenario_prices
  = Ok (mkFrame [Stamp 2; Stamp 3; Stamp 4]
          [("Fund"%string,
            [Ref.log (100 / 105); Ref.log (105 / 103);
             Ref.log (103 / 108)])]).
Proof. vm_compute; reflexivity. Qed.

(** ** Excess Return Aligner *)

Lemma nth_error_combine {A B} (a : list A) (b : list B) i x y :
  nth_error a i = Some x -> nth_error b i = Some y ->
  nth_error (combine a b) i = Some (x, y).
Proof.
  revert b i; induction a as [|a0 a IH]; intros [|b0 b] [|i];
    simpl; try discriminate; intros Ha Hb.
  - congruence.
  - auto.
Qed.

Lemma index_equals_eq a b : index_equals a b = true -> a = b.
Proof.
  revert b; induction a as [|x a IH]; intros [|y b]; simpl;
    try discriminate; auto.
  intros H; apply andb_true_iff in H as [Hxy Hab].
  destruct (label_eqb_spec x y); [|discriminate].
  f_equal; auto.
Qed.

Lemma existsb_label_false t idx :
  existsb (label_eqb t) idx = false -> ~ In t idx.
Proof.
  intros H Hin.
  assert (existsb (label_eqb t) idx = true); [|congruence].
  apply existsb_exists; exists t; split; [assumption|apply label_eqb_refl].
Qed.

Lemma is_unique_NoDup idx : is_unique idx = true -> NoDup idx.
Proof.
  induction idx as [|t idx IH]; simpl; intros H; constructor;
    apply andb_true_iff in H as [Ht Hu].
  - apply existsb_label_false; now apply negb_true_iff.
  - auto.
Qed.

Lemma lookup_cons_other t v idx vals t' :
  t <> t' -> lookup (t :: idx) (v :: vals) t' = lookup idx vals t'.
Proof.
  intros Hne; simpl. destruct (label_eqb_spec t t'); congruence.
Qed.

(** On a duplicate-free index, moving a column onto its own index gives
    the column back. *)
Lemma reindex_values_self idx vals :
  NoDup idx -> length vals = length idx ->
  reindex_values idx vals idx = vals.
Proof.
  unfold reindex_values.
  revert vals; induction idx as [|t idx IH]; intros [|v vals] Hnd Hlen;
    try discriminate; [reflexivity|].
  inversion Hnd as [|? ? Hnotin Hnd']; subst.
  cbn [map]. f_equal.
  - simpl; now rewrite label_eqb_refl.
  - transitivity (map (fun t' => or_nan (lookup idx vals t')) idx).
    + apply map_ext_in; intros t' Hin.
      rewrite lookup_cons_other; [reflexivity|].
      intros ->; contradiction.
    + apply IH; [assumption | simpl in Hlen; lia].
Qed.

Lemma find_column_map name cols (f : list float -> list float) :
  find_column name (map (fun c => (fst c, f (snd c))) cols)
  = option_map f (find_column name cols).
Proof.
  induction cols as [|c cols IH]; [reflexivity|].
  cbn [map find_column fst snd].
  destruct (String.eqb (fst c) name); [reflexivity|exact IH].
Qed.

Lemma find_column_In name cols col :
  find_column name cols = Some col -> In (name, col) cols.
Proof.
  induction cols as [|c cols IH]; [discriminate|].
  cbn [find_column].
  destruct (String.eqb_spec (fst c) name) as [E|E]; intros H.
  - inversion H; subst; left; now destruct c.
  - right; auto.
Qed.

(** The risk-free column after [df_riskfree.reindex(df1.index)]. *)
Lemma aligned_riskfree df_riskfree target rfcol :
  well_formed df_riskfree ->
  is_unique (index df_riskfree) = true ->
  find_column "ln riskfree" (columns df_riskfree) = Some rfcol ->
  exists aligned,
    reindex df_riskfree target = Ok aligned
    /\ get_column aligned "ln riskfree"
       = Ok (reindex_values (index df_riskfree) rfcol target).
Proof.
  intros Hwf Hu Hcol; unfold reindex.
  destruct (index_equals (index df_riskfree) target) eqn:E.
  - exists df_riskfree; split; [reflexivity|].
    unfold get_column; rewrite Hcol.
    apply index_equals_eq in E; subst target.
    rewrite reindex_values_self; [reflexivity| |].
    + now apply is_unique_NoDup.
    + apply (Hwf ("ln riskfree"%string, rfcol)); now apply find_column_In.
  - rewrite Hu. eexists; split; [reflexivity|].
    unfold get_column; cbn [columns].
    rewrite (find_column_map _ _
               (fun col => reindex_values (index df_riskfree) col target)).
    now rewrite Hcol.
Qed.

(** The frames the aligner returns, with the aligned risk-free column
    written out. *)
Lemma excess_returns_run df1 df_riskfree rfcol :
  well_formed df_riskfree ->
  is_unique (index df_riskfree) = true ->
  find_column "ln riskfree" (columns df_riskfree) = Some rfcol ->
  let aligned := reindex_values (index df_riskfree) rfcol (index df1) in
  let before :=
    map_columns (fun col => where_eq0 col (subtract col aligned)) df1 in
  subtract_riskfree df1 df_riskfree = Ok before
  /\ excess_returns df1 df_riskfree
     = Ok (map_columns replace_zero df1, map_columns replace_zero before).
Proof.
  intros Hwf Hu Hcol; cbv zeta.
  destruct (aligned_riskfree df_riskfree (index df1) rfcol Hwf Hu Hcol)
    as (al & Hal & Hget).
  unfold excess_returns, subtract_riskfree.
  rewrite Hal; cbn [Py.bind]; rewrite Hget; cbn [Py.bind].
  split; reflexivity.
Qed.

(** One cell of a return column: after the subtraction, and after the
    zero replacement of the raw and of the excess column. *)
Lemma excess_cell idx rfcol target col i t r :
  nth_error target i = Some t ->
  nth_error col i = Some r ->
  let riskfree_t := or_nan (lookup idx rfcol t) in
  let aligned := if eq0 r then r else r - riskfree_t in
  let before :=
    where_eq0 col (subtract col (reindex_values idx rfcol target)) in
  nth_error before i = Some aligned
  /\ nth_error (replace_zero col) i = Some (if eq0 r then nan else r)
  /\ nth_error (replace_zero before) i
     = Some (if eq0 aligned then nan else aligned).
Proof.
  intros Ht Hr; cbv zeta.
  assert (Hrf : nth_error (reindex_values idx rfcol target) i
                = Some (or_nan (lookup idx rfcol t)))
    by (unfold reindex_values; now rewrite nth_error_map, Ht).
  assert (Hsub : nth_error (subtract col (reindex_values idx rfcol target)) i
                 = Some (r - or_nan (lookup idx rfcol t))).
  { unfold subtract.
    now rewrite nth_error_map, (nth_error_combine _ _ _ _ _ Hr Hrf). }
  assert (Hwh : nth_error
                  (where_eq0 col (subtract col
                                    (reindex_values idx rfcol target))) i
                = Some (if eq0 r then r
                        else r - or_nan (lookup idx rfcol t))).
  { unfold where_eq0.
    now rewrite nth_error_map, (nth_error_combine _ _ _ _ _ Hr Hsub). }
  split; [exact Hwh|]. unfold replace_zero. split.
  - now rewrite nth_error_map, Hr.
  - now rewrite nth_error_map, Hwh.
Qed.

(** X23: the cells of the first return frame, [df1].  The risk-free
    series is moved onto the index of [df1] (a time stamp it lacks gives a
    missing value); a return cell that is exactly zero stays as it is,
    every other cell becomes the return minus the risk-free value at its
    time stamp; then every cell equal to zero, in the raw return frame and
    in the excess frame, is replaced by a missing value. *)
Theorem excess_returns_cells df1 df_riskfree rfcol :
  well_formed df_riskfree ->
  is_unique (index df_riskfree) = true ->
  find_column "ln riskfree" (columns df_riskfree) = Some rfcol ->
  exists before raw excess,
    subtract_riskfree df1 df_riskfree = Ok before
    /\ excess_returns df1 df_riskfree = Ok (raw, excess)
    /\ index before = index df1
    /\ index raw = index df1
    /\ index excess = index df1
    /\ forall k name col,
        nth_error (columns df1) k = Some (name, col) ->
        exists bcol rcol ecol,
          nth_error (columns before) k = Some (name, bcol)
          /\ nth_error (columns raw) k = Some (name, rcol)
          /\ nth_error (columns excess) k = Some (name, ecol)
          /\ forall i t r,
              nth_error (index df1) i = Some t ->
              nth_error col i = Some r ->
              let riskfree_t := or_nan (lookup (index df_riskfree) rfcol t) in
              let aligned := if eq0 r then r else r - riskfree_t in
              nth_error bcol i = Some aligned
              /\ nth_error rcol i = Some (if eq0 r then nan else r)
              /\ nth_error ecol i
                 = Some (if eq0 aligned then nan else aligned).
Proof.
  intros Hwf Hu Hcol.
  destruct (excess_returns_run df1 df_riskfree rfcol Hwf Hu Hcol)
    as [Hbefore Hrun].
  do 3 eexists. split; [exact Hbefore|]. split; [exact Hrun|].
  split; [reflexivity|]. split; [reflexivity|]. split; [reflexivity|].
  intros k name col Hk.
  unfold map_columns; cbn [columns index].
  do 3 eexists.
  rewrite !nth_error_map, Hk; cbn [option_map fst snd].
  split; [reflexivity|]. split; [reflexivity|]. split; [reflexivity|].
  intros i t r Ht Hr.
  exact (excess_cell (index df_riskfree) rfcol (index df1) col i t r Ht Hr).
Qed.

Lemma sample_riskfree_well_formed : well_formed sample_riskfree.
Proof. intros c [<-|[]]; reflexivity. Qed.

Lemma excess_returns_cells_witness :
  well_formed sample_riskfree
  /\ is_unique (index sample_riskfree) = true
  /\ find_column "ln riskfree" (columns sample_riskfree) = Some [0.25; 0.5]
  /\ exists raw excess,
      excess_returns sample_returns sample_riskfree = Ok (raw, excess)
      /\ index raw = index sample_returns
      /\ index excess = index sample_returns.
Proof.
  split; [exact sample_riskfree_well_formed|].
  split; [reflexivity|]. split; [reflexivity|].
  destruct (@excess_returns_cells sample_returns sample_riskfree
              [0.25; 0.5] sample_riskfree_well_formed eq_refl eq_refl)
    as (before & raw & excess & _ & H & _ & Hr & He & _).
  exists raw, excess; auto.
Defined.

(** The sample tables, evaluated: FundA equals the risk-free rate at
    stamp 1 and is zero at stamp 2; the risk-free rate is missing at
    stamp 2. *)
Example excess_returns_sample :
  subtract_riskfree sample_returns sample_riskfree
  = Ok (mkFrame [Stamp 1; Stamp 2; Stamp 3]
          [("FundA"%string, [0; 0; 0.5]);
           ("FundB"%string, [nan; nan; 0.25])])
  /\ excess_returns sample_returns sample_riskfree
     = Ok (mkFrame [Stamp 1; Stamp 2; Stamp 3]
             [("FundA"%string, [0.5; nan; 0.75]);
              ("FundB"%string, [nan; 0.125; 0.5])],
           mkFrame [Stamp 1; Stamp 2; Stamp 3]
             [("FundA"%string, [nan; nan; 0.5]);
              ("FundB"%string, [nan; nan; 0.25])]).
Proof. split; reflexivity. Qed.


Lemma replace_zero_no_zero col x : In x (replace_zero col) -> eq0 x = false.
Proof.
  unfold replace_zero; rewrite in_map_iff; intros (y & <- & _).
  destruct (eq0 y) eqn:E; [apply eq0_nan | exact E].
Qed.

Lemma map_columns_replace_zero_no_zero df c x :
  In c (columns (map_columns replace_zero df)) -> In x (snd c) ->
  eq0 x = false.
Proof.
  unfold map_columns; cbn [columns]; rewrite in_map_iff.
  intros (c0 & <- & _); cbn [snd]; apply replace_zero_no_zero.
Qed.

(** C9: after the alignment stage no cell of the raw return frame or of
    the excess frame equals zero; in particular a cell whose return is
    not zero but whose excess over the risk-free rate is exactly zero is
    missing in the excess frame. *)
Theorem excess_returns_no_zero_cell df1 df_riskfree raw excess :
  excess_returns df1 df_riskfree = Ok (raw, excess) ->
  (forall c x, In c (columns raw) -> In x (snd c) -> eq0 x = false)
  /\ (forall c x, In c (columns excess) -> In x (snd c) -> eq0 x = false)
  /\ (forall rfcol,
         well_formed df_riskfree ->
         is_unique (index df_riskfree) = true ->
         find_column "ln riskfree" (columns df_riskfree) = Some rfcol ->
         forall k name col i t r,
           nth_error (columns df1) k = Some (name, col) ->
           nth_error (index df1) i = Some t ->
           nth_error col i = Some r ->
           eq0 r = false ->
           eq0 (r - or_nan (lookup (index df_riskfree) rfcol t)) = true ->
           exists ecol,
             nth_error (columns excess) k = Some (name, ecol)
             /\ nth_error ecol i = Some nan).
Proof.
  intros H. split; [|split].
  - unfold excess_returns in H.
    apply bind_ok in H as (before & _ & H); inversion H; subst.
    apply map_columns_replace_zero_no_zero.
  - unfold excess_returns in H.
    apply bind_ok in H as (before & _ & H); inversion H; subst.
    apply map_columns_replace_zero_no_zero.
  - intros rfcol Hwf Hu Hcol k name col i t r Hk Ht Hr Hnz Hz.
    destruct (excess_returns_run df1 df_riskfree rfcol Hwf Hu Hcol)
      as [_ H'].
    rewrite H in H'; inversion H'; subst raw excess.
    unfold map_columns; cbn [columns index].
    exists (replace_zero
              (where_eq0 col
                 (subtract col (reindex_values (index df_riskfree) rfcol
                                               (index df1))))).
    split; [now rewrite !nth_error_map, Hk|].
    destruct (excess_cell (index df_riskfree) rfcol (index df1) col i t r
                          Ht Hr) as (_ & _ & Hcell).
    cbv zeta in Hcell. now rewrite Hnz, Hz in Hcell.
Qed.

Lemma excess_returns_no_zero_cell_witness :
  excess_returns sample_returns sample_riskfree
  = Ok (mkFrame [Stamp 1; Stamp 2; Stamp 3]
          [("FundA"%string, [0.5; nan; 0.75]);
           ("FundB"%string, [nan; 0.125; 0.5])],
        mkFrame [Stamp 1; Stamp 2; Stamp 3]
          [("FundA"%string, [nan; nan; 0.5]);
           ("FundB"%string, [nan; nan; 0.25])])
  /\ eq0 (0.5 - or_nan (lookup (index sample_riskfree) [0.25; 0.5] (Stamp 1)))
     = true
  /\ exists ecol,
      nth_error [("FundA"%string, [nan; nan; 0.5]);
                 ("FundB"%string, [nan; nan; 0.25])] 0
      = Some ("FundA"%string, ecol)
      /\ nth_error ecol 0 = Some nan.
Proof.
  split; [reflexivity|]. split; [reflexivity|].
  destruct (@excess_returns_no_zero_cell sample_returns sample_riskfree
              _ _ eq_refl) as (_ & _ & H).
  exact (H [0.25; 0.5] sample_riskfree_well_formed eq_refl eq_refl
           0%nat "FundA"%string [0.5; 0; 0.75] 0%nat (Stamp 1) 0.5
           eq_refl eq_refl eq_refl eq_refl eq_refl).
Defined.

(** ** Row selection and reindexing *)

Section Selection.

Context {A : Type}.

Lemma select_cons (b : bool) (m : list bool) (x : A) (l : list A) :
  select (b :: m) (x :: l) = if b then x :: select m l else select m l.
Proof. unfold select; simpl; destruct b; reflexivity. Qed.

Lemma select_nil_r (m : list bool) : select m (@nil A) = [].
Proof. unfold select; destruct m; reflexivity. Qed.

Lemma select_all_false (m : list bool) (l : list A) :
  (forall b, In b m -> b = false) -> select m l = [].
Proof.
  revert l; induction m as [|b m IH]; intros [|x l] H; try reflexivity.
  rewrite select_cons, (H b) by now left.
  apply IH; intros; apply H; now right.
Qed.

Lemma select_split (m : list bool) (a b : list A) :
  select m (a ++ b)
  = select (firstn (length a) m) a ++ select (skipn (length a) m) b.
Proof.
  revert m; induction a as [|x a IH]; intros m.
  - reflexivity.
  - destruct m as [|c m]; [reflexivity|].
    cbn [app length firstn skipn]; rewrite !select_cons, IH.
    destruct c; reflexivity.
Qed.

(** A selection is always a selection by a mask of the full length. *)
Lemma select_fit (m : list bool) (l : list A) :
  exists m', length m' = length l /\ select m l = select m' l.
Proof.
  revert m; induction l as [|x l IH]; intros m.
  - exists []; split; [reflexivity|apply select_nil_r].
  - destruct m as [|b m].
    + exists (repeat false (S (length l))); split; [apply repeat_length|].
      symmetry; apply select_all_false.
      intros b Hb; now apply repeat_spec in Hb.
    + destruct (IH m) as (m' & Hlen & Hm').
      exists (b :: m'); split; [simpl; now rewrite Hlen|].
      now rewrite !select_cons, Hm'.
Qed.

Lemma In_select (m : list bool) (l : list A) x :
  In x (select m l) -> In x l.
Proof.
  revert m; induction l as [|y l IH]; intros [|b m]; try (now intros []).
  rewrite select_cons; destruct b; simpl; intros H; [destruct H|]; eauto.
Qed.

Lemma NoDup_select (m : list bool) (l : list A) :
  NoDup l -> NoDup (select m l).
Proof.
  revert m; induction l as [|y l IH]; intros [|b m] H; try constructor.
  inversion H; subst; rewrite select_cons; destruct b; auto.
  constructor; auto. intros Hin; apply In_select in Hin; contradiction.
Qed.

End Selection.

Lemma select_length {A B : Type} (m : list bool) (l : list A) (l' : list B) :
  length l = length l' -> length (select m l) = length (select m l').
Proof.
  revert m l'; induction l as [|y l IH]; intros [|b m] [|y' l'] H;
    try discriminate; try reflexivity.
  simpl in H; injection H as H.
  rewrite !select_cons; destruct b; simpl; auto.
Qed.

Lemma lookup_None idx vals t : ~ In t idx -> lookup idx vals t = None.
Proof.
  revert vals; induction idx as [|i idx IH]; intros [|v vals] H;
    try reflexivity.
  simpl; destruct (label_eqb_spec i t) as [E|E].
  - exfalso; apply H; now left.
  - apply IH; intros Hin; apply H; now right.
Qed.

Lemma NoDup_is_unique idx : NoDup idx -> is_unique idx = true.
Proof.
  induction 1 as [|t idx Hnotin _ IH]; [reflexivity|].
  simpl; rewrite IH, andb_true_r; apply negb_true_iff.
  destruct (existsb (label_eqb t) idx) eqn:E; [|reflexivity].
  apply existsb_exists in E as (t' & Hin & Heq).
  destruct (label_eqb_spec t t'); [subst; contradiction|discriminate].
Qed.

Lemma reindex_values_cons_fresh t v idx vals target :
  ~ In t target ->
  reindex_values (t :: idx) (v :: vals) target
  = reindex_values idx vals target.
Proof.
  intros H; unfold reindex_values; apply map_ext_in; intros t' Hin.
  rewrite lookup_cons_other; [reflexivity|]. intros ->; contradiction.
Qed.

(** Reindexing the values of selected rows onto the full index and
    dropping the missing rows gives the selected rows back. *)
Lemma reindex_select_round_trip idx (m : list bool) vals :
  NoDup idx -> length m = length idx ->
  length vals = length (select m idx) ->
  (forall v, In v vals -> isna v = false) ->
  dropna_series idx (reindex_values (select m idx) vals idx)
  = combine (select m idx) vals.
Proof.
  unfold dropna_series.
  revert m vals; induction idx as [|t idx IH]; intros [|b m] vals Hnd Hm Hv Hna;
    try discriminate; [reflexivity|].
  inversion Hnd as [|? ? Hnotin Hnd']; subst.
  rewrite select_cons in *; destruct b.
  - destruct vals as [|v vals]; [discriminate|].
    change (reindex_values (t :: select m idx) (v :: vals) (t :: idx))
      with (or_nan (lookup (t :: select m idx) (v :: vals) t)
            :: reindex_values (t :: select m idx) (v :: vals) idx).
    rewrite reindex_values_cons_fresh by assumption.
    simpl lookup; rewrite label_eqb_refl; cbn [or_nan combine filter snd].
    rewrite (Hna v) by now left. cbn [negb].
    f_equal; apply IH; auto.
    intros; apply Hna; now right.
  - change (reindex_values (select m idx) vals (t :: idx))
      with (or_nan (lookup (select m idx) vals t)
            :: reindex_values (select m idx) vals idx).
    rewrite lookup_None
      by (intros Hin; apply In_select in Hin; contradiction).
    cbn [or_nan combine filter snd]. rewrite isna_nan; cbn [negb].
    apply IH; auto.
Qed.

(** The cell the reindexed series holds at each label of the full
    index: missing for a label outside the selection. *)
Lemma reindex_values_cell idx vals target k t :
  nth_error target k = Some t ->
  nth_error (reindex_values idx vals target) k
  = Some (or_nan (lookup idx vals t)).
Proof.
  intros H; unfold reindex_values; now rewrite nth_error_map, H.
Qed.

Lemma reindex_series_rows rows idx vals out :
  NoDup rows -> length vals = length rows ->
  reindex_series rows vals idx = Ok out ->
  out = reindex_values rows vals idx.
Proof.
  intros Hnd Hlen; unfold reindex_series.
  destruct (index_equals rows idx) eqn:E.
  - apply index_equals_eq in E. intros H; inversion H; subst out.
    rewrite <- E. symmetry; now apply reindex_values_self.
  - rewrite (NoDup_is_unique _ Hnd).
    intros H; now inversion H.
Qed.


(** ** Regression Engine: the rows of the estimation *)

Lemma nth_error_combine_inv {A B} (a : list A) (b : list B) k x y :
  nth_error (combine a b) k = Some (x, y) ->
  nth_error a k = Some x /\ nth_error b k = Some y.
Proof.
  revert b k; induction a as [|a0 a IH]; intros [|b0 b] [|k]; simpl;
    try discriminate.
  - intros H; inversion H; auto.
  - apply IH.
Qed.

Lemma and_masks_true m1 m2 k :
  nth_error (and_masks m1 m2) k = Some true -> nth_error m1 k = Some true.
Proof.
  unfold and_masks; rewrite nth_error_map.
  destruct (nth_error (combine m1 m2) k) as [[b1 b2]|] eqn:E; [|discriminate].
  apply nth_error_combine_inv in E as [H1 _].
  cbn [option_map fst snd]; intros H; injection H as H'.
  apply andb_true_iff in H' as [Hb _]; now rewrite Hb in H1.
Qed.

Lemma fold_and_masks_true ms m0 k :
  nth_error (fold_left and_masks ms m0) k = Some true ->
  nth_error m0 k = Some true.
Proof.
  revert m0; induction ms as [|m ms IH]; intros m0 H; [exact H|].
  simpl in H; apply IH in H; now apply and_masks_true in H.
Qed.

Lemma lookup_Some_In idx vals t v : lookup idx vals t = Some v -> In t idx.
Proof.
  revert vals; induction idx as [|i idx IH]; intros [|x vals] H;
    try discriminate; cbn in H.
  destruct (label_eqb_spec i t) as [->|_]; [now left|right; eauto].
Qed.

Lemma and_masks_map {A : Type} (g h : A -> bool) (l : list A) :
  and_masks (map g l) (map h l) = map (fun t => g t && h t) l.
Proof.
  unfold and_masks; induction l as [|a l IH]; cbn; [reflexivity|].
  now rewrite IH.
Qed.

Lemma fold_and_masks_map {A C : Type} (h : C -> A -> bool) (cs : list C)
      (g : A -> bool) (l : list A) :
  fold_left and_masks (map (fun c => map (h c) l) cs) (map g l)
  = map (fun t => g t && forallb (fun c => h c t) cs) l.
Proof.
  revert g; induction cs as [|c cs IH]; intros g; cbn [map fold_left forallb].
  - apply map_ext; intros; now rewrite andb_true_r.
  - rewrite and_masks_map, IH. apply map_ext; intros; now rewrite andb_assoc.
Qed.

Lemma select_map {A B : Type} (p : A -> bool) (f : A -> B) (l : list A) :
  select (map p l) (map f l) = map f (filter p l).
Proof.
  induction l as [|a l IH]; [reflexivity|].
  cbn [map filter]; rewrite select_cons, IH; now destruct (p a).
Qed.

Lemma filter_none {A : Type} (p : A -> bool) (l : list A) :
  (forall x, In x l -> p x = false) -> filter p l = [].
Proof.
  induction l as [|a l IH]; intros H; [reflexivity|]; cbn.
  rewrite (H a) by now left. apply IH; intros; apply H; now right.
Qed.

Lemma StronglySorted_filter {A : Type} (R : A -> A -> Prop) (p : A -> bool)
      (l : list A) :
  StronglySorted R l -> StronglySorted R (filter p l).
Proof.
  induction 1 as [|a l Hs IH Hall]; cbn; [constructor|].
  destruct (p a); [|exact IH]. constructor; [exact IH|].
  rewrite Forall_forall in *; intros x Hx; apply filter_In in Hx as [Hx _];
    auto.
Qed.

(** The rows [dropna] keeps when the value column and the regressors are
    given by label. *)
Lemma dropna_rows (joined : list label) (fy : label -> float)
      (cols : list (string * list float))
      (fc : string * list float -> label -> float) :
  let y' := map fy joined in
  let X' := map (fun c => (fst c, map (fc c) joined)) cols in
  let mask := fold_left and_masks (map (fun c => notna_mask (snd c)) X')
                        (notna_mask y') in
  let keep := fun t => negb (isna (fy t))
                       && forallb (fun c => negb (isna (fc c t))) cols in
  select mask joined = filter keep joined
  /\ select mask y' = map fy (filter keep joined)
  /\ map (fun c => (fst c, select mask (snd c))) X'
     = map (fun c => (fst c, map (fc c) (filter keep joined))) cols.
Proof.
  intros y' X' mask keep.
  assert (Hmask : mask = map keep joined).
  { unfold mask, X', y', notna_mask. rewrite !map_map; cbn [snd].
    rewrite (map_ext (fun c : string * list float =>
                        map (fun v => negb (isna v)) (map (fc c) joined))
                     (fun c => map (fun t => negb (isna (fc c t))) joined))
      by (intros; apply map_map).
    apply (fold_and_masks_map (fun c t => negb (isna (fc c t)))). }
  rewrite Hmask. split; [|split].
  - rewrite <- (map_id joined) at 2; rewrite select_map; apply map_id.
  - apply select_map.
  - unfold X'; rewrite map_map; cbn [fst snd].
    apply map_ext; intros c; now rewrite select_map.
Qed.

(** *** The union of two indexes *)

Lemma insert_label_perm t idx : Permutation (t :: idx) (insert_label t idx).
Proof.
  induction idx as [|u idx IH]; cbn; [reflexivity|].
  destruct (stamp_leb t u); [reflexivity|].
  apply perm_trans with (u :: t :: idx); [apply perm_swap|].
  now apply perm_skip.
Qed.

Lemma sort_values_perm idx : Permutation idx (sort_values idx).
Proof.
  induction idx as [|t idx IH]; [reflexivity|].
  cbn [sort_values fold_right].
  apply perm_trans with (t :: sort_values idx);
    [now apply perm_skip|apply insert_label_perm].
Qed.

Lemma is_datetime_index_stamp idx t :
  is_datetime_index idx = true -> In t idx -> exists z, t = Stamp z.
Proof.
  unfold is_datetime_index; rewrite forallb_forall; intros H Hin.
  specialize (H t Hin); destruct t; [eauto|discriminate].
Qed.

Lemma insert_label_sorted t idx :
  is_datetime_index (t :: idx) = true ->
  StronglySorted (fun a b => stamp_leb a b = true) idx ->
  StronglySorted (fun a b => stamp_leb a b = true) (insert_label t idx).
Proof.
  intros Hdt Hs; induction Hs as [|u idx Hs IH Hall]; cbn.
  - constructor; constructor.
  - assert (Ht : exists z, t = Stamp z)
      by (apply (is_datetime_index_stamp _ _ Hdt); now left).
    assert (Hu : exists z, u = Stamp z)
      by (apply (is_datetime_index_stamp _ _ Hdt); right; now left).
    destruct Ht as (zt & ->), Hu as (zu & ->).
    destruct (stamp_leb (Stamp zt) (Stamp zu)) eqn:E.
    + constructor; [now constructor|].
      constructor; [exact E|].
      rewrite Forall_forall in *; intros w Hw.
      assert (Hw' : exists z, w = Stamp z)
        by (apply (is_datetime_index_stamp _ _ Hdt); right; now right).
      destruct Hw' as (zw & ->). specialize (Hall _ Hw).
      cbn in *; apply Z.leb_le in E, Hall; apply Z.leb_le; lia.
    + constructor.
      * apply IH. unfold is_datetime_index in *; cbn in *; exact Hdt.
      * rewrite Forall_forall in *; intros w Hw.
        apply (Permutation_in _ (Permutation_sym (insert_label_perm _ _)))
          in Hw.
        destruct Hw as [<-|Hw]; [|now apply Hall].
        cbn in *; apply Z.leb_gt in E; apply Z.leb_le; lia.
Qed.

Lemma sort_values_sorted idx :
  is_datetime_index idx = true ->
  StronglySorted (fun a b => stamp_leb a b = true) (sort_values idx).
Proof.
  induction idx as [|t idx IH]; intros Hdt; [constructor|].
  cbn [sort_values fold_right].
  assert (Hdt' : is_datetime_index idx = true)
    by (unfold is_datetime_index in *; cbn in Hdt;
        now apply andb_prop in Hdt as [_ Hdt]).
  apply insert_label_sorted; [|now apply IH].
  unfold is_datetime_index in *; cbn [forallb] in *.
  apply andb_prop in Hdt as [Ht _]; rewrite Ht; cbn [andb].
  rewrite forallb_forall in *; intros w Hw; apply Hdt'.
  exact (Permutation_in _ (Permutation_sym (sort_values_perm idx)) Hw).
Qed.

Lemma union_index_perm yidx xidx :
  Permutation
    (yidx ++ filter (fun t => negb (existsb (label_eqb t) yidx)) xidx)
    (union_index yidx xidx).
Proof.
  unfold union_index; destruct yidx as [|y0 yidx]; [reflexivity|].
  destruct xidx as [|x0 xidx]; [reflexivity|].
  destruct (is_datetime_index (y0 :: yidx) && is_datetime_index (x0 :: xidx));
    [apply sort_values_perm|reflexivity].
Qed.

Lemma union_index_NoDup yidx xidx :
  NoDup yidx -> NoDup xidx -> NoDup (union_index yidx xidx).
Proof.
  intros Hy Hx; apply (Permutation_NoDup (union_index_perm yidx xidx)).
  apply NoDup_app; [exact Hy|now apply NoDup_filter|].
  intros t Hin Hf; apply filter_In in Hf as [_ Hf].
  apply negb_true_iff, existsb_label_false in Hf; contradiction.
Qed.

Lemma concat_index_with_inv duplicates yidx xidx joined :
  concat_index_with duplicates yidx xidx = Ok joined ->
  (index_equals yidx xidx = true /\ joined = yidx)
  \/ (index_equals yidx xidx = false
      /\ is_unique yidx = true /\ is_unique xidx = true
      /\ joined = union_index yidx xidx).
Proof.
  unfold concat_index_with.
  destruct (index_equals yidx xidx); [intros H; inversion H; auto|].
  destruct (is_unique yidx), (is_unique xidx); cbn; intros H;
    inversion H; auto.
Qed.

(** The exception apart, two series are joined as a series and a
    frame. *)
Lemma concat_dropna_with_ok duplicates yidx y X data :
  concat_dropna_with duplicates yidx y X = Ok data
  <-> concat_dropna yidx y X = Ok data.
Proof.
  unfold concat_dropna, concat_dropna_with, concat_index_with.
  destruct (index_equals yidx (index X)); [reflexivity|].
  destruct (is_unique yidx && is_unique (index X)); [reflexivity|].
  cbn; split; discriminate.
Qed.

(** The rows [concat(...).dropna()] keeps are rows of [y]; each comes
    with a value of [y], and none comes twice when no label of [y]
    does. *)
Lemma concat_dropna_rows yidx y X data :
  length y = length yidx ->
  concat_dropna yidx y X = Ok data ->
  length (y_clean data) = length (data_index data)
  /\ incl (data_index data) yidx
  /\ (NoDup yidx -> NoDup (data_index data)).
Proof.
  intros Hlen; unfold concat_dropna, concat_dropna_with; intros H.
  apply bind_ok in H as (joined & Hj & H).
  apply concat_index_with_inv in Hj
    as [[Heq ->]|(Heq & Hy & Hx & ->)]; rewrite Heq in H; cbv zeta in H;
    inversion H; subst data; clear H; cbn [data_index y_clean].
  - split; [symmetry; apply select_length; now symmetry|].
    split; [intros t Ht; exact (In_select _ _ _ Ht)|].
    intros Hnd; now apply NoDup_select.
  - set (joined := union_index yidx (index X)).
    destruct (dropna_rows joined (fun t => or_nan (lookup yidx y t))
                (columns X)
                (fun c t => or_nan (lookup (index X) (snd c) t)))
      as (Hidx & Hyc & _).
    cbv zeta in Hidx, Hyc. unfold reindex_values.
    rewrite Hidx, Hyc, length_map.
    split; [reflexivity|]. split.
    + intros t Ht; apply filter_In in Ht as [_ Ht].
      apply andb_prop in Ht as [Ht _].
      destruct (lookup yidx y t) as [v|] eqn:Hl.
      * exact (lookup_Some_In _ _ _ _ Hl).
      * cbn [or_nan] in Ht; rewrite isna_nan in Ht; discriminate.
    + intros _; apply NoDup_filter, union_index_NoDup;
        now apply is_unique_NoDup.
Qed.

Lemma lookup_nth idx vals t j v :
  NoDup idx -> nth_error idx j = Some t -> nth_error vals j = Some v ->
  lookup idx vals t = Some v.
Proof.
  revert vals j; induction idx as [|i idx IH]; intros [|v0 vals] [|j] Hnd Hi Hv;
    try discriminate; inversion Hnd; subst; simpl in *.
  - inversion Hi; subst; now rewrite label_eqb_refl.
  - destruct (label_eqb_spec i t) as [->|_]; [|eauto].
    apply nth_error_In in Hi; contradiction.
Qed.

Lemma In_combine_map {A B : Type} (f : A -> B) (l : list A) t v :
  In (t, v) (combine l (map f l)) <-> In t l /\ v = f t.
Proof.
  induction l as [|a l IH]; cbn; [tauto|].
  rewrite IH; split.
  - intros [H|[H1 H2]]; [inversion H; auto|auto].
  - intros [[->|H1] ->]; auto.
Qed.

Lemma lookup_Some_nth idx vals t v :
  lookup idx vals t = Some v ->
  exists j, nth_error idx j = Some t /\ nth_error vals j = Some v.
Proof.
  revert vals; induction idx as [|i idx IH]; intros [|x vals] H;
    try discriminate; cbn in H.
  destruct (label_eqb_spec i t) as [->|_].
  - inversion H; subst; exists 0%nat; auto.
  - destruct (IH _ H) as (j & H1 & H2); exists (S j); auto.
Qed.

Lemma NoDup_combine {A B : Type} (a : list A) (b : list B) :
  NoDup a -> NoDup (combine a b).
Proof.
  intros H; revert b; induction H as [|x a Hnotin _ IH]; intros [|y b];
    cbn; try constructor; [|apply IH].
  intros Hin; apply in_combine_l in Hin; contradiction.
Qed.

(** Values known on the duplicate-free rows [rows], put on the index
    [idx] that has these rows, and the missing rows dropped: the rows
    again, when no value is missing. *)
Lemma round_trip_rows idx rows values :
  NoDup idx -> NoDup rows -> incl rows idx ->
  length values = length rows ->
  (forall v, In v values -> isna v = false) ->
  Permutation (dropna_series idx (reindex_values rows values idx))
              (combine rows values).
Proof.
  intros Hidx Hrows Hincl Hlen Hna.
  apply NoDup_Permutation.
  - unfold dropna_series; apply NoDup_filter; now apply NoDup_combine.
  - now apply NoDup_combine.
  - intros [t v]; unfold dropna_series, reindex_values.
    rewrite filter_In, In_combine_map; cbn [snd]; split.
    + intros [[Ht ->] Hv].
      destruct (lookup rows values t) as [v|] eqn:Hl;
        [|cbn [or_nan] in Hv; rewrite isna_nan in Hv; discriminate].
      destruct (lookup_Some_nth _ _ _ _ Hl) as (j & H1 & H2).
      exact (nth_error_In _ _ (nth_error_combine _ _ _ _ _ H1 H2)).
    + intros Hin; destruct (In_nth_error _ _ Hin) as (j & Hj).
      apply nth_error_combine_inv in Hj as [H1 H2].
      rewrite (lookup_nth _ _ _ _ _ Hrows H1 H2); cbn [or_nan].
      split; [split; [apply Hincl; exact (nth_error_In _ _ H1)|reflexivity]|].
      rewrite (Hna v (nth_error_In _ _ H2)); reflexivity.
Qed.

Lemma re_expanded_reindex idx rows values series :
  NoDup idx -> NoDup rows -> incl rows idx ->
  length values = length rows ->
  reindex_series rows values idx = Ok series ->
  re_expanded idx rows values series.
Proof.
  intros Hnd Hrows Hincl Hlen Hre.
  apply reindex_series_rows in Hre; [subst series|assumption..].
  repeat split.
  - unfold reindex_values; apply length_map.
  - intros k t j v Hk Hj Hv.
    rewrite (@reindex_values_cell rows values _ _ _ Hk).
    now rewrite (lookup_nth _ _ _ _ _ Hrows Hj Hv).
  - intros k t Hk Hout.
    rewrite (@reindex_values_cell rows values _ _ _ Hk).
    now rewrite (@lookup_None _ values _ Hout).
  - intros Hna; now apply round_trip_rows.
Qed.

Ltac bind_inv H :=
  repeat (apply bind_ok in H;
          let a := fresh "a" in
          let Ha := fresh "Ha" in
          destruct H as (a & Ha & H)).

Lemma get_column_inv df name col :
  get_column df name = Ok col -> find_column name (columns df) = Some col.
Proof.
  unfold get_column; destruct (find_column name (columns df));
    intros H; now inversion H.
Qed.

Lemma item_inv {A} what (l : list A) i a :
  item what l i = Ok a -> nth_error l i = Some a.
Proof.
  unfold item; destruct (nth_error l i); intros H; now inversion H.
Qed.


Lemma fama_column_inv lib T X column f :
  fama_column lib T X column = Ok f ->
  exists data r,
    estimation_of lib T X column data r
    /\ fit_index f = data_index data
    /\ reindex_series (data_index data) (resid r) (index T)
       = Ok (fit_residuals f)
    /\ reindex_series (data_index data) (fittedvalues r) (index T)
       = Ok (fit_fitted_values f)
    /\ nth_error (params r) 0 = Some (fama_alpha (fit_row f))
    /\ length (fama_betas (fit_row f)) = length (columns X)
    /\ fama_rsquared (fit_row f) = rsquared r.
Proof.
  unfold fama_column; intros H.
  apply bind_ok in H as (data & Hdata & H).
  apply bind_ok in H as (r & Hr & H).
  apply bind_ok in H as (alpha & Halpha & H).
  apply bind_ok in H as (p_alpha & Hp & H).
  apply bind_ok in H as (ci_alpha & Hci & H).
  apply bind_ok in H as (betas & Hbetas & H).
  bind_inv H. inversion H; subst f.
  cbn [fit_index fit_residuals fit_fitted_values fit_row
       fama_alpha fama_betas fama_rsquared].
  exists data, r. split; [split; assumption|].
  apply item_inv in Halpha.
  apply mapM_length in Hbetas.
  rewrite length_combine, length_seq, length_map, Nat.min_id in Hbetas.
  repeat split; auto.
Qed.

(** The frames a regression function returns hold, column by column,
    what the passes of its loop produced. *)
Lemma collect_columns {Row : Type} (T : DataFrame)
      (body : string * list float -> result (Fitted Row))
      (fits : list (string * Fitted Row)) :
  mapM (fun column => f <- body column ;; Ok (fst column, f)) (columns T)
  = Ok fits ->
  forall k column,
    nth_error (columns T) k = Some column ->
    exists f,
      body column = Ok f
      /\ nth_error (map (fun f => fit_row (snd f)) fits) k = Some (fit_row f)
      /\ nth_error (map (fun f => (fst f, fit_residuals (snd f))) fits) k
         = Some (fst column, fit_residuals f)
      /\ nth_error (map (fun f => (fst f, fit_fitted_values (snd f))) fits) k
         = Some (fst column, fit_fitted_values f).
Proof.
  intros H k column Hk.
  destruct (mapM_nth _ _ _ H _ _ Hk) as (b & Hb & Hbody).
  apply bind_ok in Hbody as (f & Hf & Hbody); inversion Hbody; subst b.
  exists f; rewrite !nth_error_map, Hb; auto.
Qed.

(** What both regression functions do with the residuals and the fitted
    values of every column. *)
Lemma fitted_re_expanded lib T X column data r res fit :
  is_unique (index T) = true ->
  length (snd column) = length (index T) ->
  estimation_of lib T X column data r ->
  reindex_series (data_index data) (resid r) (index T) = Ok res ->
  reindex_series (data_index data) (fittedvalues r) (index T) = Ok fit ->
  (length (resid r) = length (y_clean data) ->
   re_expanded (index T) (data_index data) (resid r) res)
  /\ (length (fittedvalues r) = length (y_clean data) ->
      re_expanded (index T) (data_index data) (fittedvalues r) fit).
Proof.
  intros Hu Hlen [Hdata _] Hres Hfit.
  apply is_unique_NoDup in Hu.
  destruct (concat_dropna_rows _ _ _ _ Hlen Hdata) as (Hy & Hincl & Hnd).
  rewrite Hy in *.
  split; intros Hl; apply re_expanded_reindex; auto.
Qed.


Lemma sample_excess_well_formed : well_formed sample_excess.
Proof. intros c [<-|[<-|[]]]; reflexivity. Qed.



(** ** Regression Engine: failures *)

Lemma bind_raise {A B} (m : result A) (k : A -> result B) e :
  Py.bind m k = Raise e ->
  m = Raise e \/ exists a, m = Ok a /\ k a = Raise e.
Proof.
  destruct m as [a|e']; simpl; intros H; [right; eauto|left].
  now inversion H.
Qed.

Lemma mapM_raise {A B} (f : A -> result B) l e :
  mapM f l = Raise e -> exists a, In a l /\ f a = Raise e.
Proof.
  induction l as [|a l IH]; simpl; [discriminate|]; intros H.
  destruct (f a) as [b|e'] eqn:Hfa; simpl in H.
  - destruct (mapM f l) as [bs|e'']; simpl in H; [discriminate|].
    destruct (IH H) as (a' & Hin & Ha'); eauto.
  - inversion H; subst; eauto.
Qed.

Lemma mapM_ok_exists {A B} (f : A -> result B) l :
  (forall a, In a l -> exists b, f a = Ok b) -> exists bs, mapM f l = Ok bs.
Proof.
  induction l as [|a l IH]; simpl; intros H; [eauto|].
  destruct (H a (or_introl eq_refl)) as (b & ->); simpl.
  destruct IH as (bs & ->); [intros; apply H; now right|]; simpl; eauto.
Qed.


Lemma item_raise {A} what (l : list A) i e :
  item what l i = Raise e -> exn_cls e = IndexError.
Proof.
  unfold item; destruct (nth_error l i); intros H; now inversion H.
Qed.







(** A repeated date in returns that are not on the index of the
    regressors stops the join: [regression_capm] joins two series and
    fails with [ValueError], [regression_fama] joins a series and a frame
    and fails with [InvalidIndexError]. *)
Example duplicate_labels_stop_the_join :
  (exists e,
      regression_capm Ref.lib repeated_dates trend_regressor [] = Raise e
      /\ exn_cls e = ValueError)
  /\ (exists e,
         regression_fama Ref.lib repeated_dates trend_regressor [] = Raise e
         /\ exn_cls e = InvalidIndexError).
Proof. split; eexists; split; reflexivity. Qed.

(** ** Diagnostic Test Suite: sorting and label lookup *)

Lemma label_leb_total a b : label_leb a b = true \/ label_leb b a = true.
Proof.
  destruct a as [x|x], b as [y|y]; simpl; auto.
  - destruct (Z.leb_spec x y); [now left|right]. apply Z.leb_le; lia.
  - apply String.leb_total.
Qed.

Section SortIndex.

Context {A : Type}.

Lemma insert_row_perm (r : label * A) rows :
  Permutation (r :: rows) (insert_row r rows).
Proof.
  induction rows as [|r' rows IH]; simpl; [reflexivity|].
  destruct (label_leb (fst r) (fst r')); [reflexivity|].
  rewrite perm_swap; now constructor.
Qed.

Lemma insert_row_hd (a r : label * A) rows :
  HdRel rows_le a rows -> rows_le a r -> HdRel rows_le a (insert_row r rows).
Proof.
  intros Hhd Har; destruct rows as [|r' rows]; simpl; [now constructor|].
  destruct (label_leb (fst r) (fst r')); constructor; auto.
  now inversion Hhd.
Qed.

Lemma insert_row_sorted (r : label * A) rows :
  Sorted rows_le rows -> Sorted rows_le (insert_row r rows).
Proof.
  induction 1 as [|r' rows Hs IH Hhd]; simpl; [repeat constructor|].
  destruct (label_leb (fst r) (fst r')) eqn:E.
  - constructor; [now constructor|now constructor].
  - constructor; [exact IH|].
    apply insert_row_hd; [exact Hhd|].
    unfold rows_le; destruct (label_leb_total (fst r) (fst r')); congruence.
Qed.

Lemma sorted_rows_sorted (rows : list (label * A)) :
  Sorted rows_le (sorted_rows rows).
Proof.
  induction rows as [|r rows IH]; simpl; [constructor|].
  now apply insert_row_sorted.
Qed.

Lemma sorted_rows_perm (rows : list (label * A)) :
  Permutation rows (sorted_rows rows).
Proof.
  induction rows as [|r rows IH]; simpl; [reflexivity|].
  rewrite <- insert_row_perm; now constructor.
Qed.

Lemma sort_index_inv (rows out : list (label * A)) :
  sort_index rows = Ok out ->
  out = sorted_rows rows /\ comparable (map fst rows) = true.
Proof.
  unfold sort_index; destruct (comparable (map fst rows));
    intros H; inversion H; auto.
Qed.

Lemma loc_raise (rows : list (label * A)) wanted e :
  loc rows wanted = Raise e ->
  exn_cls e = KeyError
  /\ exists t, In t wanted /\ forall r, In r rows -> fst r <> t.
Proof.
  unfold loc; intros H.
  apply bind_raise in H as [H|(? & _ & H)]; [|discriminate].
  apply mapM_raise in H as (t & Hin & H).
  destruct (filter (fun r => label_eqb (fst r) t) rows) eqn:E;
    [|discriminate].
  inversion H; subst; split; [reflexivity|].
  exists t; split; [exact Hin|].
  intros r Hr Heq.
  assert (Hf : In r (filter (fun r => label_eqb (fst r) t) rows))
    by (apply filter_In; split; [exact Hr|]; subst; apply label_eqb_refl).
  now rewrite E in Hf.
Qed.

Lemma loc_present (rows : list (label * A)) wanted found :
  loc rows wanted = Ok found ->
  forall t, In t wanted -> exists r, In r rows /\ fst r = t.
Proof.
  unfold loc; intros H t Ht.
  apply bind_ok in H as (groups & Hg & _).
  destruct (In_nth_error _ _ Ht) as (i & Hi).
  destruct (mapM_nth _ _ _ Hg _ _ Hi) as (g & _ & Hft).
  destruct (filter (fun r => label_eqb (fst r) t) rows) as [|r g'] eqn:E;
    [discriminate|].
  assert (Hf : In r (filter (fun r => label_eqb (fst r) t) rows))
    by (rewrite E; now left).
  apply filter_In in Hf as (Hr & Heq).
  exists r; split; [exact Hr|].
  now destruct (label_eqb_spec (fst r) t).
Qed.

Lemma loc_missing (rows : list (label * A)) wanted t :
  In t wanted -> (forall r, In r rows -> fst r <> t) ->
  exists e, loc rows wanted = Raise e /\ exn_cls e = KeyError.
Proof.
  intros Ht Hmiss.
  destruct (loc rows wanted) as [found|e] eqn:E.
  - destruct (loc_present _ _ _ E t Ht) as (r & Hr & Heq).
    exfalso; exact (Hmiss r Hr Heq).
  - exists e; split; [reflexivity|]. now apply loc_raise in E.
Qed.

End SortIndex.

Lemma rows_of_columns_labels idx cols :
  map fst (rows_of_columns idx cols) = idx.
Proof.
  revert cols; induction idx as [|t idx IH]; intros cols; simpl;
    [reflexivity|now rewrite IH].
Qed.

Lemma rows_of_labels df : map fst (rows_of df) = index df.
Proof. apply rows_of_columns_labels. Qed.

(** The residual sample of a column is the non-missing residuals in
    ascending order of their labels. *)
Lemma residual_sample_sorted residuals_df col residuals :
  residual_sample residuals_df col = Ok residuals ->
  Sorted rows_le residuals
  /\ Permutation (dropna_series (index residuals_df) col) residuals
  /\ forall r, In r residuals -> isna (snd r) = false.
Proof.
  unfold residual_sample; intros H.
  apply sort_index_inv in H as [-> _].
  split; [apply sorted_rows_sorted|].
  split; [apply sorted_rows_perm|].
  intros r Hr.
  apply (Permutation_in _ (Permutation_sym (sorted_rows_perm _))) in Hr.
  unfold dropna_series in Hr; apply filter_In in Hr as [_ Hr].
  now apply negb_true_iff in Hr.
Qed.

(** ** Diagnostic Test Suite: one pass of the loop *)

Lemma test_column_skipped lib rdf fdf reg exc dir c e :
  is_datetime64_any_dtype (map fst (dropna_series (index rdf) (snd c)))
  = false ->
  to_datetime lib (map fst (dropna_series (index rdf) (snd c))) = Raise e ->
  test_column lib rdf fdf reg exc dir c
  = Ok (Skipped (skip_message (fst c) e)).
Proof. intros Hdt He; unfold test_column; now rewrite Hdt, He. Qed.

(** What stands behind a tested column. *)
Lemma test_column_tested lib rdf fdf reg exc dir c bp white sw jb figure :
  test_column lib rdf fdf reg exc dir c = Ok (Tested bp white sw jb figure) ->
  exists residuals fcol fitted_values ecol excess_returns found
         regressor_filtered,
    residual_sample rdf (snd c) = Ok residuals
    /\ get_column fdf (fst c) = Ok fcol
    /\ loc_keys lib (combine (index fdf) fcol) (map fst residuals)
       = Ok fitted_values
    /\ get_column exc (fst c) = Ok ecol
    /\ loc_keys lib (combine (index exc) ecol) (map fst residuals)
       = Ok excess_returns
    /\ loc_keys lib (rows_of reg) (map fst residuals) = Ok found
    /\ sort_index found = Ok regressor_filtered
    /\ (let exog :=
          map snd (columns (add_constant
                              (frame_of_rows (map fst (columns reg))
                                             regressor_filtered))) in
        let sample := map snd residuals in
        bp = (fst c, snd bp)
        /\ het_breuschpagan lib sample exog = Ok (snd bp)
        /\ white = (fst c, snd white)
        /\ het_white lib sample exog = Ok (snd white)
        /\ sw = (fst c, snd sw)
        /\ shapiro lib sample = Ok (snd sw)
        /\ jb_fund jb = fst c
        /\ jarque_bera lib sample = Ok (jb_statistic jb, jb_pvalue jb)
        /\ skew lib sample = Ok (jb_skewness jb)
        /\ kurtosis lib false sample = Ok (jb_kurtosis jb)
        /\ figure
           = (dir ++ "/residual_tests_" ++ fst c ++ ".png")%string).
Proof.
  unfold test_column, residual_sample.
  destruct (if is_datetime64_any_dtype _ then _ else _) as [conv|e];
    [|discriminate].
  intros H.
  apply bind_ok in H as (residuals & Hres & H).
  apply bind_ok in H as (fcol & Hfcol & H).
  apply bind_ok in H as (fv0 & Hfv0 & H).
  apply bind_ok in H as (fv & Hfv & H).
  apply bind_ok in H as (ecol & Hecol & H).
  apply bind_ok in H as (ex0 & Hex0 & H).
  apply bind_ok in H as (ex & Hex & H).
  apply bind_ok in H as (found & Hfound & H).
  apply bind_ok in H as (rf & Hrf & H).
  apply bind_ok in H as (bpr & Hbp & H).
  apply bind_ok in H as (whr & Hwh & H).
  apply bind_ok in H as (swr & Hsw & H).
  apply bind_ok in H as ([jstat jp] & Hjb & H).
  apply bind_ok in H as (sk & Hsk & H).
  apply bind_ok in H as (ku & Hku & H).
  apply bind_ok in H as (u & Hdraw & H).
  inversion H; subst; clear H.
  exists residuals, fcol, fv0, ecol, ex0, found, rf.
  split; [exact Hres|].
  split; [exact Hfcol|]. split; [exact Hfv0|].
  split; [exact Hecol|]. split; [exact Hex0|].
  split; [exact Hfound|]. split; [exact Hrf|].
  cbv zeta; cbn [fst snd jb_fund jb_statistic jb_pvalue jb_skewness
                     jb_kurtosis].
  repeat split; assumption.
Qed.

(** Keys that are time stamps are taken as they are, and so are all
    the keys of an index that is not one of time stamps. *)
Lemma cast_listlike_stamps lib idx keys :
  is_datetime64_any_dtype keys = true -> cast_listlike lib idx keys = keys.
Proof.
  intros H; unfold cast_listlike; rewrite H, andb_false_r; reflexivity.
Qed.

Lemma cast_listlike_other lib idx keys :
  is_datetime64_any_dtype idx = false -> cast_listlike lib idx keys = keys.
Proof. intros H; unfold cast_listlike; now rewrite H. Qed.

(** A tested column has every label of its residual sample, as the index
    of the regressors reads it, in that index. *)
Lemma test_column_labels_present lib rdf fdf reg exc dir c bp wh sw jb fig
      residuals :
  test_column lib rdf fdf reg exc dir c = Ok (Tested bp wh sw jb fig) ->
  residual_sample rdf (snd c) = Ok residuals ->
  forall t, In t (cast_listlike lib (index reg) (map fst residuals)) ->
            In t (index reg).
Proof.
  intros H Hres t Ht.
  apply test_column_tested in H
    as (res' & _ & _ & _ & _ & found & _ & Hres' & _ & _ & _ & _
        & Hfound & _).
  rewrite Hres in Hres'; inversion Hres'; subst res'.
  unfold loc_keys in Hfound; rewrite rows_of_labels in Hfound.
  destruct (loc_present _ _ _ Hfound t Ht) as (row & Hrow & Heq).
  rewrite <- Heq, <- (rows_of_labels reg); now apply in_map.
Qed.

(** A label of the residual sample that the regressors lack, read as
    their index reads it: when the pass gets as far as the regressors,
    their lookup raises [KeyError]. *)
Lemma regressor_lookup_fails lib reg (labels : list label) t :
  In t (cast_listlike lib (index reg) labels) -> ~ In t (index reg) ->
  exists e,
    loc_keys lib (rows_of reg) labels = Raise e
    /\ exn_cls e = KeyError.
Proof.
  intros Ht Hmiss; unfold loc_keys; rewrite rows_of_labels.
  apply (@loc_missing _ (rows_of reg) _ t); [exact Ht|].
  intros row Hrow Heq; apply Hmiss.
  rewrite <- Heq, <- (rows_of_labels reg); now apply in_map.
Qed.

(** ** Diagnostic Test Suite: the loop *)

Section Loop.

Variable body : string * list float -> result Outcome.

(** The tables and the figures do not depend on what was printed. *)
Lemma tests_loop_stdout cols d s1 s2 figs :
  fst (tests_loop body cols (d, mkWorld s1 figs))
  = fst (tests_loop body cols (d, mkWorld s2 figs))
  /\ figures (snd (tests_loop body cols (d, mkWorld s1 figs)))
     = figures (snd (tests_loop body cols (d, mkWorld s2 figs))).
Proof.
  revert d s1 s2 figs; induction cols as [|c cols IH]; intros d s1 s2 figs.
  - split; reflexivity.
  - cbn [tests_loop]. destruct (body c) as [[m|bp wh sw jb fig]|e].
    + cbn [record_outcome stdout figures]; apply IH.
    + cbn [record_outcome stdout figures]; apply IH.
    + split; reflexivity.
Qed.

(** A skipped column leaves the rest of the run as it would be without
    the column. *)
Lemma tests_loop_skip pre c post message d w :
  body c = Ok (Skipped message) ->
  fst (tests_loop body (pre ++ c :: post) (d, w))
  = fst (tests_loop body (pre ++ post) (d, w))
  /\ figures (snd (tests_loop body (pre ++ c :: post) (d, w)))
     = figures (snd (tests_loop body (pre ++ post) (d, w))).
Proof.
  intros Hc; revert d w; induction pre as [|p pre IH]; intros d w.
  - cbn [app tests_loop]; rewrite Hc; cbn [record_outcome].
    destruct w as [s figs]; apply tests_loop_stdout.
  - cbn [app tests_loop]. destruct (body p) as [o|e]; [|split; reflexivity].
    destruct (record_outcome o (d, w)) as [d' w']; apply IH.
Qed.

(** The rows of the four tables after a run without exception: those of
    the tested columns, in the order of the columns. *)
Lemma tests_loop_rows cols d0 w0 d w :
  tests_loop body cols (d0, w0) = (Ok d, w) ->
  results_bp d
  = results_bp d0 ++ flat_map (fun c => bp_rows_of (body c)) cols
  /\ results_white d
     = results_white d0 ++ flat_map (fun c => white_rows_of (body c)) cols
  /\ shapiro_results d
     = shapiro_results d0
       ++ flat_map (fun c => shapiro_rows_of (body c)) cols
  /\ jarque_bera_results d
     = jarque_bera_results d0 ++ flat_map (fun c => jb_rows_of (body c)) cols
  /\ stdout w
     = stdout w0
       ++ flat_map (fun c => match body c with
                             | Ok (Skipped message) => [message]
                             | _ => []
                             end) cols.
Proof.
  revert d0 w0; induction cols as [|c cols IH]; intros d0 w0 H.
  - cbn in H; inversion H; subst; cbn; now rewrite !app_nil_r.
  - cbn [tests_loop] in H; cbn [flat_map].
    destruct (body c) as [[m|bp wh sw jb fig]|e]; [| |discriminate].
    + apply IH in H as (H1 & H2 & H3 & H4 & H5); cbn in *.
      rewrite H1, H2, H3, H4, H5, <- app_assoc; auto.
    + apply IH in H as (H1 & H2 & H3 & H4 & H5); cbn in *.
      rewrite H1, H2, H3, H4, H5, <- !app_assoc; auto.
Qed.

Lemma flat_map_short {B : Type} (f : string * list float -> list B) cols c :
  (forall x, length (f x) <= 1)%nat -> In c cols -> f c = [] ->
  (length (flat_map f cols) < length cols)%nat.
Proof.
  intros Hone Hin Hc.
  assert (Hle : forall l, (length (flat_map f l) <= length l)%nat).
  { induction l as [|x l IHl]; cbn; [lia|].
    rewrite length_app; specialize (Hone x); lia. }
  induction cols as [|x cols IH]; [destruct Hin|].
  cbn; rewrite length_app. destruct Hin as [->|Hin].
  - rewrite Hc; cbn; specialize (Hle cols); lia.
  - specialize (IH Hin); specialize (Hone x); lia.
Qed.

End Loop.

Lemma same_name_same_column (cols : list (string * list float)) a b :
  NoDup (map fst cols) -> In a cols -> In b cols -> fst a = fst b -> a = b.
Proof.
  induction cols as [|x cols IH]; intros Hnd Ha Hb Heq; [destruct Ha|].
  inversion Hnd as [|? ? Hnotin Hnd']; subst.
  destruct Ha as [->|Ha], Hb as [->|Hb]; auto.
  - exfalso; apply Hnotin; rewrite Heq; now apply in_map.
  - exfalso; apply Hnotin; rewrite <- Heq; now apply in_map.
Qed.

(** Rows of a table named after a tested column cannot carry the name of
    a skipped one. *)
Lemma absent_from_table {R : Type} (rows_of_outcome : result Outcome -> list R)
      (name : R -> string) (body : string * list float -> result Outcome)
      cols c message :
  NoDup (map fst cols) -> In c cols ->
  body c = Ok (Skipped message) ->
  rows_of_outcome (Ok (Skipped message)) = [] ->
  (forall c' row, In row (rows_of_outcome (body c')) -> name row = fst c') ->
  ~ In (fst c) (map name (flat_map (fun c => rows_of_outcome (body c)) cols)).
Proof.
  intros Hnd Hc Hskip Hnil Hname Hin.
  apply in_map_iff in Hin as (row & Hrow & Hin).
  apply in_flat_map in Hin as (c' & Hc' & Hin).
  assert (c' = c).
  { apply (@same_name_same_column cols c' c Hnd Hc' Hc).
    now rewrite <- (Hname c' row Hin). }
  subst c'; now rewrite Hskip, Hnil in Hin.
Qed.

Lemma tested_row_names lib rdf fdf reg exc dir c :
  let o := test_column lib rdf fdf reg exc dir c in
  (forall row, In row (bp_rows_of o) -> fst row = fst c)
  /\ (forall row, In row (white_rows_of o) -> fst row = fst c)
  /\ (forall row, In row (shapiro_rows_of o) -> fst row = fst c)
  /\ (forall row, In row (jb_rows_of o) -> jb_fund row = fst c).
Proof.
  cbv zeta.
  destruct (test_column lib rdf fdf reg exc dir c)
    as [[m|bp wh sw jb fig]|e] eqn:E.
  - split; [|split; [|split]]; intros r [].
  - apply test_column_tested in E
      as (? & ? & ? & ? & ? & ? & ? & _ & _ & _ & _ & _ & _ & _ & E).
    cbv zeta in E.
    destruct E as (Hbp & _ & Hwh & _ & Hsw & _ & Hjb & _).
    split; [|split; [|split]]; intros r [<-|[]].
    + now rewrite Hbp.
    + now rewrite Hwh.
    + now rewrite Hsw.
    + exact Hjb.
  - split; [|split; [|split]]; intros r [].
Qed.

(** C10: a series whose residual index is not of datetime type and
    cannot be converted is skipped: its pass ends with the printed
    message and no exception.  The run returns the tables (or raises the
    exception) and saves the figures of the run on the frame without that
    series; and when it returns, the message is on the output, none of the
    four tables has a row for the series (column names being distinct) and
    each of them has fewer rows than there are input series. *)
Theorem unconvertible_index_is_skipped
        lib rdf fdf reg exc dir writer w pre c post e :
  columns rdf = pre ++ c :: post ->
  is_datetime64_any_dtype (map fst (dropna_series (index rdf) (snd c)))
  = false ->
  to_datetime lib (map fst (dropna_series (index rdf) (snd c))) = Raise e ->
  let rdf' := mkFrame (index rdf) (pre ++ post) in
  let run := combined_tests lib rdf fdf reg exc dir writer w in
  let run' := combined_tests lib rdf' fdf reg exc dir writer w in
  test_column lib rdf fdf reg exc dir c
  = Ok (Skipped (skip_message (fst c) e))
  /\ fst run = fst run'
  /\ figures (snd run) = figures (snd run')
  /\ forall d writer' w',
      run = (Ok (d, writer'), w') ->
      In (skip_message (fst c) e) (stdout w')
      /\ (length (results_bp d) < length (columns rdf))%nat
      /\ (length (results_white d) < length (columns rdf))%nat
      /\ (length (shapiro_results d) < length (columns rdf))%nat
      /\ (length (jarque_bera_results d) < length (columns rdf))%nat
      /\ (NoDup (map fst (columns rdf)) ->
          ~ In (fst c) (map fst (results_bp d))
          /\ ~ In (fst c) (map fst (results_white d))
          /\ ~ In (fst c) (map fst (shapiro_results d))
          /\ ~ In (fst c) (map jb_fund (jarque_bera_results d))).
Proof.
  intros Hcols Hdt He; cbv zeta.
  pose proof (test_column_skipped lib rdf fdf reg exc dir c e Hdt He)
    as Hskip.
  set (body := test_column lib rdf fdf reg exc dir) in *.
  assert (Hbody : test_column lib (mkFrame (index rdf) (pre ++ post))
                              fdf reg exc dir = body).
  { unfold body, test_column; reflexivity. }
  split; [exact Hskip|].
  unfold combined_tests; rewrite Hbody; cbn [columns]; rewrite Hcols.
  change (test_column lib rdf fdf reg exc dir) with body.
  destruct (@tests_loop_skip body pre c post _ (mkDiag [] [] [] []) w Hskip)
    as [Hfst Hfig].
  destruct (tests_loop body (pre ++ c :: post) (mkDiag [] [] [] [], w))
    as [r1 w1] eqn:E1.
  destruct (tests_loop body (pre ++ post) (mkDiag [] [] [] [], w))
    as [r2 w2] eqn:E2.
  cbn [fst snd] in *; subst r2.
  split; [reflexivity|]. split; [exact Hfig|].
  intros d writer' w' Hrun; inversion Hrun; subst w'; clear Hrun.
  destruct r1 as [d1|e1]; [|discriminate].
  match goal with H : Py.bind _ _ = _ |- _ => cbn in H; inversion H end.
  subst d1 writer'.
  apply tests_loop_rows in E1 as (Hbp & Hwh & Hsw & Hjb & Hout).
  cbn [results_bp results_white shapiro_results jarque_bera_results app]
    in Hbp, Hwh, Hsw, Hjb.
  assert (Hin : In c (pre ++ c :: post)) by (apply in_elt).
  rewrite Hbp, Hwh, Hsw, Hjb, Hout.
  split.
  { apply in_or_app; right; apply in_flat_map.
    exists c; split; [exact Hin|]; rewrite Hskip; now left. }
  split; [apply (flat_map_short _ _ c); auto;
          [intros x; destruct (body x) as [[|]|]; cbn; lia
          |now rewrite Hskip]|].
  split; [apply (flat_map_short _ _ c); auto;
          [intros x; destruct (body x) as [[|]|]; cbn; lia
          |now rewrite Hskip]|].
  split; [apply (flat_map_short _ _ c); auto;
          [intros x; destruct (body x) as [[|]|]; cbn; lia
          |now rewrite Hskip]|].
  split; [apply (flat_map_short _ _ c); auto;
          [intros x; destruct (body x) as [[|]|]; cbn; lia
          |now rewrite Hskip]|].
  intros Hnd.
  repeat split.
  - apply (@absent_from_table _ bp_rows_of fst body (pre ++ c :: post) c _
                                Hnd Hin Hskip eq_refl).
    intros c' row; apply (tested_row_names lib rdf fdf reg exc dir c').
  - apply (@absent_from_table _ white_rows_of fst body (pre ++ c :: post) c _
                                Hnd Hin Hskip eq_refl).
    intros c' row; apply (tested_row_names lib rdf fdf reg exc dir c').
  - apply (@absent_from_table _ shapiro_rows_of fst body (pre ++ c :: post) c _
                                Hnd Hin Hskip eq_refl).
    intros c' row; apply (tested_row_names lib rdf fdf reg exc dir c').
  - apply (@absent_from_table _ jb_rows_of jb_fund body (pre ++ c :: post) c _
                                Hnd Hin Hskip eq_refl).
    intros c' row; apply (tested_row_names lib rdf fdf reg exc dir c').
Qed.

Lemma unconvertible_index_is_skipped_witness :
  columns diag_residuals
  = [("FundA"%string, [0.125; 0.5; -0.25; -0.375; nan])]
      ++ ("FundB"%string, [0.125; 0.25; -0.5; 0.25; 0.5]) :: []
  /\ to_datetime Ref.lib
       (map fst (dropna_series (index diag_residuals)
                               [0.125; 0.25; -0.5; 0.25; 0.5]))
     = Raise (mkExn ValueError "Unknown datetime string format: Total")
  /\ exists d writer' w',
      combined_tests Ref.lib diag_residuals diag_fitted diag_regressor
                     diag_excess "out" [] empty_world
      = (Ok (d, writer'), w')
      /\ stdout w'
         = [skip_message "FundB"
              (mkExn ValueError "Unknown datetime string format: Total")]
      /\ map fst (results_bp d) = ["FundA"%string]
      /\ (length (jarque_bera_results d) < 2)%nat
      /\ ~ In "FundB"%string (map jb_fund (jarque_bera_results d)).
Proof.
  split; [reflexivity|]. split; [reflexivity|].
  destruct (@unconvertible_index_is_skipped Ref.lib diag_residuals
              diag_fitted diag_regressor diag_excess "out" [] empty_world
              [("FundA"%string, [0.125; 0.5; -0.25; -0.375; nan])]
              ("FundB"%string, [0.125; 0.25; -0.5; 0.25; 0.5]) []
              (mkExn ValueError "Unknown datetime string format: Total")
              eq_refl eq_refl eq_refl)
    as (_ & _ & _ & H).
  destruct (combined_tests Ref.lib diag_residuals diag_fitted diag_regressor
                           diag_excess "out" [] empty_world)
    as [[[d writer']|e] w'] eqn:Hrun;
    [|vm_compute in Hrun; discriminate].
  destruct (H d writer' w' eq_refl) as (_ & _ & _ & _ & Hlen & Habsent).
  exists d, writer', w'.
  split; [reflexivity|].
  split; [vm_compute in Hrun; now inversion Hrun|].
  split; [vm_compute in Hrun; now inversion Hrun|].
  split; [exact Hlen|].
  apply Habsent. repeat constructor; cbn; intuition discriminate.
Defined.

(** ** Diagnostic Test Suite: the Jarque-Bera table *)

(** C8: every line of the Jarque-Bera table belongs to a column of the
    residual frame and carries the statistic and the p-value of
    [stats.jarque_bera], the skewness of [stats.skew] and the kurtosis of
    [stats.kurtosis(..., fisher=False)] (Pearson's definition), all four
    computed on one sample: the non-missing residuals of the column in
    ascending order of their labels. *)
Theorem jarque_bera_record lib rdf fdf reg exc dir writer w d writer' w' :
  combined_tests lib rdf fdf reg exc dir writer w = (Ok (d, writer'), w') ->
  forall row,
    In row (jarque_bera_results d) ->
    exists c residuals,
      In c (columns rdf)
      /\ jb_fund row = fst c
      /\ residual_sample rdf (snd c) = Ok residuals
      /\ Permutation (dropna_series (index rdf) (snd c)) residuals
      /\ Sorted rows_le residuals
      /\ (forall r, In r residuals -> isna (snd r) = false)
      /\ jarque_bera lib (map snd residuals)
         = Ok (jb_statistic row, jb_pvalue row)
      /\ skew lib (map snd residuals) = Ok (jb_skewness row)
      /\ kurtosis lib false (map snd residuals) = Ok (jb_kurtosis row).
Proof.
  unfold combined_tests; intros Hrun row Hrow.
  destruct (tests_loop _ _ _) as [r w1] eqn:E.
  inversion Hrun; subst w1; clear Hrun.
  destruct r as [d1|e1]; [|discriminate].
  match goal with H : Py.bind _ _ = _ |- _ => cbn in H; inversion H end.
  subst d1 writer'.
  apply tests_loop_rows in E as (_ & _ & _ & Hjb & _).
  rewrite Hjb in Hrow; cbn [jarque_bera_results app] in Hrow.
  apply in_flat_map in Hrow as (c & Hc & Hrow).
  destruct (test_column lib rdf fdf reg exc dir c)
    as [[m|bp wh sw jb fig]|e] eqn:Ec; cbn [jb_rows_of] in Hrow;
    try contradiction.
  destruct Hrow as [<-|[]].
  apply test_column_tested in Ec
    as (residuals & ? & ? & ? & ? & ? & ? & Hres & _ & _ & _ & _ & _ & _ & Ec).
  cbv zeta in Ec.
  destruct Ec as (_ & _ & _ & _ & _ & _ & Hfund & Hjbt & Hsk & Hku & _).
  destruct (residual_sample_sorted _ _ _ Hres) as (Hsorted & Hperm & Hna).
  exists c, residuals; repeat split; assumption.
Qed.

Lemma jarque_bera_record_witness :
  exists d writer' w' row c residuals,
    combined_tests Ref.lib diag_residuals diag_fitted diag_regressor
                   diag_excess "out" [] empty_world
    = (Ok (d, writer'), w')
    /\ jarque_bera_results d = [row]
    /\ In c (columns diag_residuals)
    /\ jb_fund row = "FundA"%string
    /\ residual_sample diag_residuals (snd c) = Ok residuals
    /\ residuals
       = [(Stamp 1, 0.5); (Stamp 2, -0.25); (Stamp 3, 0.125);
          (Stamp 4, -0.375)]
    /\ kurtosis Ref.lib false (map snd residuals) = Ok (jb_kurtosis row)
    /\ skew Ref.lib (map snd residuals) = Ok (jb_skewness row).
Proof.
  destruct (combined_tests Ref.lib diag_residuals diag_fitted diag_regressor
                           diag_excess "out" [] empty_world)
    as [[[d writer']|e] w'] eqn:Hrun;
    [|vm_compute in Hrun; discriminate].
  destruct (jarque_bera_results d) as [|row rows] eqn:Hrows;
    [vm_compute in Hrun; inversion Hrun; subst; discriminate|].
  assert (Hnil : rows = [])
    by (vm_compute in Hrun; inversion Hrun; subst; now inversion Hrows).
  assert (Hname : jb_fund row = "FundA"%string)
    by (vm_compute in Hrun; inversion Hrun; subst; now inversion Hrows).
  subst rows.
  destruct (@jarque_bera_record Ref.lib diag_residuals diag_fitted
              diag_regressor diag_excess "out" [] empty_world d writer' w'
              Hrun row)
    as (c & residuals & Hc & Hfund & Hres & _ & _ & _ & _ & Hsk & Hku).
  { rewrite Hrows; now left. }
  exists d, writer', w', row, c, residuals.
  split; [reflexivity|]. split; [exact Hrows|]. split; [exact Hc|].
  split; [exact Hname|]. split; [exact Hres|].
  split; [|split; assumption].
  rewrite Hname in Hfund.
  destruct Hc as [<-|[<-|[]]]; [|discriminate].
  vm_compute in Hres; now inversion Hres.
Defined.

(** In the reference library Fisher's kurtosis is Pearson's minus 3. *)
Example reference_kurtosis_conventions (x : list float) :
  Ref.kurtosis true x = (k <- Ref.kurtosis false x ;; Ok (k - 3)).
Proof. reflexivity. Qed.

(** ** Diagnostic Test Suite: alignment of residuals and regressors *)

Section Alignment.

Context {A : Type}.

Lemma filter_label_unique (rows : list (label * A)) t :
  NoDup (map fst rows) ->
  (length (filter (fun r => label_eqb (fst r) t) rows) <= 1)%nat.
Proof.
  induction rows as [|r rows IH]; intros Hnd; cbn; [lia|].
  inversion Hnd as [|? ? Hnotin Hnd']; subst.
  destruct (label_eqb_spec (fst r) t) as [E|E]; [|auto].
  cbn. assert (H : filter (fun r => label_eqb (fst r) t) rows = []).
  { destruct (filter (fun r => label_eqb (fst r) t) rows) as [|r' l] eqn:F;
      [reflexivity|].
    assert (Hin : In r' (filter (fun r => label_eqb (fst r) t) rows))
      by (rewrite F; now left).
    apply filter_In in Hin as [Hin Heq].
    destruct (label_eqb_spec (fst r') t) as [E'|]; [|discriminate].
    exfalso; apply Hnotin; rewrite E, <- E'; now apply in_map. }
  rewrite H; cbn; lia.
Qed.

Lemma filter_label_labels (rows : list (label * A)) t :
  forall r, In r (filter (fun r => label_eqb (fst r) t) rows) -> fst r = t.
Proof.
  intros r Hr; apply filter_In in Hr as [_ Hr].
  now destruct (label_eqb_spec (fst r) t).
Qed.

(** On a duplicate-free index [loc] returns one row per wanted label, in
    the order of the wanted labels. *)
Lemma loc_labels (rows : list (label * A)) wanted found :
  NoDup (map fst rows) ->
  loc rows wanted = Ok found -> map fst found = wanted.
Proof.
  intros Hnd; unfold loc; intros H.
  apply bind_ok in H as (groups & Hg & H); inversion H; subst found; clear H.
  revert groups Hg; induction wanted as [|t wanted IH]; intros groups Hg.
  - cbn in Hg; now inversion Hg.
  - cbn [mapM] in Hg.
    apply bind_ok in Hg as (g & Hgt & Hg).
    apply bind_ok in Hg as (gs & Hgs & Hg); inversion Hg; subst groups.
    cbn [concat]; rewrite map_app, (IH gs Hgs).
    pose proof (filter_label_unique rows t Hnd) as Hlen.
    pose proof (filter_label_labels rows t) as Hlab.
    destruct (filter (fun r => label_eqb (fst r) t) rows) as [|r [|r' l]];
      [discriminate| |cbn in Hlen; lia].
    inversion Hgt; subst g; cbn.
    now rewrite (Hlab r (or_introl eq_refl)).
Qed.

Lemma loc_incl (rows : list (label * A)) wanted found :
  loc rows wanted = Ok found -> incl (map fst found) wanted.
Proof.
  unfold loc; intros H.
  apply bind_ok in H as (groups & Hg & H); inversion H; subst found; clear H.
  intros t Ht; apply in_map_iff in Ht as (r & <- & Hr).
  apply in_concat in Hr as (g & Hg' & Hr).
  destruct (In_nth_error _ _ Hg') as (i & Hi).
  assert (Hlen := mapM_length _ _ _ Hg).
  destruct (nth_error wanted i) as [t|] eqn:Ht;
    [|apply nth_error_None in Ht;
      assert (i < length groups)%nat by (apply nth_error_Some; congruence);
      lia].
  destruct (mapM_nth _ _ _ Hg _ _ Ht) as (g0 & Hg0 & Hf).
  rewrite Hi in Hg0; inversion Hg0; subst g0.
  pose proof (filter_label_labels rows t) as Hlab.
  destruct (filter (fun r => label_eqb (fst r) t) rows) as [|r0 l];
    [discriminate|].
  inversion Hf; subst g.
  rewrite (Hlab r Hr); now apply nth_error_In in Ht.
Qed.

Lemma sorted_rows_of_sorted (rows : list (label * A)) :
  Sorted rows_le rows -> sorted_rows rows = rows.
Proof.
  induction 1 as [|r rows Hs IH Hhd]; [reflexivity|].
  cbn [sorted_rows fold_right].
  change (fold_right insert_row [] rows) with (sorted_rows rows).
  rewrite IH. destruct Hhd as [|r' rows' Hle]; [reflexivity|].
  cbn [insert_row]. unfold rows_le in Hle; now rewrite Hle.
Qed.

End Alignment.

Lemma comparable_incl l l' :
  incl l' l -> comparable l = true -> comparable l' = true.
Proof.
  unfold comparable; intros Hincl H.
  apply orb_true_iff in H as [H|H]; apply orb_true_iff; [left|right];
    rewrite forallb_forall in *; auto.
Qed.

(** A pass that gets past the conversion, finds the column and the
    labels in the fitted-value and excess-return frames and sorts what
    it found, but does not find every label in the regressors, raises
    [KeyError]. *)
Lemma test_column_missing_label lib rdf fdf reg exc dir c conv residuals
      fcol fitted_values fv ecol excess_returns ev t :
  (if is_datetime64_any_dtype (map fst (dropna_series (index rdf) (snd c)))
   then Ok (map fst (dropna_series (index rdf) (snd c)))
   else to_datetime lib (map fst (dropna_series (index rdf) (snd c))))
  = Ok conv ->
  residual_sample rdf (snd c) = Ok residuals ->
  get_column fdf (fst c) = Ok fcol ->
  loc_keys lib (combine (index fdf) fcol) (map fst residuals)
  = Ok fitted_values ->
  sort_index fitted_values = Ok fv ->
  get_column exc (fst c) = Ok ecol ->
  loc_keys lib (combine (index exc) ecol) (map fst residuals)
  = Ok excess_returns ->
  sort_index excess_returns = Ok ev ->
  In t (cast_listlike lib (index reg) (map fst residuals)) ->
  ~ In t (index reg) ->
  exists e,
    test_column lib rdf fdf reg exc dir c = Raise e /\ exn_cls e = KeyError.
Proof.
  intros Hconv Hres Hf Hfl Hfs He Hel Hes Ht Hmiss.
  destruct (regressor_lookup_fails lib reg _ _ Ht Hmiss) as (e & Hloc & Hcls).
  exists e; split; [|exact Hcls].
  unfold test_column; cbv zeta; rewrite Hconv.
  unfold residual_sample in Hres; rewrite Hres; cbn [Py.bind].
  rewrite Hf; cbn [Py.bind]; rewrite Hfl; cbn [Py.bind].
  rewrite Hfs; cbn [Py.bind].
  rewrite He; cbn [Py.bind]; rewrite Hel; cbn [Py.bind].
  rewrite Hes; cbn [Py.bind].
  now rewrite Hloc.
Qed.

(** C6 (as amended): [combined_tests] does not require sorted residuals
    and knows no [IndexAlignmentError].  For a tested column the
    Breusch-Pagan test is computed on the non-missing residuals, which the
    function itself puts in ascending order of their labels, and on the
    regressor rows looked up by these labels and sorted likewise; every
    residual label, as the regressor index reads it, is then in that
    index.  With a duplicate-free regressor index and labels the index
    takes as they are (time stamps, or any labels on an index that is not
    one of time stamps) there is one regressor row per residual, label
    for label.  A column whose residual index cannot be converted to
    datetime is skipped with a message, without an error.  A residual
    label that the regressors lack makes the lookup raise [KeyError]: the
    column is not tested, and the pass that reaches the lookup fails
    with [KeyError]. *)
Theorem breusch_pagan_alignment lib rdf fdf reg exc dir c :
  (forall bp white sw jb figure,
      test_column lib rdf fdf reg exc dir c
      = Ok (Tested bp white sw jb figure) ->
      exists residuals found regressor_filtered,
        residual_sample rdf (snd c) = Ok residuals
        /\ Permutation (dropna_series (index rdf) (snd c)) residuals
        /\ Sorted rows_le residuals
        /\ (forall t,
               In t (cast_listlike lib (index reg) (map fst residuals)) ->
               In t (index reg))
        /\ loc_keys lib (rows_of reg) (map fst residuals) = Ok found
        /\ sort_index found = Ok regressor_filtered
        /\ Sorted rows_le regressor_filtered
        /\ (is_unique (index reg) = true ->
            cast_listlike lib (index reg) (map fst residuals)
            = map fst residuals ->
            map fst regressor_filtered = map fst residuals)
        /\ (is_datetime64_any_dtype (map fst residuals) = true
            \/ is_datetime64_any_dtype (index reg) = false ->
            cast_listlike lib (index reg) (map fst residuals)
            = map fst residuals)
        /\ het_breuschpagan lib (map snd residuals)
             (map snd (columns (add_constant
                                  (frame_of_rows (map fst (columns reg))
                                                 regressor_filtered))))
           = Ok (snd bp))
  /\ (forall e,
         is_datetime64_any_dtype
           (map fst (dropna_series (index rdf) (snd c))) = false ->
         to_datetime lib (map fst (dropna_series (index rdf) (snd c)))
         = Raise e ->
         test_column lib rdf fdf reg exc dir c
         = Ok (Skipped (skip_message (fst c) e)))
  /\ (forall residuals t,
         residual_sample rdf (snd c) = Ok residuals ->
         In t (cast_listlike lib (index reg) (map fst residuals)) ->
         ~ In t (index reg) ->
         (exists e,
             loc_keys lib (rows_of reg) (map fst residuals) = Raise e
             /\ exn_cls e = KeyError)
         /\ (forall bp white sw jb figure,
                test_column lib rdf fdf reg exc dir c
                <> Ok (Tested bp white sw jb figure))
         /\ (forall conv fcol fitted_values fv ecol excess_returns ev,
                (if is_datetime64_any_dtype
                      (map fst (dropna_series (index rdf) (snd c)))
                 then Ok (map fst (dropna_series (index rdf) (snd c)))
                 else to_datetime lib
                        (map fst (dropna_series (index rdf) (snd c))))
                = Ok conv ->
                get_column fdf (fst c) = Ok fcol ->
                loc_keys lib (combine (index fdf) fcol) (map fst residuals)
                = Ok fitted_values ->
                sort_index fitted_values = Ok fv ->
                get_column exc (fst c) = Ok ecol ->
                loc_keys lib (combine (index exc) ecol) (map fst residuals)
                = Ok excess_returns ->
                sort_index excess_returns = Ok ev ->
                exists e,
                  test_column lib rdf fdf reg exc dir c = Raise e
                  /\ exn_cls e = KeyError)).
Proof.
  split; [|split].
  - intros bp white sw jb figure H.
    pose proof (fun residuals =>
                  test_column_labels_present _ _ _ _ _ _ _ _ _ _ _ _
                                             residuals H) as Hpresent.
    apply test_column_tested in H
      as (residuals & ? & ? & ? & ? & found & rf & Hres & _ & _ & _ & _
          & Hfound & Hrf & H).
    cbv zeta in H; destruct H as (_ & Hbp & _).
    destruct (residual_sample_sorted _ _ _ Hres) as (Hsorted & Hperm & _).
    exists residuals, found, rf.
    split; [exact Hres|]. split; [exact Hperm|]. split; [exact Hsorted|].
    split; [exact (Hpresent residuals Hres)|].
    split; [exact Hfound|]. split; [exact Hrf|].
    apply sort_index_inv in Hrf as [Hrf _].
    split; [rewrite Hrf; apply sorted_rows_sorted|].
    split; [|split; [|exact Hbp]].
    + intros Hu Hcast.
      assert (Hlab : map fst found = map fst residuals).
      { unfold loc_keys in Hfound.
        rewrite rows_of_labels, Hcast in Hfound.
        apply (loc_labels (rows_of reg) _ _); [|exact Hfound].
        rewrite rows_of_labels; now apply is_unique_NoDup. }
      assert (Hs : Sorted rows_le found).
      { clear - Hlab Hsorted. revert residuals Hlab Hsorted.
        induction found as [|x found IH]; intros [|y residuals] Hlab Hs;
          try discriminate; [constructor|].
        cbn in Hlab; injection Hlab as Hxy Hlab.
        inversion Hs as [|? ? Hs' Hhd]; subst.
        constructor; [now apply (IH residuals)|].
        destruct found as [|x' found]; [constructor|].
        destruct residuals as [|y' residuals]; [discriminate|].
        cbn in Hlab; injection Hlab as Hxy' _.
        inversion Hhd; subst; constructor.
        unfold rows_le in *; now rewrite Hxy, Hxy'. }
      now rewrite Hrf, (sorted_rows_of_sorted _ Hs).
    + intros [Hd|Hd];
        [now apply cast_listlike_stamps|now apply cast_listlike_other].
  - intros e Hdt He; now apply test_column_skipped.
  - intros residuals t Hres Ht Hmiss.
    split; [exact (regressor_lookup_fails lib reg _ _ Ht Hmiss)|].
    split.
    + intros bp white sw jb figure H.
      exact (Hmiss (test_column_labels_present _ _ _ _ _ _ _ _ _ _ _ _ _
                                               H Hres t Ht)).
    + intros conv fcol fitted_values fv ecol ex ev Hconv Hf Hfl Hfs He Hel Hes.
      exact (test_column_missing_label lib rdf fdf reg exc dir c _ _ _ _ _ _
               _ _ _ Hconv Hres Hf Hfl Hfs He Hel Hes Ht Hmiss).
Qed.

(** C6 as stated fails.  The residual frame below is not sorted and the
    index of FundB has a label that is neither a date nor a label of the
    regressors: FundA is tested, FundB is skipped with a message, and the
    run returns its tables.  With regressors that lack the fourth time
    stamp the run fails, with the [KeyError] of the label lookup. *)
Lemma unreconciled_index_is_skipped_or_key_error :
  (exists d writer' w',
      combined_tests Ref.lib diag_residuals diag_fitted diag_regressor
                     diag_excess "out" [] empty_world
      = (Ok (d, writer'), w')
      /\ map fst (results_bp d) = ["FundA"%string]
      /\ stdout w'
         = [skip_message "FundB"
              (mkExn ValueError "Unknown datetime string format: Total")])
  /\ (exists e w',
         combined_tests Ref.lib diag_residuals diag_fitted
                        diag_regressor_short diag_excess "out" [] empty_world
         = (Raise e, w')
         /\ exn_cls e = KeyError).
Proof.
  split.
  - do 3 eexists; split; [vm_compute; reflexivity|]. split; reflexivity.
  - do 2 eexists; split; [vm_compute; reflexivity|reflexivity].
Qed.

(** Residuals on an index of date strings are tested against regressors
    on an index of time stamps: the regressor index reads the strings as
    dates, and the outcome is that of the same residuals on time
    stamps. *)
Example date_strings_are_read_as_dates :
  cast_listlike Ref.lib (index diag_regressor)
                [Text "1970-01-02"; Text "1970-01-03"]
  = [Stamp 1; Stamp 2]
  /\ loc_keys Ref.lib (rows_of diag_regressor)
              [Text "1970-01-02"; Text "1970-01-03"]
     = Ok [(Stamp 1, [0.25]); (Stamp 2, [0.5])]
  /\ (exists bp white sw jb figure,
         test_column Ref.lib dated_residuals dated_residuals diag_regressor
                     dated_residuals "out"
                     ("FundA"%string, [0.125; 0.5; -0.25; -0.375])
         = Ok (Tested bp white sw jb figure)
         /\ test_column Ref.lib stamped_residuals stamped_residuals
                        diag_regressor stamped_residuals "out"
                        ("FundA"%string, [0.125; 0.5; -0.25; -0.375])
            = Ok (Tested bp white sw jb figure)).
Proof.
  split; [reflexivity|]. split; [reflexivity|].
  do 5 eexists; split; vm_compute; reflexivity.
Qed.

(** ** Multicollinearity *)

Lemma map_fst_combine_same {A B} (a : list A) (b : list B) :
  length a = length b -> map fst (combine a b) = a.
Proof.
  revert b; induction a as [|x a IH]; intros [|y b] H; try discriminate;
    [reflexivity|].
  cbn; f_equal; apply IH; now injection H.
Qed.

Lemma nth_error_remove_nth {A : Type} (i : nat) (l : list A) (j : nat) :
  nth_error (remove_nth i l) j
  = nth_error l (if (j <? i)%nat then j else S j).
Proof.
  unfold remove_nth; revert l j; induction i as [|i IH]; intros l j.
  - destruct l; [now destruct j|reflexivity].
  - destruct l as [|x l];
      [destruct (j <? S i)%nat; destruct j; reflexivity|].
    destruct j as [|j]; [reflexivity|].
    cbn [firstn skipn app nth_error]; rewrite IH.
    change (S j <? S i)%nat with (j <? i)%nat.
    now destruct (j <? i)%nat.
Qed.

Lemma remove_nth_length {A : Type} (i : nat) (l : list A) :
  (i < length l)%nat -> length (remove_nth i l) = (length l - 1)%nat.
Proof.
  intros H; unfold remove_nth.
  rewrite length_app, length_firstn, length_skipn; lia.
Qed.

Lemma vif_fama_entries lib panel table :
  vif_fama lib panel = Ok table ->
  map fst table = map fst (columns (add_constant panel))
  /\ forall i name col,
      nth_error (columns (add_constant panel)) i = Some (name, col) ->
      exists fit,
        OLS_fit lib col
                (remove_nth i (map snd (columns (add_constant panel))))
        = Ok fit
        /\ nth_error table i = Some (name, 1 / (1 - rsquared fit)).
Proof.
  unfold vif_fama; cbv zeta; intros H.
  apply bind_ok in H as (vifs & Hv & H); inversion H; subst table; clear H.
  pose proof (mapM_length _ _ _ Hv) as Hlen; rewrite length_seq in Hlen.
  split.
  - apply map_fst_combine_same; now rewrite length_map.
  - intros i name col Hi.
    assert (Hlt : (i < length (columns (add_constant panel)))%nat)
      by (apply nth_error_Some; congruence).
    assert (Hseq : nth_error (seq 0 (length (columns (add_constant panel)))) i
                   = Some i).
    { rewrite nth_error_nth' with (d := 0%nat) by (now rewrite length_seq).
      now rewrite seq_nth. }
    destruct (mapM_nth _ _ _ Hv _ _ Hseq) as (v & Hvi & Hvif).
    unfold variance_inflation_factor in Hvif.
    apply bind_ok in Hvif as (fit & Hfit & Hvif); inversion Hvif; subst v.
    exists fit; split.
    + rewrite <- Hfit; f_equal.
      symmetry; apply nth_error_nth; now rewrite nth_error_map, Hi.
    + apply nth_error_combine; [now rewrite nth_error_map, Hi|exact Hvi].
Qed.

(** C7 (as amended): [vif_fama] takes the regressor panel alone.  Its
    table has one line per column of the design matrix
    [add_constant(panel)], in the order of the columns, and the line of a
    column is [1 / (1 - R^2)] of the regression of that column on all the
    other columns of the design, in their order.  When no regressor is a
    non-zero constant the design is the column [const] of ones followed
    by the regressors: the table has the line of [const], from the
    regression of the ones on all the regressors, and then one line per
    regressor, from its regression on the ones and the other regressors.
    When a regressor is a non-zero constant no column is added: the table
    has exactly one line per regressor and none for an intercept. *)
Theorem vif_fama_table lib panel table :
  vif_fama lib panel = Ok table ->
  length table = length (columns (add_constant panel))
  /\ map fst table = map fst (columns (add_constant panel))
  /\ (forall i name col,
         nth_error (columns (add_constant panel)) i = Some (name, col) ->
         exists others fit,
           length others = (length (columns (add_constant panel)) - 1)%nat
           /\ (forall j,
                  nth_error others j
                  = nth_error (map snd (columns (add_constant panel)))
                              (if (j <? i)%nat then j else S j))
           /\ OLS_fit lib col others = Ok fit
           /\ nth_error table i = Some (name, 1 / (1 - rsquared fit)))
  /\ (existsb (fun c => is_nonzero_const (snd c)) (columns panel) = false ->
      length table = S (length (columns panel))
      /\ map fst table = "const"%string :: map fst (columns panel)
      /\ (exists fit,
             OLS_fit lib (repeat 1 (length (index panel)))
                     (map snd (columns panel)) = Ok fit
             /\ nth_error table 0 = Some ("const"%string,
                                          1 / (1 - rsquared fit)))
      /\ forall i name col,
          nth_error (columns panel) i = Some (name, col) ->
          exists others fit,
            length others = length (columns panel)
            /\ nth_error others 0 = Some (repeat 1 (length (index panel)))
            /\ (forall j,
                   nth_error others (S j)
                   = nth_error (map snd (columns panel))
                               (if (j <? i)%nat then j else S j))
            /\ OLS_fit lib col others = Ok fit
            /\ nth_error table (S i) = Some (name, 1 / (1 - rsquared fit)))
  /\ (existsb (fun c => is_nonzero_const (snd c)) (columns panel) = true ->
      length table = length (columns panel)
      /\ map fst table = map fst (columns panel)
      /\ forall i name col,
          nth_error (columns panel) i = Some (name, col) ->
          exists others fit,
            length others = (length (columns panel) - 1)%nat
            /\ (forall j,
                   nth_error others j
                   = nth_error (map snd (columns panel))
                               (if (j <? i)%nat then j else S j))
            /\ OLS_fit lib col others = Ok fit
            /\ nth_error table i = Some (name, 1 / (1 - rsquared fit))).
Proof.
  intros H; destruct (vif_fama_entries lib panel table H) as [Hnames Hrows].
  assert (Hlen : length table = length (columns (add_constant panel)))
    by (rewrite <- (length_map fst table), Hnames; apply length_map).
  assert (Hgen : forall i name col,
    nth_error (columns (add_constant panel)) i = Some (name, col) ->
    exists others fit,
      length others = (length (columns (add_constant panel)) - 1)%nat
      /\ (forall j,
             nth_error others j
             = nth_error (map snd (columns (add_constant panel)))
                         (if (j <? i)%nat then j else S j))
      /\ OLS_fit lib col others = Ok fit
      /\ nth_error table i = Some (name, 1 / (1 - rsquared fit))).
  { intros i name col Hi.
    destruct (Hrows i name col Hi) as (fit & Hfit & Ht).
    exists (remove_nth i (map snd (columns (add_constant panel)))), fit.
    split; [|split; [intros j; apply nth_error_remove_nth|auto]].
    rewrite remove_nth_length; rewrite length_map; [reflexivity|].
    apply nth_error_Some; congruence. }
  split; [exact Hlen|]. split; [exact Hnames|]. split; [exact Hgen|]. split.
  - intros Hno.
    assert (Hd : columns (add_constant panel)
                 = ("const"%string, repeat 1 (length (index panel)))
                     :: columns panel)
      by (unfold add_constant; now rewrite Hno).
    rewrite Hd in Hnames, Hrows, Hgen, Hlen.
    split; [exact Hlen|]. split; [exact Hnames|]. split.
    + destruct (Hrows 0%nat _ _ eq_refl) as (fit & Hfit & Ht).
      exists fit; split; [exact Hfit|exact Ht].
    + intros i name col Hi.
      destruct (Hgen (S i) name col Hi) as (others & fit & Hl & Hnth & Hrest).
      exists others, fit.
      split; [rewrite Hl; cbn [length]; lia|].
      split; [rewrite (Hnth 0%nat); reflexivity|].
      split; [|exact Hrest].
      intros j; rewrite (Hnth (S j)).
      change (S j <? S i)%nat with (j <? i)%nat.
      now destruct (j <? i)%nat.
  - intros Hyes.
    assert (Hd : columns (add_constant panel) = columns panel)
      by (unfold add_constant; now rewrite Hyes).
    rewrite Hd in Hnames, Hgen, Hlen.
    split; [exact Hlen|]. split; [exact Hnames|exact Hgen].
Qed.

Lemma vif_fama_table_witness :
  exists table,
    vif_fama Ref.lib sample_fama_regressor = Ok table
    /\ existsb (fun c => is_nonzero_const (snd c))
               (columns sample_fama_regressor) = false
    /\ length table = 4%nat
    /\ map fst table = ["const"; "ln excess"; "SMB"; "HML"]%string.
Proof.
  destruct (vif_fama Ref.lib sample_fama_regressor) as [table|e] eqn:Hrun;
    [|vm_compute in Hrun; discriminate].
  destruct (vif_fama_table Ref.lib sample_fama_regressor table Hrun)
    as (_ & _ & _ & H & _).
  destruct (H eq_refl) as (Hlen & Hnames & _).
  exists table; repeat split; assumption.
Defined.

(** C7 as stated fails: on a panel whose factor [SMB] is a non-zero
    constant, [add_constant] adds no column, and the table has one line
    for each of the two regressors and none for an intercept term. *)
Lemma vif_fama_no_intercept_line :
  exists table,
    vif_fama Ref.lib panel_with_constant = Ok table
    /\ columns (add_constant panel_with_constant)
       = columns panel_with_constant
    /\ map fst table = ["ln excess"; "SMB"]%string
    /\ length table = length (columns panel_with_constant)
    /\ ~ In "const"%string (map fst table).
Proof.
  exists [("ln excess"%string, 1); ("SMB"%string, 4.5)].
  split; [vm_compute; reflexivity|]. split; [reflexivity|].
  split; [reflexivity|]. split; [reflexivity|].
  intros [H|[H|[]]]; discriminate.
Qed.

(** * Further properties

    Properties of the functions above that go beyond the statements of
    the specification: the exceptions, the edge cases and the way the
    functions compose. *)

(** ** Return Transform: further properties *)

Lemma is_gap_valid x : is_gap x = negb (is_valid x).
Proof. unfold is_gap, is_valid; destruct (eq0 x), (isna x); reflexivity. Qed.

Lemma index_min_unique i rest lo :
  In lo (i :: rest) -> (forall j, In j (i :: rest) -> (lo <= j)%Z) ->
  index_min i rest = lo.
Proof.
  intros Hin Hle; destruct (index_min_spec i rest) as [Hm Hmin].
  specialize (Hle _ Hm); specialize (Hmin _ Hin); lia.
Qed.

Lemma index_max_unique i rest hi :
  In hi (i :: rest) -> (forall j, In j (i :: rest) -> (j <= hi)%Z) ->
  index_max i rest = hi.
Proof.
  intros Hin Hle; destruct (index_max_spec i rest) as [Hm Hmax].
  specialize (Hle _ Hm); specialize (Hmax _ Hin); lia.
Qed.

Section Repair.

Variable pd_mean : list float -> float.

Lemma repair_unfold series i rest :
  map fst (valid_values series) = i :: rest ->
  replace_nans_and_zeros_with_mean pd_mean series
  = map (fun p =>
           if is_gap (snd p) && (index_min i rest <=? fst p)%Z
              && (fst p <=? index_max i rest)%Z
           then (fst p, pd_mean (map snd (valid_values series)))
           else p)
        series.
Proof. unfold replace_nans_and_zeros_with_mean; intros ->; reflexivity. Qed.

Lemma repair_no_valid series :
  map fst (valid_values series) = [] ->
  replace_nans_and_zeros_with_mean pd_mean series = series.
Proof. unfold replace_nans_and_zeros_with_mean; intros ->; reflexivity. Qed.

Lemma valid_in_span series i rest p :
  map fst (valid_values series) = i :: rest ->
  In p series -> is_valid (snd p) = true ->
  (index_min i rest <= fst p <= index_max i rest)%Z.
Proof.
  intros Hv Hin Hp.
  assert (Hl : In (fst p) (i :: rest)).
  { rewrite <- Hv; apply in_map; apply filter_In; auto. }
  split; [apply index_min_spec | apply index_max_spec]; exact Hl.
Qed.

(** The cells of the repaired series, one by one. *)
Lemma repair_cell series k i v :
  nth_error series k = Some (i, v) ->
  exists v',
    nth_error (replace_nans_and_zeros_with_mean pd_mean series) k
    = Some (i, v')
    /\ (is_valid v = true -> v' = v)
    /\ (v' = v \/ v' = pd_mean (map snd (valid_values series))).
Proof.
  intros Hk.
  destruct (map fst (valid_values series)) as [|j rest] eqn:Hv.
  - rewrite repair_no_valid by exact Hv. exists v; auto.
  - rewrite (repair_unfold _ _ _ Hv), nth_error_map, Hk; cbn.
    rewrite is_gap_valid.
    destruct (is_valid v) eqn:Hval; cbn.
    + exists v; auto.
    + destruct ((index_min j rest <=? i)%Z && (i <=? index_max j rest)%Z).
      * eexists; split; [reflexivity|]. split; [discriminate|now right].
      * exists v; auto.
Qed.

Lemma repair_length series :
  length (replace_nans_and_zeros_with_mean pd_mean series) = length series.
Proof.
  destruct (map fst (valid_values series)) as [|j rest] eqn:Hv.
  - now rewrite repair_no_valid.
  - rewrite (repair_unfold _ _ _ Hv); apply length_map.
Qed.

(** With a mean that is itself zero or missing the valid values are the
    same after the repair. *)
Lemma valid_values_gap_mean (lo hi : Z) (m : float) series :
  is_gap m = true ->
  valid_values
    (map (fun p =>
            if is_gap (snd p) && (lo <=? fst p)%Z && (fst p <=? hi)%Z
            then (fst p, m) else p) series)
  = valid_values series.
Proof.
  intros Hm; induction series as [|p s IH]; [reflexivity|].
  unfold valid_values in *; cbn [map filter].
  rewrite IH. rewrite is_gap_valid in *.
  destruct (is_valid (snd p)) eqn:Hp; cbn [negb andb].
  - now rewrite Hp.
  - destruct ((lo <=? fst p)%Z && (fst p <=? hi)%Z); cbn [snd].
    + apply negb_true_iff in Hm; now rewrite Hm.
    + now rewrite Hp.
Qed.

(** X1: repairing a series twice gives the same series as repairing it
    once. *)
Theorem replace_nans_and_zeros_with_mean_idempotent (series : Series) :
  replace_nans_and_zeros_with_mean pd_mean
    (replace_nans_and_zeros_with_mean pd_mean series)
  = replace_nans_and_zeros_with_mean pd_mean series.
Proof.
  destruct (map fst (valid_values series)) as [|i rest] eqn:Hv.
  - rewrite (repair_no_valid _ Hv); now apply repair_no_valid.
  - rewrite (repair_unfold _ _ _ Hv).
    set (lo := index_min i rest). set (hi := index_max i rest).
    set (m := pd_mean (map snd (valid_values series))).
    set (f := fun p : Z * float =>
                if is_gap (snd p) && (lo <=? fst p)%Z && (fst p <=? hi)%Z
                then (fst p, m) else p).
    assert (Hsub : forall p, In p (valid_values series) ->
                             In p (valid_values (map f series))).
    { intros p Hp; apply filter_In in Hp as [Hin Hval].
      apply filter_In; split; [|exact Hval].
      apply in_map_iff; exists p; split; [|exact Hin].
      unfold f; rewrite is_gap_valid, Hval; reflexivity. }
    assert (Hspan : forall j, In j (map fst (valid_values (map f series))) ->
                              (lo <= j <= hi)%Z).
    { intros j Hj; apply in_map_iff in Hj as (q & <- & Hq).
      apply filter_In in Hq as [Hq Hval].
      apply in_map_iff in Hq as (p & <- & Hp).
      unfold f in *.
      destruct (is_gap (snd p) && (lo <=? fst p)%Z && (fst p <=? hi)%Z)
        eqn:Hc.
      - apply andb_prop in Hc as [Hc H2]; apply andb_prop in Hc as [_ H1].
        cbn [fst]; lia.
      - apply (valid_in_span _ _ _ _ Hv Hp Hval). }
    assert (Hlab : forall j, In j (i :: rest) ->
                             In j (map fst (valid_values (map f series)))).
    { intros j Hj; rewrite <- Hv in Hj.
      apply in_map_iff in Hj as (p & <- & Hp); apply in_map; auto. }
    destruct (map fst (valid_values (map f series))) as [|i' rest'] eqn:Hv'.
    { destruct (Hlab i); now left. }
    rewrite (repair_unfold _ _ _ Hv').
    assert (Hlo : index_min i' rest' = lo).
    { apply index_min_unique;
        [apply Hlab, index_min_spec | intros j Hj; now apply Hspan]. }
    assert (Hhi : index_max i' rest' = hi).
    { apply index_max_unique;
        [apply Hlab, index_max_spec | intros j Hj; now apply Hspan]. }
    rewrite Hlo, Hhi, map_map.
    apply map_ext_in; intros p Hp.
    assert (Hfp : f p = if is_gap (snd p) && (lo <=? fst p)%Z
                           && (fst p <=? hi)%Z
                        then (fst p, m) else p) by reflexivity.
    destruct (is_gap (snd p) && (lo <=? fst p)%Z && (fst p <=? hi)%Z) eqn:Hc;
      rewrite Hfp.
    + cbn [fst snd].
      apply andb_prop in Hc as [Hc H2]; apply andb_prop in Hc as [_ H1].
      rewrite H1, H2, !andb_true_r.
      destruct (is_gap m) eqn:Hm; [|reflexivity].
      unfold f; rewrite (valid_values_gap_mean lo hi m series Hm).
      reflexivity.
    + now rewrite Hc.
Qed.

(** X2: when the series has a usable value and the mean of its usable
    values is itself neither zero nor missing, a cell of the repaired
    series is usable exactly when its label lies between the first and
    the last usable label of the input: no gap is left inside that span
    and only gaps are left outside. *)
Theorem repair_closes_the_span (series : Series) :
  let valid := valid_values series in
  let overall_mean := pd_mean (map snd valid) in
  let repaired := replace_nans_and_zeros_with_mean pd_mean series in
  valid <> [] ->
  is_valid overall_mean = true ->
  exists first last,
    In first (map fst valid) /\ In last (map fst valid)
    /\ (forall p, In p repaired ->
                  (is_valid (snd p) = true <-> (first <= fst p <= last)%Z))
    /\ valid_values repaired
       = filter (fun p => (first <=? fst p)%Z && (fst p <=? last)%Z) repaired.
Proof.
  intros valid overall_mean repaired Hne Hm.
  destruct (map fst valid) as [|i rest] eqn:Hv.
  { destruct valid; [now destruct Hne|discriminate]. }
  exists (index_min i rest), (index_max i rest).
  split; [apply index_min_spec|]. split; [apply index_max_spec|].
  assert (Hcells : forall p, In p repaired ->
            (is_valid (snd p) = true
             <-> (index_min i rest <= fst p <= index_max i rest)%Z)).
  { intros q Hq. unfold repaired in Hq.
    rewrite (repair_unfold _ _ _ Hv) in Hq.
    apply in_map_iff in Hq as (p & <- & Hp).
    rewrite is_gap_valid.
    destruct (is_valid (snd p)) eqn:Hval; cbn [negb andb].
    - split; [intros _; now apply (valid_in_span _ _ _ _ Hv Hp)|auto].
    - destruct ((index_min i rest <=? fst p)%Z
                && (fst p <=? index_max i rest)%Z) eqn:Hc; cbn [fst snd].
      + apply andb_prop in Hc as [H1 H2].
        split; [intros _; lia|intros _; exact Hm].
      + rewrite Hval; split; [discriminate|].
        intros [H1 H2]; apply Z.leb_le in H1, H2.
        rewrite H1, H2 in Hc; discriminate. }
  split; [exact Hcells|].
  unfold valid_values; apply filter_ext_in; intros p Hp.
  specialize (Hcells p Hp).
  destruct (is_valid (snd p)).
  - destruct Hcells as [H _]; specialize (H eq_refl) as [H1 H2].
    apply Z.leb_le in H1, H2; now rewrite H1, H2.
  - destruct ((index_min i rest <=? fst p)%Z
              && (fst p <=? index_max i rest)%Z) eqn:Hc; [|reflexivity].
    apply andb_prop in Hc as [H1 H2]; apply Z.leb_le in H1, H2.
    destruct Hcells as [_ H]; apply H; lia.
Qed.

(** X3: when the mean of the usable values is itself zero or missing
    (returns that cancel, infinities), the repair closes no gap: the
    usable values are the same after it and every zero or missing cell is
    still zero or missing. *)
Theorem repair_with_unusable_mean (series : Series) :
  let valid := valid_values series in
  let overall_mean := pd_mean (map snd valid) in
  let repaired := replace_nans_and_zeros_with_mean pd_mean series in
  is_gap overall_mean = true ->
  valid_values repaired = valid
  /\ forall k i v,
      nth_error series k = Some (i, v) -> is_gap v = true ->
      exists v', nth_error repaired k = Some (i, v') /\ is_gap v' = true.
Proof.
  intros valid overall_mean repaired Hm; split.
  - unfold repaired.
    destruct (map fst valid) as [|i rest] eqn:Hv.
    + now rewrite (repair_no_valid _ Hv).
    + rewrite (repair_unfold _ _ _ Hv); now apply valid_values_gap_mean.
  - intros k i v Hk Hgap.
    destruct (repair_cell _ _ _ _ Hk) as (v' & Hk' & _ & Hor).
    exists v'; split; [exact Hk'|].
    destruct Hor as [->| ->]; assumption.
Qed.

End Repair.

Lemma repair_closes_the_span_witness :
  valid_values [(1%Z, 0); (2%Z, 1); (3%Z, nan); (4%Z, 0); (5%Z, 3); (6%Z, nan)]
  <> []
  /\ is_valid (Ref.mean [1; 3]) = true
  /\ exists first last,
      In first [2%Z; 5%Z] /\ In last [2%Z; 5%Z]
      /\ forall p,
          In p [(1%Z, 0); (2%Z, 1); (3%Z, 2); (4%Z, 2); (5%Z, 3); (6%Z, nan)] ->
          (is_valid (snd p) = true <-> (first <= fst p <= last)%Z).
Proof.
  split; [discriminate|]. split; [reflexivity|].
  destruct (repair_closes_the_span Ref.mean
              [(1%Z, 0); (2%Z, 1); (3%Z, nan); (4%Z, 0); (5%Z, 3); (6%Z, nan)])
    as (first & last & H1 & H2 & H3 & _);
    [discriminate|reflexivity|].
  exists first, last; split; [exact H1|]. split; [exact H2|exact H3].
Defined.

Lemma repair_with_unusable_mean_witness :
  is_gap (Ref.mean [1; -1]) = true
  /\ valid_values
       (replace_nans_and_zeros_with_mean Ref.mean
          [(1%Z, 1); (2%Z, 0); (3%Z, -1)])
     = [(1%Z, 1); (3%Z, -1)].
Proof.
  split; [reflexivity|].
  apply (repair_with_unusable_mean Ref.mean [(1%Z, 1); (2%Z, 0); (3%Z, -1)]).
  reflexivity.
Defined.

Lemma range_from_nth start col i x :
  nth_error col i = Some x ->
  nth_error (range_from start col) i = Some ((start + Z.of_nat i)%Z, x).
Proof.
  revert start i; induction col as [|y col IH]; intros start [|i] H;
    try discriminate; cbn in *.
  - inversion H; f_equal; f_equal; lia.
  - rewrite (IH _ _ H); f_equal; f_equal; lia.
Qed.

Lemma range_from_length start col :
  length (range_from start col) = length col.
Proof. revert start; induction col; intros; cbn; auto. Qed.

Lemma date_clash_iff (cols : list (string * list float))
      (f : list float -> list float) :
  existsb (String.eqb "Date")
          (map fst (map (fun c => (fst c, f (snd c))) cols)) = true
  <-> In "Date"%string (map fst cols).
Proof.
  rewrite map_map; cbn [fst]. rewrite existsb_exists; split.
  - intros (x & Hx & E); apply String.eqb_eq in E; now subst.
  - intros H; exists "Date"%string; split; [exact H|apply String.eqb_refl].
Qed.

(** X4: [calculate_log_returns] fails exactly when a value column of the
    price table is itself called Date: [insert(0, 'Date', ...)] then
    raises [ValueError], and the preparation of the returns fails with the
    same exception; with no such column both succeed. *)
Theorem date_column_name_clash (np_log : float -> float)
        (pd_mean : list float -> float) (df : DatedTable) :
  (In "Date"%string (map fst (value_columns df)) ->
   exists e,
     calculate_log_returns np_log df = Raise e
     /\ prepare_returns np_log pd_mean df = Raise e
     /\ exn_cls e = ValueError)
  /\ (~ In "Date"%string (map fst (value_columns df)) ->
      exists out frame,
        calculate_log_returns np_log df = Ok out
        /\ prepare_returns np_log pd_mean df = Ok frame).
Proof.
  unfold prepare_returns, calculate_log_returns; cbv zeta.
  pose proof (date_clash_iff (value_columns df) (log_return_column np_log))
    as Hiff.
  destruct (existsb (String.eqb "Date")
              (map fst (map (fun c => (fst c, log_return_column np_log (snd c)))
                            (value_columns df)))); split; intros H.
  - eexists; repeat split.
  - destruct H; now apply Hiff.
  - apply Hiff in H; discriminate.
  - eexists; eexists; split; reflexivity.
Qed.

(** X5: the frame the analysis cell builds from a price table (log
    returns, first row dropped, gaps repaired, Date as index) is indexed
    by the dates after the first, keeps the names and the order of the
    value columns, has one cell per remaining date when the table is
    rectangular, and its cell at row [i] is the log return
    [np.log(prev / cur)] of the rows [i] and [i+1] of the prices whenever
    that return is neither zero nor missing, and otherwise either that
    return or the mean of the usable returns of the column. *)
Theorem prepare_returns_cells (np_log : float -> float)
        (pd_mean : list float -> float) (df : DatedTable) (frame : DataFrame) :
  prepare_returns np_log pd_mean df = Ok frame ->
  index frame = tl (date_column df)
  /\ map fst (columns frame) = map fst (value_columns df)
  /\ ((forall c, In c (value_columns df) ->
                 length (snd c) = length (date_column df)) ->
      well_formed frame)
  /\ forall k name col,
      nth_error (value_columns df) k = Some (name, col) ->
      exists out,
        nth_error (columns frame) k = Some (name, out)
        /\ length out = pred (length col)
        /\ forall i prev cur,
            nth_error col i = Some prev ->
            nth_error col (S i) = Some cur ->
            exists v,
              nth_error out i = Some v
              /\ (is_valid (np_log (prev / cur)) = true ->
                  v = np_log (prev / cur))
              /\ (v = np_log (prev / cur)
                  \/ v = pd_mean
                           (map snd
                              (valid_values
                                 (range_from 1
                                    (tl (log_return_column np_log col)))))).
Proof.
  unfold prepare_returns, calculate_log_returns; cbv zeta.
  destruct (existsb _ _); [discriminate|].
  cbn [Py.bind]; intros H; inversion H; subst frame; clear H.
  cbn [index columns drop_first_row date_column value_columns].
  split; [reflexivity|].
  split; [rewrite !map_map; reflexivity|].
  split.
  - intros Hrect c Hc.
    cbn [index columns] in *.
    rewrite !map_map in Hc; cbn [fst snd] in Hc.
    apply in_map_iff in Hc as (c0 & <- & Hc0); cbn [snd].
    rewrite length_map, repair_length, range_from_length, !length_tl.
    now rewrite log_return_column_length, (Hrect _ Hc0).
  - intros k name col Hk.
    exists (map snd (replace_nans_and_zeros_with_mean pd_mean
                       (range_from 1 (tl (log_return_column np_log col))))).
    split; [rewrite !nth_error_map, Hk; reflexivity|].
    split.
    + now rewrite length_map, repair_length, range_from_length, length_tl,
        log_return_column_length.
    + intros i prev cur Hprev Hcur.
      pose proof (log_return_column_succ np_log col i prev cur Hprev Hcur)
        as Hr.
      rewrite <- nth_error_tl in Hr.
      apply (range_from_nth 1) in Hr.
      destruct (repair_cell pd_mean _ _ _ _ Hr) as (v & Hv & Hkeep & Hor).
      exists v; split; [now rewrite nth_error_map, Hv|auto].
Qed.

Lemma prepare_returns_cells_witness :
  exists frame,
    prepare_returns Ref.log Ref.mean scenario_prices = Ok frame
    /\ index frame = [Stamp 2; Stamp 3; Stamp 4]
    /\ map fst (columns frame) = ["Fund"%string]
    /\ well_formed frame.
Proof.
  destruct (prepare_returns Ref.log Ref.mean scenario_prices)
    as [frame|e] eqn:Hrun; [|vm_compute in Hrun; discriminate].
  destruct (prepare_returns_cells Ref.log Ref.mean scenario_prices frame Hrun)
    as (Hidx & Hnames & Hwf & _).
  exists frame; split; [reflexivity|]. split; [exact Hidx|].
  split; [exact Hnames|].
  apply Hwf; intros c [<-|[]]; reflexivity.
Defined.

Lemma is_nan_spec x : is_nan x = true -> x = nan.
Proof.
  unfold is_nan; rewrite FloatAxioms.eqb_spec; intros H.
  apply Prim2SF_inj. change (Prim2SF nan) with S754_nan.
  destruct (Prim2SF x) as [s|s| |s m e]; try reflexivity; exfalso.
  - destruct s; discriminate.
  - destruct s; discriminate.
  - unfold SFeqb, SFcompare in H.
    rewrite Z.compare_refl, Pos.compare_refl in H. destruct s; discriminate.
Qed.

Lemma sub_nan_l x : nan - x = nan.
Proof. apply Prim2SF_inj; rewrite sub_spec; reflexivity. Qed.

Lemma sub_nan_r x : x - nan = nan.
Proof.
  apply Prim2SF_inj; rewrite sub_spec. change (Prim2SF nan) with S754_nan.
  unfold SF64sub, SFsub. destruct (Prim2SF x); reflexivity.
Qed.


(** X6: a cell of the excess-return frame that holds a number was
    computed from numbers: the return of that cell is neither missing nor
    zero, the risk-free series has that date with a value that is not
    missing, and the cell is their difference.  A date the risk-free
    series lacks therefore leaves missing cells in the excess frame. *)
Theorem excess_cell_needs_both df1 df_riskfree rfcol raw excess :
  well_formed df_riskfree ->
  is_unique (index df_riskfree) = true ->
  find_column "ln riskfree" (columns df_riskfree) = Some rfcol ->
  excess_returns df1 df_riskfree = Ok (raw, excess) ->
  forall k name col ecol i t r e,
    nth_error (columns df1) k = Some (name, col) ->
    nth_error (columns excess) k = Some (name, ecol) ->
    nth_error (index df1) i = Some t ->
    nth_error col i = Some r ->
    nth_error ecol i = Some e ->
    isna e = false ->
    isna r = false /\ eq0 r = false
    /\ exists v,
        lookup (index df_riskfree) rfcol t = Some v
        /\ In t (index df_riskfree)
        /\ isna v = false
        /\ e = r - v.
Proof.
  intros Hwf Huniq Hrf Hrun k name col ecol i t r e Hk Hke Hi Hr He Hna.
  destruct (excess_returns_run df1 df_riskfree rfcol Hwf Huniq Hrf)
    as [_ Hrun'].
  rewrite Hrun in Hrun'; inversion Hrun'; subst raw excess; clear Hrun'.
  cbn [columns map_columns] in Hke.
  rewrite !nth_error_map, Hk in Hke; cbn [option_map fst snd] in Hke.
  inversion Hke; subst ecol; clear Hke.
  destruct (excess_cell (index df_riskfree) rfcol (index df1) col i t r Hi Hr)
    as (_ & _ & Hcell).
  cbv zeta in Hcell; rewrite Hcell in He; inversion He; subst e; clear He.
  destruct (eq0 r) eqn:Hz.
  { rewrite Hz, isna_nan in Hna; discriminate. }
  destruct (eq0 (r - or_nan (lookup (index df_riskfree) rfcol t))) eqn:Hz';
    [rewrite isna_nan in Hna; discriminate|].
  assert (Hr' : isna r = false).
  { destruct (isna r) eqn:E; [|reflexivity].
    apply is_nan_spec in E; subst r.
    rewrite sub_nan_l, isna_nan in Hna; discriminate. }
  split; [exact Hr'|]. split; [reflexivity|].
  destruct (lookup (index df_riskfree) rfcol t) as [v|] eqn:Hl; cbn in *.
  - exists v; split; [reflexivity|].
    split; [now apply lookup_Some_In in Hl|]. split; [|reflexivity].
    destruct (isna v) eqn:E; [|reflexivity].
    apply is_nan_spec in E; subst v.
    rewrite sub_nan_r, isna_nan in Hna; discriminate.
  - rewrite sub_nan_r, isna_nan in Hna; discriminate.
Qed.

Lemma excess_cell_needs_both_witness :
  well_formed sample_riskfree
  /\ is_unique (index sample_riskfree) = true
  /\ excess_returns sample_returns sample_riskfree
     = Ok (mkFrame [Stamp 1; Stamp 2; Stamp 3]
             [("FundA"%string, [0.5; nan; 0.75]);
              ("FundB"%string, [nan; 0.125; 0.5])],
           mkFrame [Stamp 1; Stamp 2; Stamp 3]
             [("FundA"%string, [nan; nan; 0.5]);
              ("FundB"%string, [nan; nan; 0.25])])
  /\ isna 0.5 = false
  /\ exists v,
      lookup (index sample_riskfree) [0.25; 0.5] (Stamp 3) = Some v
      /\ In (Stamp 3) (index sample_riskfree)
      /\ isna v = false
      /\ 0.5 = 0.75 - v.
Proof.
  split; [exact sample_riskfree_well_formed|]. split; [reflexivity|].
  split; [reflexivity|]. split; [reflexivity|].
  refine (proj2 (proj2
    (excess_cell_needs_both sample_returns sample_riskfree [0.25; 0.5] _ _
       sample_riskfree_well_formed eq_refl eq_refl eq_refl
       0%nat "FundA"%string [0.5; 0; 0.75] [nan; nan; 0.5] 2%nat (Stamp 3)
       0.75 0.5 eq_refl eq_refl eq_refl eq_refl eq_refl eq_refl))).
Defined.

(** ** The exceptions of the aligner *)

Lemma find_column_map_none name cols (f : list float -> list float) :
  find_column name cols = None ->
  find_column name (map (fun c => (fst c, f (snd c))) cols) = None.
Proof. intros H; now rewrite (find_column_map name cols f), H. Qed.

(** X7: the exceptions of the aligner on the first return frame, [df1]
    (its reindexing, subtraction and zero replacement).  It fails only
    with [ValueError], when the risk-free index has duplicate labels and
    is not the index of [df1], or with [KeyError], when the risk-free
    frame has no column [ln riskfree]; each of the two conditions makes
    it fail.  A risk-free frame on the very index of [df1] is used row by
    row, duplicates or not. *)
Theorem excess_returns_errors df1 df_riskfree :
  (forall e,
      excess_returns df1 df_riskfree = Raise e ->
      (exn_cls e = ValueError
       /\ index_equals (index df_riskfree) (index df1) = false
       /\ is_unique (index df_riskfree) = false)
      \/ (exn_cls e = KeyError
          /\ find_column "ln riskfree" (columns df_riskfree) = None))
  /\ (index_equals (index df_riskfree) (index df1) = false ->
      is_unique (index df_riskfree) = false ->
      exists e,
        excess_returns df1 df_riskfree = Raise e /\ exn_cls e = ValueError)
  /\ (find_column "ln riskfree" (columns df_riskfree) = None ->
      exists e, excess_returns df1 df_riskfree = Raise e)
  /\ (forall rfcol,
         index_equals (index df_riskfree) (index df1) = true ->
         find_column "ln riskfree" (columns df_riskfree) = Some rfcol ->
         exists raw excess,
           excess_returns df1 df_riskfree = Ok (raw, excess)
           /\ columns excess
              = map (fun c =>
                       (fst c,
                        replace_zero
                          (where_eq0 (snd c) (subtract (snd c) rfcol))))
                    (columns df1)).
Proof.
  unfold excess_returns, subtract_riskfree, reindex, get_column.
  destruct (index_equals (index df_riskfree) (index df1)) eqn:Heq;
    [|destruct (is_unique (index df_riskfree)) eqn:Hu]; cbn [Py.bind columns].
  - destruct (find_column "ln riskfree" (columns df_riskfree)) as [rf|] eqn:Hf;
      cbn [Py.bind].
    + split; [discriminate|]. split; [discriminate|]. split; [discriminate|].
      intros rfcol _ H; inversion H; subst rfcol.
      eexists; eexists; split; [reflexivity|].
      cbn [columns map_columns]; now rewrite map_map.
    + split; [intros e H; inversion H; right; auto|].
      split; [discriminate|]. split; [eexists; reflexivity|discriminate].
  - rewrite (find_column_map "ln riskfree" (columns df_riskfree)
               (fun col => reindex_values (index df_riskfree) col (index df1))).
    destruct (find_column "ln riskfree" (columns df_riskfree)) as [rf|] eqn:Hf;
      cbn [Py.bind option_map].
    + repeat split; discriminate.
    + split; [intros e H; inversion H; right; auto|].
      split; [discriminate|]. split; [eexists; reflexivity|discriminate].
  - split; [intros e H; inversion H; left; auto|].
    split; [intros _ _; eexists; split; reflexivity|].
    split; [intros _; eexists; reflexivity|discriminate].
Qed.

(** ** From the prices to the frames the regressions read *)

Lemma prepare_returns_run (np_log : float -> float)
      (pd_mean : list float -> float) (df : DatedTable) :
  ~ In "Date"%string (map fst (value_columns df)) ->
  prepare_returns np_log pd_mean df
  = Ok (mkFrame (tl (date_column df))
          (map (fun c =>
                  (fst c,
                   map snd (replace_nans_and_zeros_with_mean pd_mean
                              (range_from 1
                                 (tl (log_return_column np_log (snd c)))))))
               (value_columns df))).
Proof.
  intros Hno; unfold prepare_returns, calculate_log_returns; cbv zeta.
  destruct (existsb _ _) eqn:E.
  - apply date_clash_iff in E; contradiction.
  - cbn [Py.bind drop_first_row date_column value_columns].
    now rewrite !map_map.
Qed.

Lemma aligned_cells_length col other :
  length other = length col ->
  length (replace_zero (where_eq0 col (subtract col other))) = length col.
Proof.
  intros H; unfold replace_zero, where_eq0, subtract.
  rewrite !length_map, length_combine, length_map, length_combine; lia.
Qed.

(** X8: from a rectangular price table without a value column called
    Date and a risk-free frame with distinct dates and a column
    [ln riskfree], the analysis cell produces without exception a raw and
    an excess frame indexed by the dates after the first, with the columns
    of the price table in their order and one cell per date; the index of
    the excess frame has no duplicate when the dates have none.  These are
    the conditions under which the regressions put residuals back on the
    index. *)
Theorem analysis_frames_well_formed (np_log : float -> float)
        (pd_mean : list float -> float) (prices : DatedTable)
        (df_riskfree : DataFrame) (rfcol : list float) :
  (forall c, In c (value_columns prices) ->
             length (snd c) = length (date_column prices)) ->
  ~ In "Date"%string (map fst (value_columns prices)) ->
  well_formed df_riskfree ->
  is_unique (index df_riskfree) = true ->
  find_column "ln riskfree" (columns df_riskfree) = Some rfcol ->
  exists df1 raw excess,
    prepare_returns np_log pd_mean prices = Ok df1
    /\ excess_returns df1 df_riskfree = Ok (raw, excess)
    /\ index raw = tl (date_column prices)
    /\ index excess = tl (date_column prices)
    /\ map fst (columns raw) = map fst (value_columns prices)
    /\ map fst (columns excess) = map fst (value_columns prices)
    /\ well_formed raw
    /\ well_formed excess
    /\ (NoDup (tl (date_column prices)) -> is_unique (index excess) = true).
Proof.
  intros Hrect Hno Hwf Huniq Hrf.
  rewrite (prepare_returns_run np_log pd_mean prices Hno).
  set (df1 := mkFrame _ _).
  destruct (excess_returns_run df1 df_riskfree rfcol Hwf Huniq Hrf)
    as [_ Hrun].
  exists df1; eexists; eexists.
  split; [reflexivity|]. split; [exact Hrun|].
  cbn [index columns map_columns df1].
  split; [reflexivity|]. split; [reflexivity|].
  split; [now rewrite !map_map|]. split; [now rewrite !map_map|].
  assert (Hlen : forall c, In c (value_columns prices) ->
            length (map snd (replace_nans_and_zeros_with_mean pd_mean
                               (range_from 1
                                  (tl (log_return_column np_log (snd c))))))
            = length (tl (date_column prices))).
  { intros c Hc.
    rewrite length_map, repair_length, range_from_length, !length_tl.
    now rewrite log_return_column_length, (Hrect _ Hc). }
  split; [|split].
  - intros c Hc; subst df1; cbn [index columns map_columns] in *.
    rewrite !map_map in Hc; apply in_map_iff in Hc as (c0 & <- & Hc0).
    cbn [fst snd]. unfold replace_zero; rewrite length_map; now apply Hlen.
  - intros c Hc; subst df1; cbn [index columns map_columns] in *.
    rewrite !map_map in Hc; apply in_map_iff in Hc as (c0 & <- & Hc0).
    cbn [fst snd]. rewrite aligned_cells_length; [now apply Hlen|].
    unfold reindex_values; rewrite length_map; symmetry; now apply Hlen.
  - apply NoDup_is_unique.
Qed.

Lemma analysis_frames_well_formed_witness :
  ~ In "Date"%string (map fst (value_columns scenario_prices))
  /\ well_formed sample_riskfree
  /\ exists df1 raw excess,
      prepare_returns Ref.log Ref.mean scenario_prices = Ok df1
      /\ excess_returns df1 sample_riskfree = Ok (raw, excess)
      /\ index excess = [Stamp 2; Stamp 3; Stamp 4]
      /\ map fst (columns excess) = ["Fund"%string]
      /\ well_formed excess.
Proof.
  assert (Hno : ~ In "Date"%string (map fst (value_columns scenario_prices)))
    by (intros [H|[]]; discriminate).
  split; [exact Hno|]. split; [exact sample_riskfree_well_formed|].
  destruct (analysis_frames_well_formed Ref.log Ref.mean scenario_prices
              sample_riskfree [0.25; 0.5])
    as (df1 & raw & excess & H1 & H2 & _ & H4 & _ & H6 & _ & H8 & _).
  - intros c [<-|[]]; reflexivity.
  - exact Hno.
  - exact sample_riskfree_well_formed.
  - reflexivity.
  - reflexivity.
  - exists df1, raw, excess; repeat split; assumption.
Defined.

(** ** Regression Engine: the rows of an estimation *)






Lemma filter_Permutation {A : Type} (p : A -> bool) (l l' : list A) :
  Permutation l l' -> Permutation (filter p l) (filter p l').
Proof.
  induction 1 as [|x l l' _ IH|x y l|l l' l'' _ IH1 _ IH2]; cbn.
  - constructor.
  - destruct (p x); [now constructor|exact IH].
  - destruct (p x), (p y); try reflexivity. apply perm_swap.
  - now transitivity (filter p l').
Qed.

Lemma complete_row_foreign yidx y X xidx :
  filter (complete_row yidx y X)
         (filter (fun t => negb (existsb (label_eqb t) yidx)) xidx) = [].
Proof.
  apply filter_none; intros t Ht; apply filter_In in Ht as [_ Ht].
  apply negb_true_iff, existsb_label_false in Ht.
  unfold complete_row; rewrite (lookup_None yidx y t) by exact Ht.
  cbn [or_nan]; now rewrite isna_nan.
Qed.

(** X9: the rows of an estimation.  With duplicate-free indexes,
    [pd.concat([y, X], axis=1).dropna()] succeeds and keeps, of the
    joined index, exactly the labels at which [y] and every regressor
    have a value that is not missing; the values are those of these
    labels and none is missing.  A label only the regressors have never
    enters the estimation, so the rows are, up to their order, the
    complete rows of [y].  They come in the order of the index of [y]
    when the two indexes are equal, when one of them is empty or when
    they are not both indexes of time stamps; two different indexes of
    time stamps give the rows in ascending order of time. *)
Theorem estimation_rows (yidx : list label) (y : list float) (X : DataFrame) :
  is_unique yidx = true ->
  is_unique (index X) = true ->
  length y = length yidx ->
  well_formed X ->
  exists joined data,
    concat_index yidx (index X) = Ok joined
    /\ concat_dropna yidx y X = Ok data
    /\ data_index data = filter (complete_row yidx y X) joined
    /\ Permutation (data_index data) (filter (complete_row yidx y X) yidx)
    /\ (index_equals yidx (index X) = true
        \/ yidx = [] \/ index X = []
        \/ is_datetime_index yidx && is_datetime_index (index X) = false ->
        data_index data = filter (complete_row yidx y X) yidx)
    /\ (index_equals yidx (index X) = false ->
        yidx <> [] -> index X <> [] ->
        is_datetime_index yidx && is_datetime_index (index X) = true ->
        StronglySorted (fun a b => stamp_leb a b = true) (data_index data))
    /\ y_clean data
       = map (fun t => or_nan (lookup yidx y t)) (data_index data)
    /\ X_clean data
       = map (fun c =>
                (fst c,
                 map (fun t => or_nan (lookup (index X) (snd c) t))
                     (data_index data)))
             (columns X)
    /\ (forall v, In v (y_clean data) -> isna v = false)
    /\ (forall c v, In c (X_clean data) -> In v (snd c) -> isna v = false).
Proof.
  intros Hy HX Hlen Hwf.
  pose proof (is_unique_NoDup _ Hy) as Hnd.
  pose proof (is_unique_NoDup _ HX) as HndX.
  set (fy := fun t => or_nan (lookup yidx y t)).
  set (fc := fun (c : string * list float) t =>
               or_nan (lookup (index X) (snd c) t)).
  set (foreign := filter (fun t => negb (existsb (label_eqb t) yidx))
                         (index X)).
  assert (Hshape : exists joined,
    concat_index yidx (index X) = Ok joined
    /\ concat_dropna yidx y X
       = Ok (let y' := map fy joined in
             let X' := map (fun c => (fst c, map (fc c) joined)) (columns X) in
             let mask := fold_left and_masks
                           (map (fun c => notna_mask (snd c)) X')
                           (notna_mask y') in
             mkData (select mask joined) (select mask y')
                    (map (fun c => (fst c, select mask (snd c))) X'))
    /\ (index_equals yidx (index X) = true /\ joined = yidx
        \/ index_equals yidx (index X) = false
           /\ joined = union_index yidx (index X))).
  { unfold concat_dropna, concat_dropna_with, concat_index, concat_index_with.
    rewrite Hy, HX; cbn [andb].
    destruct (index_equals yidx (index X)) eqn:Heq; cbn [Py.bind]; cbv zeta.
    - exists yidx; split; [reflexivity|]. split; [|now left].
      apply index_equals_eq in Heq.
      assert (Hyy : y = map fy yidx)
        by (symmetry; now apply (reindex_values_self yidx y)).
      assert (Hxx : map (fun c : string * list float => (fst c, snd c))
                        (columns X)
                    = map (fun c => (fst c, map (fc c) yidx)) (columns X)).
      { apply map_ext_in; intros c Hc; f_equal.
        symmetry; unfold fc; rewrite Heq.
        apply (reindex_values_self (index X) (snd c)); [exact HndX|].
        now apply Hwf. }
      rewrite Hxx, <- Hyy; reflexivity.
    - eexists; split; [reflexivity|]. split; [reflexivity|now right]. }
  destruct Hshape as (joined & Hjoined & -> & Hcase).
  destruct (dropna_rows joined fy (columns X) fc) as (Hidx & Hyc & Hxc).
  cbv zeta in *.
  exists joined; eexists; split; [exact Hjoined|]. split; [reflexivity|].
  cbn [data_index y_clean X_clean].
  change (fun t => negb (isna (fy t))
                   && forallb (fun c => negb (isna (fc c t))) (columns X))
    with (complete_row yidx y X) in Hidx, Hyc, Hxc.
  rewrite Hidx, Hyc, Hxc.
  split; [reflexivity|].
  assert (Hplain : filter (complete_row yidx y X) (yidx ++ foreign)
                   = filter (complete_row yidx y X) yidx).
  { rewrite filter_app; unfold foreign.
    rewrite complete_row_foreign; apply app_nil_r. }
  split; [|split; [|split; [|split; [reflexivity|split; [reflexivity|split]]]]].
  - destruct Hcase as [[_ ->]|[_ ->]]; [reflexivity|].
    rewrite <- Hplain; apply filter_Permutation, Permutation_sym.
    apply union_index_perm.
  - intros Horder.
    destruct Hcase as [[_ ->]|[Hne ->]]; [reflexivity|].
    rewrite <- Hplain; f_equal; unfold union_index; fold foreign.
    destruct Horder as [H|[H|[H|H]]].
    + congruence.
    + now rewrite H.
    + rewrite H; now destruct yidx.
    + rewrite H; now destruct yidx, (index X).
  - intros Hne Hy0 Hx0 Hdt.
    destruct Hcase as [[Heq _]|[_ ->]]; [congruence|].
    apply StronglySorted_filter; unfold union_index; fold foreign.
    destruct yidx as [|y0 yidx]; [congruence|].
    destruct (index X) as [|x0 xidx] eqn:HiX; [congruence|].
    rewrite Hdt; apply sort_values_sorted.
    apply andb_prop in Hdt as [Hdy Hdx].
    unfold is_datetime_index in *; rewrite forallb_app, Hdy; cbn [andb].
    rewrite forallb_forall in *; intros t Ht; apply Hdx.
    unfold foreign in Ht; now apply filter_In in Ht as [Ht _].
  - intros v Hv; apply in_map_iff in Hv as (t & <- & Ht).
    apply filter_In in Ht as [_ Ht]; unfold complete_row in Ht.
    apply andb_prop in Ht as [Ht _]; now apply negb_true_iff in Ht.
  - intros c v Hc Hv; apply in_map_iff in Hc as (c0 & <- & Hc0).
    cbn [snd] in Hv; apply in_map_iff in Hv as (t & <- & Ht).
    apply filter_In in Ht as [_ Ht]; unfold complete_row in Ht.
    apply andb_prop in Ht as [_ Ht].
    rewrite forallb_forall in Ht; specialize (Ht _ Hc0).
    now apply negb_true_iff in Ht.
Qed.

Lemma estimation_rows_witness :
  is_unique [Stamp 3; Stamp 1; Stamp 2] = true
  /\ is_unique (index short_fama_regressor) = true
  /\ well_formed short_fama_regressor
  /\ exists joined data,
      concat_index [Stamp 3; Stamp 1; Stamp 2] (index short_fama_regressor)
      = Ok joined
      /\ concat_dropna [Stamp 3; Stamp 1; Stamp 2] [0.5; 0.25; 0.75]
                       short_fama_regressor = Ok data
      /\ joined = [Stamp 1; Stamp 2; Stamp 3]
      /\ data_index data = [Stamp 1; Stamp 2; Stamp 3]
      /\ y_clean data = [0.25; 0.75; 0.5]
      /\ StronglySorted (fun a b => stamp_leb a b = true) (data_index data).
Proof.
  assert (Hwf : well_formed short_fama_regressor)
    by (intros c [<-|[<-|[<-|[]]]]; reflexivity).
  split; [reflexivity|]. split; [reflexivity|]. split; [exact Hwf|].
  destruct (estimation_rows [Stamp 3; Stamp 1; Stamp 2] [0.5; 0.25; 0.75]
              short_fama_regressor eq_refl eq_refl eq_refl Hwf)
    as (joined & data & Hj & Hrun & Hidx & _ & _ & Hsorted & Hyc & _).
  exists joined, data; split; [exact Hj|]. split; [exact Hrun|].
  assert (Hjoined : joined = [Stamp 1; Stamp 2; Stamp 3])
    by (vm_compute in Hj; now inversion Hj).
  split; [exact Hjoined|].
  assert (Hrows : data_index data = [Stamp 1; Stamp 2; Stamp 3])
    by (rewrite Hidx, Hjoined; reflexivity).
  split; [exact Hrows|].
  split; [rewrite Hyc, Hrows; reflexivity|].
  apply Hsorted; [reflexivity|discriminate|discriminate|reflexivity].
Defined.

(** ** Regression Engine: the result tables *)

Lemma mapM_map_eq {A B C : Type} (f : A -> result B) (g : B -> C)
      (h : A -> C) (l : list A) (bs : list B) :
  mapM f l = Ok bs ->
  (forall a b, In a l -> f a = Ok b -> g b = h a) ->
  map g bs = map h l.
Proof.
  revert bs; induction l as [|a l IH]; intros bs H Hgh; cbn in H.
  - now inversion H.
  - apply bind_ok in H as (b & Hb & H).
    apply bind_ok in H as (bs' & Hbs & H); inversion H; subst bs; cbn.
    f_equal; [apply Hgh; [now left|exact Hb]|].
    apply IH; [exact Hbs|]. intros; apply Hgh; [now right|assumption].
Qed.

Lemma map_snd_combine_same {A B : Type} (l : list A) (l' : list B) :
  length l = length l' -> map snd (combine l l') = l'.
Proof.
  revert l'; induction l as [|a l IH]; intros [|b l'] H; try discriminate;
    cbn; [reflexivity|].
  f_equal; apply IH; now inversion H.
Qed.

Lemma nth_error_seq_combine {B : Type} (names : list B) i name :
  nth_error names i = Some name ->
  nth_error (combine (seq 0 (length names)) names) i = Some (i, name).
Proof.
  intros H; apply nth_error_combine; [|exact H].
  assert (Hlt : (i < length names)%nat) by (apply nth_error_Some; congruence).
  rewrite nth_error_nth' with (d := 0%nat) by (now rewrite length_seq).
  now rewrite seq_nth.
Qed.

Lemma capm_column_row lib T X column f :
  capm_column lib T X column = Ok f ->
  exists data r,
    estimation_of lib T X column data r
    /\ capm_fund (fit_row f) = fst column
    /\ nth_error (params r) 0 = Some (capm_alpha (fit_row f))
    /\ nth_error (params r) 1 = Some (capm_beta (fit_row f))
    /\ nth_error (pvalues r) 0 = Some (capm_p_alpha (fit_row f))
    /\ nth_error (pvalues r) 1 = Some (capm_p_beta (fit_row f))
    /\ capm_rsquared (fit_row f) = rsquared r
    /\ nth_error (conf_int r) 0 = Some (capm_ci_alpha (fit_row f))
    /\ nth_error (conf_int r) 1 = Some (capm_ci_beta (fit_row f)).
Proof.
  unfold capm_column; intros H.
  apply bind_ok in H as (data & Hdata & H).
  apply concat_dropna_with_ok in Hdata.
  apply bind_ok in H as (r & Hr & H).
  apply bind_ok in H as (alpha & Halpha & H).
  apply bind_ok in H as (beta & Hbeta & H).
  apply bind_ok in H as (p_alpha & Hpa & H).
  apply bind_ok in H as (p_beta & Hpb & H).
  apply bind_ok in H as (ci_alpha & Hca & H).
  apply bind_ok in H as (ci_beta & Hcb & H).
  bind_inv H. inversion H; subst f.
  cbn [fit_row capm_fund capm_alpha capm_beta capm_p_alpha capm_p_beta
       capm_rsquared capm_ci_alpha capm_ci_beta].
  exists data, r. split; [split; assumption|].
  apply item_inv in Halpha, Hbeta, Hpa, Hpb, Hca, Hcb.
  repeat split; auto.
Qed.

Lemma fama_column_row lib T X column f :
  fama_column lib T X column = Ok f ->
  exists data r,
    estimation_of lib T X column data r
    /\ fama_fund (fit_row f) = fst column
    /\ nth_error (params r) 0 = Some (fama_alpha (fit_row f))
    /\ nth_error (pvalues r) 0 = Some (fama_p_alpha (fit_row f))
    /\ fama_rsquared (fit_row f) = rsquared r
    /\ fama_model_p (fit_row f) = f_pvalue r
    /\ nth_error (conf_int r) 0 = Some (fama_ci_alpha (fit_row f))
    /\ map beta_regressor (fama_betas (fit_row f)) = map fst (columns X)
    /\ forall i name,
        nth_error (map fst (columns X)) i = Some name ->
        exists b,
          nth_error (fama_betas (fit_row f)) i = Some b
          /\ beta_regressor b = name
          /\ nth_error (params r) (i + 1) = Some (beta_value b)
          /\ nth_error (pvalues r) (i + 1) = Some (beta_p b)
          /\ nth_error (conf_int r) (i + 1) = Some (beta_ci b).
Proof.
  unfold fama_column; intros H.
  apply bind_ok in H as (data & Hdata & H).
  apply bind_ok in H as (r & Hr & H).
  apply bind_ok in H as (alpha & Halpha & H).
  apply bind_ok in H as (p_alpha & Hp & H).
  apply bind_ok in H as (ci_alpha & Hci & H).
  apply bind_ok in H as (betas & Hbetas & H).
  bind_inv H. inversion H; subst f.
  cbn [fit_row fama_fund fama_alpha fama_p_alpha fama_rsquared fama_model_p
       fama_ci_alpha fama_betas].
  exists data, r. split; [split; assumption|].
  apply item_inv in Halpha, Hp, Hci.
  do 6 (split; [auto|]).
  rewrite <- (length_map fst (columns X)) in Hbetas.
  split.
  - rewrite (mapM_map_eq _ beta_regressor snd _ _ Hbetas).
    + apply map_snd_combine_same; now rewrite length_seq.
    + intros [i name] b _ Hb; cbn [fst snd] in Hb.
      bind_inv Hb; inversion Hb; reflexivity.
  - intros i name Hi.
    destruct (mapM_nth _ _ _ Hbetas _ _ (nth_error_seq_combine _ _ _ Hi))
      as (b & Hbi & Hb).
    cbn [fst snd] in Hb.
    apply bind_ok in Hb as (bv & Hbv & Hb).
    apply bind_ok in Hb as (bp & Hbp & Hb).
    apply bind_ok in Hb as (bc & Hbc & Hb).
    inversion Hb; subst b; cbn.
    apply item_inv in Hbv, Hbp, Hbc.
    eexists; split; [exact Hbi|]. cbn. auto.
Qed.

Lemma loop_names {Row : Type} (cols : list (string * list float))
      (body : string * list float -> result (Fitted Row))
      (fits : list (string * Fitted Row)) :
  mapM (fun column => f <- body column ;; Ok (fst column, f)) cols = Ok fits ->
  map fst fits = map fst cols.
Proof.
  intros H; apply (mapM_map_eq _ fst fst _ _ H).
  intros a b _ Hb; apply bind_ok in Hb as (f & _ & Hb); now inversion Hb.
Qed.

(** X10: the outputs of [regression_capm].  The three sheets are appended
    to the writer in the order CAPM Results, Residuals, Fitted Values; the
    result table, the residual frame and the fitted-value frame list the
    funds in the order of the input columns; and the line of a fund holds
    the coefficients 0 and 1, their p-values and confidence bounds and
    the R-squared of the fit on the rows of its estimation. *)
Theorem regression_capm_table lib T Xc writer rows residuals_df
        fitted_values_df writer' :
  regression_capm lib T Xc writer
  = Ok ((rows, residuals_df, fitted_values_df), writer') ->
  writer' = writer ++ ["CAPM Results"; "Residuals"; "Fitted Values"]%string
  /\ map capm_fund rows = map fst (columns T)
  /\ map fst (columns residuals_df) = map fst (columns T)
  /\ map fst (columns fitted_values_df) = map fst (columns T)
  /\ forall k column,
      nth_error (columns T) k = Some column ->
      exists xcol data r row,
        find_column "ln excess" (columns Xc) = Some xcol
        /\ estimation_of lib T
             (mkFrame (index Xc) [("ln excess"%string, xcol)]) column data r
        /\ nth_error rows k = Some row
        /\ capm_fund row = fst column
        /\ nth_error (params r) 0 = Some (capm_alpha row)
        /\ nth_error (params r) 1 = Some (capm_beta row)
        /\ nth_error (pvalues r) 0 = Some (capm_p_alpha row)
        /\ nth_error (pvalues r) 1 = Some (capm_p_beta row)
        /\ capm_rsquared row = rsquared r
        /\ nth_error (conf_int r) 0 = Some (capm_ci_alpha row)
        /\ nth_error (conf_int r) 1 = Some (capm_ci_beta row).
Proof.
  unfold regression_capm; intros H.
  apply bind_ok in H as (xcol & Hx & H).
  apply bind_ok in H as (fits & Hfits & H).
  unfold collect in H; inversion H; subst; clear H.
  cbn [columns].
  split; [reflexivity|].
  split.
  { rewrite map_map.
    apply (mapM_map_eq _ (fun f => capm_fund (fit_row (snd f))) fst _ _ Hfits).
    intros a b _ Hb; apply bind_ok in Hb as (f & Hf & Hb); inversion Hb.
    cbn [snd]. apply capm_column_row in Hf as (? & ? & _ & Hn & _); exact Hn. }
  split; [rewrite map_map; cbn [fst]; exact (loop_names _ _ _ Hfits)|].
  split; [rewrite map_map; cbn [fst]; exact (loop_names _ _ _ Hfits)|].
  intros k column Hk.
  destruct (collect_columns T _ fits Hfits k column Hk)
    as (f & Hf & Hrow & _).
  apply capm_column_row in Hf as (data & r & Hest & Hrest).
  exists xcol, data, r, (fit_row f).
  split; [now apply get_column_inv|]. split; [exact Hest|].
  split; [exact Hrow|exact Hrest].
Qed.

Lemma regression_capm_table_witness :
  exists rows residuals_df fitted_values_df writer',
    regression_capm Ref.lib sample_excess sample_capm_regressor
                    ["Descriptive Statistics"%string]
    = Ok ((rows, residuals_df, fitted_values_df), writer')
    /\ writer' = ["Descriptive Statistics"; "CAPM Results"; "Residuals";
                  "Fitted Values"]%string
    /\ map capm_fund rows = ["FundA"; "FundB"]%string
    /\ map fst (columns residuals_df) = ["FundA"; "FundB"]%string.
Proof.
  destruct (regression_capm Ref.lib sample_excess sample_capm_regressor
              ["Descriptive Statistics"%string])
    as [[[[rows res] fit] writer']|e] eqn:Hrun;
    [|vm_compute in Hrun; discriminate].
  destruct (regression_capm_table Ref.lib sample_excess sample_capm_regressor
              _ rows res fit writer' Hrun) as (H1 & H2 & H3 & _).
  exists rows, res, fit, writer'; repeat split; assumption.
Defined.

(** X11: the outputs of [regression_fama].  The sheets Fama Results,
    Residuals, Fitted Values are appended in that order, the three tables
    list the funds in the order of the input columns, and the line of a
    fund holds the intercept (coefficient 0), its p-value and bounds, the
    R-squared and the p-value of the F test of the fit, and one beta per
    column of the regressor frame, named after it and in its order, with
    the coefficient, p-value and bounds at position [i + 1]. *)
Theorem regression_fama_table lib T Xf writer rows residuals_df
        fitted_values_df writer' :
  regression_fama lib T Xf writer
  = Ok ((rows, residuals_df, fitted_values_df), writer') ->
  writer' = writer ++ ["Fama Results"; "Residuals"; "Fitted Values"]%string
  /\ map fama_fund rows = map fst (columns T)
  /\ map fst (columns residuals_df) = map fst (columns T)
  /\ map fst (columns fitted_values_df) = map fst (columns T)
  /\ forall k column,
      nth_error (columns T) k = Some column ->
      exists data r row,
        estimation_of lib T Xf column data r
        /\ nth_error rows k = Some row
        /\ fama_fund row = fst column
        /\ nth_error (params r) 0 = Some (fama_alpha row)
        /\ nth_error (pvalues r) 0 = Some (fama_p_alpha row)
        /\ fama_rsquared row = rsquared r
        /\ fama_model_p row = f_pvalue r
        /\ nth_error (conf_int r) 0 = Some (fama_ci_alpha row)
        /\ map beta_regressor (fama_betas row) = map fst (columns Xf)
        /\ forall i name,
            nth_error (map fst (columns Xf)) i = Some name ->
            exists b,
              nth_error (fama_betas row) i = Some b
              /\ beta_regressor b = name
              /\ nth_error (params r) (i + 1) = Some (beta_value b)
              /\ nth_error (pvalues r) (i + 1) = Some (beta_p b)
              /\ nth_error (conf_int r) (i + 1) = Some (beta_ci b).
Proof.
  unfold regression_fama; cbv zeta; intros H.
  apply bind_ok in H as (fits & Hfits & H).
  unfold collect in H; inversion H; subst; clear H.
  cbn [columns].
  split; [reflexivity|].
  split.
  { rewrite map_map.
    apply (mapM_map_eq _ (fun f => fama_fund (fit_row (snd f))) fst _ _ Hfits).
    intros a b _ Hb; apply bind_ok in Hb as (f & Hf & Hb); inversion Hb.
    cbn [snd]. apply fama_column_row in Hf as (? & ? & _ & Hn & _); exact Hn. }
  split; [rewrite map_map; cbn [fst]; exact (loop_names _ _ _ Hfits)|].
  split; [rewrite map_map; cbn [fst]; exact (loop_names _ _ _ Hfits)|].
  intros k column Hk.
  destruct (collect_columns T _ fits Hfits k column Hk)
    as (f & Hf & Hrow & _).
  apply fama_column_row in Hf as (data & r & Hest & Hrest).
  exists data, r, (fit_row f).
  split; [exact Hest|]. split; [exact Hrow|exact Hrest].
Qed.

Lemma regression_fama_table_witness :
  exists rows residuals_df fitted_values_df writer',
    regression_fama Ref.lib sample_excess sample_fama_regressor []
    = Ok ((rows, residuals_df, fitted_values_df), writer')
    /\ writer' = ["Fama Results"; "Residuals"; "Fitted Values"]%string
    /\ map fama_fund rows = ["FundA"; "FundB"]%string
    /\ map (fun row => map beta_regressor (fama_betas row)) rows
       = [["ln excess"; "SMB"; "HML"]; ["ln excess"; "SMB"; "HML"]]%string.
Proof.
  destruct (regression_fama Ref.lib sample_excess sample_fama_regressor [])
    as [[[[rows res] fit] writer']|e] eqn:Hrun;
    [|vm_compute in Hrun; discriminate].
  destruct (regression_fama_table Ref.lib sample_excess sample_fama_regressor
              _ rows res fit writer' Hrun) as (H1 & H2 & _ & _ & H5).
  exists rows, res, fit, writer'.
  split; [reflexivity|]. split; [exact H1|]. split; [exact H2|].
  destruct (H5 0%nat _ eq_refl) as (_ & _ & row0 & _ & Hr0 & _ & _ & _ & _
                                    & _ & _ & Hb0 & _).
  destruct (H5 1%nat _ eq_refl) as (_ & _ & row1 & _ & Hr1 & _ & _ & _ & _
                                    & _ & _ & Hb1 & _).
  assert (Hlen : length rows = 2%nat)
    by (rewrite <- (length_map fama_fund), H2; reflexivity).
  destruct rows as [|a [|b [|c rows]]]; try discriminate.
  cbn in Hr0, Hr1; inversion Hr0; inversion Hr1; subst.
  cbn [map]; now rewrite Hb0, Hb1.
Defined.

(** ** Regression Engine: a regressor that is constant on the rows of
    the estimation *)

Lemma concat_dropna_regressors yidx y X data :
  concat_dropna yidx y X = Ok data ->
  length (X_clean data) = length (columns X).
Proof.
  unfold concat_dropna; intros H.
  apply bind_ok in H as (joined & _ & H); inversion H; subst data.
  cbn [X_clean]; now rewrite !length_map.
Qed.

Lemma design_matrix_skipped data :
  existsb (fun c => is_nonzero_const (snd c)) (X_clean data) = true ->
  columns (design_matrix data) = X_clean data.
Proof.
  unfold design_matrix, add_constant; cbn [columns]; now intros ->.
Qed.

Lemma item_out_of_range {A : Type} what (l : list A) i :
  (length l <= i)%nat ->
  exists e, item what l i = Raise e /\ exn_cls e = IndexError.
Proof.
  intros H; unfold item.
  destruct (nth_error l i) eqn:E.
  - assert (i < length l)%nat by (apply nth_error_Some; congruence). lia.
  - eexists; split; reflexivity.
Qed.

Ltac item_or_raise what l i :=
  let a := fresh "a" in
  let e := fresh "e" in
  let E := fresh "E" in
  destruct (item what l i) as [a|e] eqn:E;
  [cbn [Py.bind]
  |exists e; split; [reflexivity|exact (item_raise _ _ _ _ E)]].

(** X12: when a regressor is a non-zero constant on the rows of the
    estimation (as with a single observation), [add_constant] adds no
    column, the fit has as many coefficients as regressors, and reading
    the last beta fails: the pass of [regression_fama], and that of
    [regression_capm] with its single regressor, raise [IndexError]. *)
Theorem constant_regressor_index_error lib T X column data r :
  estimation_of lib T X column data r ->
  existsb (fun c => is_nonzero_const (snd c)) (X_clean data) = true ->
  length (params r) = length (columns (design_matrix data)) ->
  columns X <> [] ->
  columns (design_matrix data) = X_clean data
  /\ (exists e,
         fama_column lib T X column = Raise e /\ exn_cls e = IndexError)
  /\ (length (columns X) = 1%nat ->
      exists e,
        capm_column lib T X column = Raise e /\ exn_cls e = IndexError).
Proof.
  intros [Hdata Hfit] Hconst Hlen Hne.
  pose proof (design_matrix_skipped data Hconst) as Hdesign.
  rewrite Hdesign, (concat_dropna_regressors _ _ _ _ Hdata) in Hlen.
  split; [exact Hdesign|]. split.
  - unfold fama_column; rewrite Hdata; cbn [Py.bind]; rewrite Hfit;
      cbn [Py.bind].
    item_or_raise "params[0]"%string (params r) 0%nat.
    item_or_raise "pvalues[0]"%string (pvalues r) 0%nat.
    item_or_raise "conf_int().iloc[0]"%string (conf_int r) 0%nat.
    match goal with
    | |- context [mapM ?f ?l] => destruct (mapM f l) as [betas|e] eqn:Hb
    end; cbn [Py.bind].
    + exfalso.
      set (n := length (columns X)) in *.
      assert (Hn : (0 < n)%nat)
        by (unfold n; destruct (columns X); [now destruct Hne|cbn; lia]).
      destruct (nth_error (map fst (columns X)) (n - 1)) as [name|] eqn:Hname.
      2:{ apply nth_error_None in Hname; rewrite length_map in Hname.
          fold n in Hname; lia. }
      pose proof (nth_error_seq_combine _ _ _ Hname) as Hin.
      rewrite length_map in Hin; fold n in Hin.
      destruct (mapM_nth _ _ _ Hb _ _ Hin) as (b & _ & Hbody).
      cbn [fst snd] in Hbody.
      apply bind_ok in Hbody as (bv & Hbv & _).
      apply item_inv in Hbv.
      assert (n - 1 + 1 < length (params r))%nat
        by (apply nth_error_Some; congruence).
      lia.
    + apply mapM_raise in Hb as ([i name] & _ & Hb); cbn [fst snd] in Hb.
      exists e; split; [reflexivity|].
      apply bind_raise in Hb as [Hb|(? & _ & Hb)];
        [exact (item_raise _ _ _ _ Hb)|].
      apply bind_raise in Hb as [Hb|(? & _ & Hb)];
        [exact (item_raise _ _ _ _ Hb)|].
      apply bind_raise in Hb as [Hb|(? & _ & Hb)];
        [exact (item_raise _ _ _ _ Hb)|discriminate].
  - intros Hone.
    apply (concat_dropna_with_ok series_duplicates) in Hdata.
    unfold capm_column; rewrite Hdata; cbn [Py.bind]; rewrite Hfit;
      cbn [Py.bind].
    item_or_raise "params[0]"%string (params r) 0%nat.
    destruct (item_out_of_range "params[1]"%string (params r) 1%nat)
      as (e & -> & He); [lia|].
    exists e; split; [reflexivity|exact He].
Qed.

Lemma constant_regressor_index_error_witness :
  exists data r e,
    estimation_of Ref.lib single_excess single_regressor
                  ("FundA"%string, [0.5; nan]) data r
    /\ data_index data = [Stamp 1]
    /\ X_clean data = [("ln excess"%string, [0.25])]
    /\ length (params r) = 1%nat
    /\ capm_column Ref.lib single_excess single_regressor
                   ("FundA"%string, [0.5; nan]) = Raise e
    /\ exn_cls e = IndexError.
Proof.
  destruct (concat_dropna (index single_excess) [0.5; nan] single_regressor)
    as [data|e] eqn:Hd; [|vm_compute in Hd; discriminate].
  assert (Hdata : data = mkData [Stamp 1] [0.5]
                           [("ln excess"%string, [0.25])])
    by (vm_compute in Hd; now inversion Hd).
  destruct (OLS_fit Ref.lib (y_clean data)
                    (map snd (columns (design_matrix data))))
    as [r|e] eqn:Hr; [|rewrite Hdata in Hr; vm_compute in Hr; discriminate].
  assert (Hlen : length (params r) = 1%nat)
    by (rewrite Hdata in Hr; vm_compute in Hr; now inversion Hr).
  destruct (constant_regressor_index_error Ref.lib single_excess
              single_regressor ("FundA"%string, [0.5; nan]) data r
              (conj Hd Hr))
    as (_ & _ & Hcapm).
  - rewrite Hdata; reflexivity.
  - rewrite Hlen, Hdata; reflexivity.
  - discriminate.
  - destruct (Hcapm eq_refl) as (e & He & Hcls).
    exists data, r, e. split; [split; assumption|].
    rewrite Hdata; repeat split; assumption.
Defined.

(** ** Regression Engine: a column that cannot be fitted *)

Lemma mapM_first_failure {A B : Type} (f : A -> result B) pre a post e :
  (forall x, In x pre -> exists b, f x = Ok b) ->
  f a = Raise e ->
  mapM f (pre ++ a :: post) = Raise e.
Proof.
  induction pre as [|x pre IH]; intros Hpre Ha; cbn.
  - now rewrite Ha.
  - destruct (Hpre x) as (b & ->); [now left|]; cbn.
    rewrite IH; [reflexivity| |exact Ha].
    intros; apply Hpre; now right.
Qed.

Lemma mapM_raise_split {A B : Type} (f : A -> result B) l e :
  mapM f l = Raise e ->
  exists pre a post,
    l = pre ++ a :: post
    /\ (forall x, In x pre -> exists b, f x = Ok b)
    /\ f a = Raise e.
Proof.
  induction l as [|x l IH]; cbn; [discriminate|].
  destruct (f x) as [b|e'] eqn:Hx; cbn.
  - destruct (mapM f l) as [bs|e'] eqn:Hl; cbn; [discriminate|].
    intros H; inversion H; subst e'.
    destruct (IH eq_refl) as (pre & a & post & -> & Hpre & Ha).
    exists (x :: pre), a, post; split; [reflexivity|]. split; [|exact Ha].
    intros y [<-|Hy]; [eauto|now apply Hpre].
  - intros H; inversion H; subst e'.
    exists [], x, l; split; [reflexivity|]. split; [intros ? []|exact Hx].
Qed.

Lemma loop_first_failure {Row : Type}
      (body : string * list float -> result (Fitted Row)) cols e :
  mapM (fun column => f <- body column ;; Ok (fst column, f)) cols = Raise e
  <-> exists pre c post,
      cols = pre ++ c :: post
      /\ (forall c', In c' pre -> exists f, body c' = Ok f)
      /\ body c = Raise e.
Proof.
  split.
  - intros H; apply mapM_raise_split in H as (pre & c & post & -> & Hpre & Hc).
    exists pre, c, post; split; [reflexivity|]. split.
    + intros c' Hc'; destruct (Hpre c' Hc') as (b & Hb).
      apply bind_ok in Hb as (f & Hf & _); eauto.
    + apply bind_raise in Hc as [Hc|(f & _ & Hc)]; [exact Hc|discriminate].
  - intros (pre & c & post & -> & Hpre & Hc).
    apply mapM_first_failure.
    + intros c' Hc'; destruct (Hpre c' Hc') as (f & ->); cbn; eauto.
    + now rewrite Hc.
Qed.

(** X13: a regression function raises exactly when the pass of some
    column raises and the passes of all columns before it succeed (for
    [regression_capm], also when the regressor frame has no column
    [ln excess]); it then raises the exception of that pass and returns
    no table. *)
Theorem regression_aborts_on_first_failure lib T X writer e :
  (regression_fama lib T X writer = Raise e
   <-> exists pre c post,
       columns T = pre ++ c :: post
       /\ (forall c', In c' pre -> exists f, fama_column lib T X c' = Ok f)
       /\ fama_column lib T X c = Raise e)
  /\ (regression_capm lib T X writer = Raise e
      <-> get_column X "ln excess" = Raise e
          \/ exists xcol pre c post,
              find_column "ln excess" (columns X) = Some xcol
              /\ columns T = pre ++ c :: post
              /\ (forall c', In c' pre ->
                    exists f,
                      capm_column lib T
                        (mkFrame (index X) [("ln excess"%string, xcol)]) c'
                      = Ok f)
              /\ capm_column lib T
                   (mkFrame (index X) [("ln excess"%string, xcol)]) c
                 = Raise e).
Proof.
  split.
  - rewrite <- loop_first_failure.
    unfold regression_fama; cbv zeta.
    destruct (mapM _ (columns T)) as [fits|e']; cbn [Py.bind];
      split; intros H; try discriminate; inversion H; reflexivity.
  - unfold regression_capm, get_column.
    destruct (find_column "ln excess" (columns X)) as [xcol|] eqn:Hx;
      cbn [Py.bind].
    + split.
      * intros H; right; exists xcol.
        destruct (mapM _ (columns T)) as [fits|e'] eqn:Hl; cbn [Py.bind] in H;
          [discriminate|].
        inversion H; subst e'.
        apply loop_first_failure in Hl as (pre & c & post & H1 & H2 & H3).
        exists pre, c, post; auto.
      * intros [H|(xcol' & pre & c & post & Hx' & H1 & H2 & H3)];
          [discriminate|].
        inversion Hx'; subst xcol'.
        assert (Hl : mapM (fun column =>
                             f <- capm_column lib T
                                    (mkFrame (index X)
                                       [("ln excess"%string, xcol)]) column ;;
                             Ok (fst column, f)) (columns T) = Raise e)
          by (apply loop_first_failure; exists pre, c, post; auto).
        now rewrite Hl.
    + split; [intros H; left; inversion H; reflexivity|].
      intros [H|(xcol' & _ & _ & _ & Hx' & _)];
        [inversion H; reflexivity|discriminate].
Qed.

Lemma regression_aborts_on_first_failure_witness :
  exists e,
    capm_column Ref.lib single_excess
                (mkFrame (index single_regressor)
                         [("ln excess"%string, [0.25; 0.5])])
                ("FundA"%string, [0.5; nan]) = Raise e
    /\ regression_capm Ref.lib single_excess single_regressor
                       ["Descriptive Statistics"%string] = Raise e.
Proof.
  destruct (capm_column Ref.lib single_excess
              (mkFrame (index single_regressor)
                       [("ln excess"%string, [0.25; 0.5])])
              ("FundA"%string, [0.5; nan])) as [f|e] eqn:Hc;
    [vm_compute in Hc; discriminate|].
  exists e; split; [reflexivity|].
  apply (proj2 (proj2 (regression_aborts_on_first_failure Ref.lib
                         single_excess single_regressor
                         ["Descriptive Statistics"%string] e))).
  right; exists [0.25; 0.5], [], ("FundA"%string, [0.5; nan]), [].
  split; [reflexivity|]. split; [reflexivity|].
  split; [intros ? []|exact Hc].
Defined.

(** ** Regression Engine: the CAPM as a one-factor model *)

Lemma mapM_related {A B B' : Type} (f : A -> result B) (f' : A -> result B')
      (R : B -> B' -> Prop) (l : list A) (bs : list B) :
  mapM f l = Ok bs ->
  (forall a b, f a = Ok b -> exists b', f' a = Ok b' /\ R b b') ->
  exists bs', mapM f' l = Ok bs' /\ Forall2 R bs bs'.
Proof.
  intros H Hrel; revert bs H; induction l as [|a l IH]; intros bs H;
    cbn in *.
  - inversion H; exists []; split; [reflexivity|constructor].
  - apply bind_ok in H as (b & Hb & H).
    apply bind_ok in H as (bs0 & Hbs & H); inversion H; subst bs.
    destruct (Hrel a b Hb) as (b' & -> & Hr).
    destruct (IH bs0 Hbs) as (bs' & -> & Hrs).
    exists (b' :: bs'); split; [reflexivity|now constructor].
Qed.

Lemma Forall2_map_eq {A B C : Type} (R : A -> B -> Prop) (g : A -> C)
      (g' : B -> C) (l : list A) (l' : list B) :
  Forall2 R l l' -> (forall a b, R a b -> g a = g' b) -> map g l = map g' l'.
Proof.
  intros H Hg; induction H as [|a b l l' Hab _ IH]; cbn; [reflexivity|].
  now rewrite (Hg a b Hab), IH.
Qed.

Lemma Forall2_map_rel {A B C D : Type} (R : A -> B -> Prop)
      (R' : C -> D -> Prop) (g : A -> C) (g' : B -> D)
      (l : list A) (l' : list B) :
  Forall2 R l l' -> (forall a b, R a b -> R' (g a) (g' b)) ->
  Forall2 R' (map g l) (map g' l').
Proof.
  intros H Hg; induction H as [|a b l l' Hab _ IH]; cbn; constructor; auto.
Qed.

Lemma item_of_nth {A : Type} what (l : list A) i a :
  nth_error l i = Some a -> item what l i = Ok a.
Proof. unfold item; now intros ->. Qed.

Lemma capm_column_as_fama lib T xidx xcol c f :
  capm_column lib T (mkFrame xidx [("ln excess"%string, xcol)]) c = Ok f ->
  exists model_p,
    fama_column lib T (mkFrame xidx [("ln excess"%string, xcol)]) c
    = Ok (mkFitted
            (mkFamaRow (capm_fund (fit_row f)) (capm_alpha (fit_row f))
               (capm_p_alpha (fit_row f)) (capm_rsquared (fit_row f))
               model_p (capm_ci_alpha (fit_row f))
               [mkFamaBeta "ln excess" (capm_beta (fit_row f))
                           (capm_p_beta (fit_row f))
                           (capm_ci_beta (fit_row f))])
            (fit_index f) (fit_residuals f) (fit_fitted_values f)).
Proof.
  unfold capm_column; intros H.
  apply bind_ok in H as (data & Hdata & H).
  apply concat_dropna_with_ok in Hdata.
  apply bind_ok in H as (r & Hr & H).
  apply bind_ok in H as (alpha & Halpha & H).
  apply bind_ok in H as (beta & Hbeta & H).
  apply bind_ok in H as (p_alpha & Hpa & H).
  apply bind_ok in H as (p_beta & Hpb & H).
  apply bind_ok in H as (ci_alpha & Hca & H).
  apply bind_ok in H as (ci_beta & Hcb & H).
  apply bind_ok in H as (res & Hres & H).
  apply bind_ok in H as (fit & Hfit & H).
  inversion H; subst f; clear H.
  exists (f_pvalue r); unfold fama_column.
  rewrite Hdata; cbn [Py.bind]. rewrite Hr; cbn [Py.bind].
  rewrite Halpha, Hpa, Hca; cbn [Py.bind columns length seq map combine
                                 mapM fst snd Nat.add].
  rewrite (item_of_nth "params[i + 1]" _ _ _ (item_inv _ _ _ _ Hbeta)),
    (item_of_nth "pvalues[i + 1]" _ _ _ (item_inv _ _ _ _ Hpb)),
    (item_of_nth "conf_int().iloc[i + 1]" _ _ _ (item_inv _ _ _ _ Hcb));
    cbn [Py.bind].
  rewrite Hres, Hfit; reflexivity.
Qed.

(** X14: the CAPM regression is the Fama-French regression with the
    single factor [ln excess]: whenever [regression_capm] returns,
    [regression_fama] on the frame of that column alone returns the same
    residual and fitted-value frames and a table with, fund by fund, the
    same intercept, p-value, bounds and R-squared and the CAPM beta as its
    only beta. *)
Theorem capm_is_one_factor_fama lib T X writer rows residuals_df
        fitted_values_df writer' :
  regression_capm lib T X writer
  = Ok ((rows, residuals_df, fitted_values_df), writer') ->
  exists xcol rows',
    find_column "ln excess" (columns X) = Some xcol
    /\ regression_fama lib T (mkFrame (index X) [("ln excess"%string, xcol)])
                       writer
       = Ok ((rows', residuals_df, fitted_values_df),
             writer ++ ["Fama Results"; "Residuals"; "Fitted Values"]%string)
    /\ Forall2 (fun row row' =>
                  fama_fund row' = capm_fund row
                  /\ fama_alpha row' = capm_alpha row
                  /\ fama_p_alpha row' = capm_p_alpha row
                  /\ fama_rsquared row' = capm_rsquared row
                  /\ fama_ci_alpha row' = capm_ci_alpha row
                  /\ fama_betas row'
                     = [mkFamaBeta "ln excess" (capm_beta row)
                                   (capm_p_beta row) (capm_ci_beta row)])
               rows rows'.
Proof.
  unfold regression_capm; intros H.
  apply bind_ok in H as (xcol & Hx & H).
  apply bind_ok in H as (fits & Hfits & H).
  unfold collect in H; inversion H; subst; clear H.
  set (R := fun (a : string * Fitted CapmRow) (b : string * Fitted FamaRow) =>
              fst b = fst a
              /\ fit_residuals (snd b) = fit_residuals (snd a)
              /\ fit_fitted_values (snd b) = fit_fitted_values (snd a)
              /\ fama_fund (fit_row (snd b)) = capm_fund (fit_row (snd a))
              /\ fama_alpha (fit_row (snd b)) = capm_alpha (fit_row (snd a))
              /\ fama_p_alpha (fit_row (snd b))
                 = capm_p_alpha (fit_row (snd a))
              /\ fama_rsquared (fit_row (snd b))
                 = capm_rsquared (fit_row (snd a))
              /\ fama_ci_alpha (fit_row (snd b))
                 = capm_ci_alpha (fit_row (snd a))
              /\ fama_betas (fit_row (snd b))
                 = [mkFamaBeta "ln excess" (capm_beta (fit_row (snd a)))
                               (capm_p_beta (fit_row (snd a)))
                               (capm_ci_beta (fit_row (snd a)))]).
  destruct (mapM_related _
              (fun column =>
                 f <- fama_column lib T
                        (mkFrame (index X) [("ln excess"%string, xcol)])
                        column ;;
                 Ok (fst column, f))
              R _ _ Hfits) as (fits' & Hfits' & Hrel).
  { intros a b Hb; apply bind_ok in Hb as (f & Hf & Hb); inversion Hb.
    destruct (capm_column_as_fama lib T (index X) xcol a f Hf)
      as (model_p & Hf').
    eexists; split; [rewrite Hf'; reflexivity|].
    unfold R; cbn. repeat split. }
  exists xcol, (map (fun f => fit_row (snd f)) fits').
  split; [now apply get_column_inv|]. split.
  - unfold regression_fama; cbv zeta; rewrite Hfits'; cbn [Py.bind].
    assert (Hres : map (fun f : string * Fitted CapmRow =>
                          (fst f, fit_residuals (snd f))) fits
                   = map (fun f : string * Fitted FamaRow =>
                            (fst f, fit_residuals (snd f))) fits').
    { apply (Forall2_map_eq R _ _ _ _ Hrel).
      intros a b (H1 & H2 & _); now rewrite H1, H2. }
    assert (Hfit : map (fun f : string * Fitted CapmRow =>
                          (fst f, fit_fitted_values (snd f))) fits
                   = map (fun f : string * Fitted FamaRow =>
                            (fst f, fit_fitted_values (snd f))) fits').
    { apply (Forall2_map_eq R _ _ _ _ Hrel).
      intros a b (H1 & _ & H3 & _); now rewrite H1, H3. }
    unfold collect; now rewrite Hres, Hfit.
  - apply (Forall2_map_rel R _ _ _ _ _ Hrel).
    intros a b (_ & _ & _ & H); exact H.
Qed.

Lemma capm_is_one_factor_fama_witness :
  exists rows residuals_df fitted_values_df writer' rows',
    regression_capm Ref.lib sample_excess sample_capm_regressor []
    = Ok ((rows, residuals_df, fitted_values_df), writer')
    /\ regression_fama Ref.lib sample_excess
         (mkFrame (index sample_capm_regressor)
                  [("ln excess"%string, [2; 0.25; 0.5; 0.125; nan; 0.75])]) []
       = Ok ((rows', residuals_df, fitted_values_df),
             ["Fama Results"; "Residuals"; "Fitted Values"]%string)
    /\ length rows' = length rows.
Proof.
  destruct (regression_capm Ref.lib sample_excess sample_capm_regressor [])
    as [[[[rows res] fit] writer']|e] eqn:Hrun;
    [|vm_compute in Hrun; discriminate].
  destruct (capm_is_one_factor_fama Ref.lib sample_excess
              sample_capm_regressor [] rows res fit writer' Hrun)
    as (xcol & rows' & Hx & Hfama & Hrows).
  inversion Hx; subst xcol.
  exists rows, res, fit, writer', rows'.
  split; [reflexivity|]. split; [exact Hfama|].
  symmetry; exact (Forall2_length Hrows).
Defined.

(** ** Diagnostic Test Suite: what a run leaves behind *)

Lemma flat_map_names {A R K : Type} (f : A -> list R) (name : R -> K)
      (p : A -> bool) (key : A -> K) (cols : list A) :
  (forall c, In c cols ->
             if p c then exists r, f c = [r] /\ name r = key c
             else f c = []) ->
  map name (flat_map f cols) = map key (filter p cols).
Proof.
  induction cols as [|c cols IH]; intros H; [reflexivity|].
  cbn [flat_map filter]; rewrite map_app, IH
    by (intros; apply H; now right).
  specialize (H c (or_introl eq_refl)).
  destruct (p c);
    [destruct H as (r & Hf & Hn); rewrite Hf; cbn; now rewrite Hn
    |rewrite H; reflexivity].
Qed.

Section Run.

Variable body : string * list float -> result Outcome.

Lemma tests_loop_figures cols d0 w0 d w :
  tests_loop body cols (d0, w0) = (Ok d, w) ->
  figures w
  = figures w0
    ++ flat_map (fun c => match body c with
                          | Ok (Tested _ _ _ _ figure) => [figure]
                          | _ => []
                          end) cols.
Proof.
  revert d0 w0; induction cols as [|c cols IH]; intros d0 w0 H.
  - cbn in H; inversion H; subst; cbn; now rewrite app_nil_r.
  - cbn [tests_loop] in H; cbn [flat_map].
    destruct (body c) as [[m|bp wh sw jb fig]|e]; [| |discriminate].
    + apply IH in H; cbn in *; exact H.
    + apply IH in H; cbn in *. now rewrite H, <- app_assoc.
Qed.

Lemma tests_loop_count cols acc d w :
  tests_loop body cols acc = (Ok d, w) ->
  (length (filter (fun c => is_tested (body c)) cols)
   + length (filter (fun c => is_skipped (body c)) cols)
   = length cols)%nat.
Proof.
  revert acc; induction cols as [|c cols IH]; intros acc H; [reflexivity|].
  cbn [tests_loop] in H; cbn [filter].
  destruct (body c) as [[m|bp wh sw jb fig]|e]; [| |discriminate];
    apply IH in H; cbn [is_tested is_skipped length]; lia.
Qed.

Lemma tests_loop_raise cols acc e w :
  tests_loop body cols acc = (Raise e, w)
  <-> exists pre c post,
      cols = pre ++ c :: post
      /\ (forall c', In c' pre -> exists o, body c' = Ok o)
      /\ body c = Raise e
      /\ w = snd (tests_loop body pre acc).
Proof.
  split.
  - revert acc; induction cols as [|c0 cols IH]; intros acc H;
      cbn [tests_loop] in H; [discriminate|].
    destruct (body c0) as [o|e0] eqn:Hc0.
    + apply IH in H as (pre & c & post & -> & Hpre & Hc & Hw).
      exists (c0 :: pre), c, post. split; [reflexivity|]. split.
      * intros c' [<-|Hc']; [eauto|now apply Hpre].
      * split; [exact Hc|]. cbn [tests_loop]; now rewrite Hc0.
    + inversion H; subst.
      exists [], c0, cols. split; [reflexivity|].
      split; [intros ? []|]. split; [exact Hc0|reflexivity].
  - intros (pre & c & post & -> & Hpre & Hc & ->).
    revert acc; induction pre as [|c0 pre IH]; intros acc.
    + cbn [app tests_loop]; now rewrite Hc.
    + cbn [app tests_loop].
      destruct (Hpre c0 (or_introl eq_refl)) as (o & ->).
      apply IH; intros; apply Hpre; now right.
Qed.

End Run.

Lemma combined_tests_inv lib rdf fdf reg exc dir writer w d writer' w' :
  combined_tests lib rdf fdf reg exc dir writer w = (Ok (d, writer'), w') ->
  tests_loop (test_column lib rdf fdf reg exc dir) (columns rdf)
             (mkDiag [] [] [] [], w) = (Ok d, w')
  /\ writer' = writer ++ ["Shapiro-Wilk Test"; "Jarque-Bera Test";
                          "Breusch-Pagan Test"; "White Test"]%string.
Proof.
  unfold combined_tests.
  destruct (tests_loop _ _ _) as [[d0|e] w0]; cbn [Py.bind]; intros H;
    inversion H; auto.
Qed.

Lemma tested_outcome lib rdf fdf reg exc dir c bp wh sw jb figure :
  test_column lib rdf fdf reg exc dir c = Ok (Tested bp wh sw jb figure) ->
  fst bp = fst c /\ fst wh = fst c /\ fst sw = fst c /\ jb_fund jb = fst c
  /\ figure = (dir ++ "/residual_tests_" ++ fst c ++ ".png")%string.
Proof.
  intros E; apply test_column_tested in E
    as (? & ? & ? & ? & ? & ? & ? & _ & _ & _ & _ & _ & _ & _ & E).
  cbv zeta in E.
  destruct E as (Hb & _ & Hh & _ & Hs & _ & Hj & _ & _ & _ & Hf).
  rewrite Hb, Hh, Hs; cbn [fst]; auto.
Qed.

(** The tables and the figures of a run without exception, by the
    columns that were tested. *)
Lemma run_tables lib rdf fdf reg exc dir cols w d w' :
  tests_loop (test_column lib rdf fdf reg exc dir) cols
             (mkDiag [] [] [] [], w) = (Ok d, w') ->
  let tested :=
    filter (fun c => is_tested (test_column lib rdf fdf reg exc dir c)) cols in
  map fst (results_bp d) = map fst tested
  /\ map fst (results_white d) = map fst tested
  /\ map fst (shapiro_results d) = map fst tested
  /\ map jb_fund (jarque_bera_results d) = map fst tested
  /\ figures w'
     = figures w
       ++ map (fun c => (dir ++ "/residual_tests_" ++ fst c ++ ".png")%string)
              tested.
Proof.
  intros Hloop tested.
  pose proof (tests_loop_rows _ _ _ _ _ _ Hloop) as (Hbp & Hwh & Hsw & Hjb & _).
  pose proof (tests_loop_figures _ _ _ _ _ _ Hloop) as Hfig.
  cbn [results_bp results_white shapiro_results jarque_bera_results
       app] in Hbp, Hwh, Hsw, Hjb.
  pose proof (tested_outcome lib rdf fdf reg exc dir) as Hcase.
  split.
  { rewrite Hbp; apply flat_map_names; intros c _.
    specialize (Hcase c).
    destruct (test_column lib rdf fdf reg exc dir c)
      as [[m|bp wh sw jb fig]|e]; cbn; try reflexivity.
    exists bp; split; [reflexivity|].
    now destruct (Hcase _ _ _ _ _ eq_refl) as (? & ? & ? & ? & ?). }
  split.
  { rewrite Hwh; apply flat_map_names; intros c _.
    specialize (Hcase c).
    destruct (test_column lib rdf fdf reg exc dir c)
      as [[m|bp wh sw jb fig]|e]; cbn; try reflexivity.
    exists wh; split; [reflexivity|].
    now destruct (Hcase _ _ _ _ _ eq_refl) as (? & ? & ? & ? & ?). }
  split.
  { rewrite Hsw; apply flat_map_names; intros c _.
    specialize (Hcase c).
    destruct (test_column lib rdf fdf reg exc dir c)
      as [[m|bp wh sw jb fig]|e]; cbn; try reflexivity.
    exists sw; split; [reflexivity|].
    now destruct (Hcase _ _ _ _ _ eq_refl) as (? & ? & ? & ? & ?). }
  split.
  { rewrite Hjb; apply flat_map_names; intros c _.
    specialize (Hcase c).
    destruct (test_column lib rdf fdf reg exc dir c)
      as [[m|bp wh sw jb fig]|e]; cbn; try reflexivity.
    exists jb; split; [reflexivity|].
    now destruct (Hcase _ _ _ _ _ eq_refl) as (? & ? & ? & ? & ?). }
  rewrite Hfig; f_equal.
  rewrite <- (map_id (flat_map _ _)).
  apply flat_map_names; intros c _.
  specialize (Hcase c).
  destruct (test_column lib rdf fdf reg exc dir c)
    as [[m|bp wh sw jb fig]|e]; cbn; try reflexivity.
  exists fig; split; [reflexivity|].
    now destruct (Hcase _ _ _ _ _ eq_refl) as (? & ? & ? & ? & ?).
Qed.

(** X15: what a run of [combined_tests] without exception leaves behind.
    The four sheets are appended in the order Shapiro-Wilk, Jarque-Bera,
    Breusch-Pagan, White; the four tables list the same funds, those
    whose pass ran the tests, in the order of the columns; one figure per
    tested fund is saved under [residual_tests_<fund>.png], in that order;
    one message per skipped fund is printed; and every column is either
    tested or skipped. *)
Theorem combined_tests_accounting
        lib rdf fdf reg exc dir writer w d writer' w' :
  combined_tests lib rdf fdf reg exc dir writer w = (Ok (d, writer'), w') ->
  let body := test_column lib rdf fdf reg exc dir in
  let tested := filter (fun c => is_tested (body c)) (columns rdf) in
  let skipped := filter (fun c => is_skipped (body c)) (columns rdf) in
  writer' = writer ++ ["Shapiro-Wilk Test"; "Jarque-Bera Test";
                       "Breusch-Pagan Test"; "White Test"]%string
  /\ map fst (results_bp d) = map fst tested
  /\ map fst (results_white d) = map fst tested
  /\ map fst (shapiro_results d) = map fst tested
  /\ map jb_fund (jarque_bera_results d) = map fst tested
  /\ figures w'
     = figures w
       ++ map (fun c => (dir ++ "/residual_tests_" ++ fst c ++ ".png")%string)
              tested
  /\ (exists messages,
         stdout w' = stdout w ++ messages
         /\ length messages = length skipped)
  /\ (length tested + length skipped = length (columns rdf))%nat.
Proof.
  intros H body tested skipped.
  apply combined_tests_inv in H as [Hloop Hw].
  pose proof (run_tables _ _ _ _ _ _ _ _ _ _ Hloop) as (H1 & H2 & H3 & H4 & H5).
  pose proof (tests_loop_rows _ _ _ _ _ _ Hloop) as (_ & _ & _ & _ & Hout).
  pose proof (tests_loop_count _ _ _ _ _ Hloop) as Hcount.
  do 6 (split; [assumption|]).
  split; [|exact Hcount].
  eexists; split; [exact Hout|].
  rewrite <- (length_map (fun _ : string => tt)),
    <- (length_map (fun _ : string * list float => tt) skipped).
  f_equal; apply flat_map_names; intros c _; unfold body.
  destruct (test_column lib rdf fdf reg exc dir c)
    as [[m|bp wh sw jb fig]|e]; cbn; try reflexivity.
  exists m; split; reflexivity.
Qed.

Lemma combined_tests_accounting_witness :
  exists d writer' w',
    combined_tests Ref.lib diag_residuals diag_fitted diag_regressor
                   diag_excess "out" ["CAPM Results"%string] empty_world
    = (Ok (d, writer'), w')
    /\ writer' = ["CAPM Results"; "Shapiro-Wilk Test"; "Jarque-Bera Test";
                  "Breusch-Pagan Test"; "White Test"]%string
    /\ map fst (results_bp d) = ["FundA"%string]
    /\ map jb_fund (jarque_bera_results d) = ["FundA"%string]
    /\ figures w' = ["out/residual_tests_FundA.png"%string].
Proof.
  destruct (combined_tests Ref.lib diag_residuals diag_fitted diag_regressor
                           diag_excess "out" ["CAPM Results"%string]
                           empty_world)
    as [[[d writer']|e] w'] eqn:Hrun;
    [|vm_compute in Hrun; discriminate].
  destruct (combined_tests_accounting Ref.lib diag_residuals diag_fitted
              diag_regressor diag_excess "out" _ empty_world d writer' w'
              Hrun) as (H1 & H2 & _ & _ & H5 & H6 & _).
  exists d, writer', w'. split; [reflexivity|]. split; [exact H1|].
  rewrite H2, H5, H6. repeat split; vm_compute; reflexivity.
Defined.

(** X16: [combined_tests] raises exactly when the pass of some column
    raises and the passes before it do not; it raises the exception of
    that pass, returns no table and writes no sheet, and the messages
    printed and the figures saved are those of a run on the columns
    before the failing one. *)
Theorem combined_tests_aborts lib rdf fdf reg exc dir writer w e w' :
  combined_tests lib rdf fdf reg exc dir writer w = (Raise e, w')
  <-> exists pre c post,
      columns rdf = pre ++ c :: post
      /\ (forall c', In c' pre ->
                     exists o, test_column lib rdf fdf reg exc dir c' = Ok o)
      /\ test_column lib rdf fdf reg exc dir c = Raise e
      /\ w' = snd (combined_tests lib (mkFrame (index rdf) pre) fdf reg exc
                                  dir writer w).
Proof.
  assert (Hsnd : forall cols,
    snd (combined_tests lib (mkFrame (index rdf) cols) fdf reg exc dir
                        writer w)
    = snd (tests_loop (test_column lib rdf fdf reg exc dir) cols
                      (mkDiag [] [] [] [], w))).
  { intros cols; unfold combined_tests; cbn [columns].
    change (test_column lib (mkFrame (index rdf) cols) fdf reg exc dir)
      with (test_column lib rdf fdf reg exc dir).
    now destruct (tests_loop _ _ _). }
  transitivity
    (tests_loop (test_column lib rdf fdf reg exc dir) (columns rdf)
                (mkDiag [] [] [] [], w) = (Raise e, w')).
  - unfold combined_tests.
    destruct (tests_loop _ _ _) as [[d0|e0] w0]; cbn [Py.bind];
      split; intros H; inversion H; reflexivity.
  - rewrite tests_loop_raise.
    split; intros (pre & c & post & H1 & H2 & H3 & H4);
      exists pre, c, post; repeat split; auto;
      [now rewrite Hsnd|now rewrite <- Hsnd].
Qed.

Lemma combined_tests_aborts_witness :
  combined_tests Ref.lib partial_residuals partial_residuals diag_regressor
                 partial_residuals "out" [] empty_world
  = (Raise (mkExn ValueError
              "zero-size array to reduction operation maximum"),
     mkWorld [] ["out/residual_tests_FundA.png"%string]).
Proof.
  apply (proj2 (combined_tests_aborts Ref.lib partial_residuals
                  partial_residuals diag_regressor partial_residuals
                  "out" [] empty_world _ _)).
  exists [("FundA"%string, [0.5; -0.25; 0.125; -0.375])],
         ("FundC"%string, [nan; nan; nan; nan]), [].
  split; [reflexivity|]. split.
  - intros c' [<-|[]].
    destruct (test_column Ref.lib partial_residuals partial_residuals
                diag_regressor partial_residuals "out"
                ("FundA"%string, [0.5; -0.25; 0.125; -0.375]))
      as [o|e] eqn:E; [eauto|vm_compute in E; discriminate].
  - split; vm_compute; reflexivity.
Defined.

(** ** Diagnostic Test Suite: a residual frame indexed by time stamps *)

Lemma tests_loop_bodies (body : string * list float -> result Outcome)
      cols acc d w :
  tests_loop body cols acc = (Ok d, w) ->
  forall c, In c cols -> exists o, body c = Ok o.
Proof.
  revert acc; induction cols as [|c0 cols IH]; intros acc H c Hc;
    [destruct Hc|].
  cbn [tests_loop] in H.
  destruct (body c0) as [o|e] eqn:E; [|discriminate].
  destruct Hc as [<-|Hc]; [eauto|exact (IH _ H c Hc)].
Qed.

Lemma filter_all {A : Type} (p : A -> bool) (l : list A) :
  (forall x, In x l -> p x = true) -> filter p l = l.
Proof.
  induction l as [|a l IH]; intros H; [reflexivity|]; cbn.
  rewrite (H a) by now left. f_equal; apply IH; intros; apply H; now right.
Qed.

Lemma dropna_labels_stamps idx col :
  forallb is_stamp idx = true ->
  is_datetime64_any_dtype (map fst (dropna_series idx col)) = true.
Proof.
  intros H; unfold is_datetime64_any_dtype.
  rewrite forallb_forall in *; intros t Ht.
  apply in_map_iff in Ht as ([t' v] & <- & Hin).
  apply filter_In in Hin as [Hin _]; apply in_combine_l in Hin; auto.
Qed.

Lemma flat_map_nil {A B : Type} (f : A -> list B) (l : list A) :
  (forall x, f x = []) -> flat_map f l = [].
Proof.
  intros H; induction l as [|a l IH]; [reflexivity|].
  cbn; now rewrite H, IH.
Qed.

(** X17: on a residual frame indexed by time stamps no series is ever
    skipped and the residuals can always be sorted; a run without
    exception prints nothing and each of its four tables, like the list
    of figures, has one entry per column, in the order of the columns. *)
Theorem datetime_index_never_skips lib rdf fdf reg exc dir :
  forallb is_stamp (index rdf) = true ->
  (forall c message,
      test_column lib rdf fdf reg exc dir c <> Ok (Skipped message))
  /\ (forall col, exists residuals, residual_sample rdf col = Ok residuals)
  /\ forall writer w d writer' w',
      combined_tests lib rdf fdf reg exc dir writer w
      = (Ok (d, writer'), w') ->
      stdout w' = stdout w
      /\ map fst (results_bp d) = map fst (columns rdf)
      /\ map fst (results_white d) = map fst (columns rdf)
      /\ map fst (shapiro_results d) = map fst (columns rdf)
      /\ map jb_fund (jarque_bera_results d) = map fst (columns rdf)
      /\ figures w'
         = figures w
           ++ map (fun c =>
                     (dir ++ "/residual_tests_" ++ fst c ++ ".png")%string)
                  (columns rdf).
Proof.
  intros Hidx.
  assert (Hnever : forall c message,
             test_column lib rdf fdf reg exc dir c <> Ok (Skipped message)).
  { intros c message; unfold test_column; cbv zeta.
    rewrite (dropna_labels_stamps _ _ Hidx).
    repeat match goal with
           | |- Py.bind ?m _ <> _ => destruct m; cbn [Py.bind];
                                     [|discriminate]
           end.
    discriminate. }
  split; [exact Hnever|]. split.
  - intros col.
    unfold residual_sample, sort_index.
    assert (Hc : comparable (map fst (dropna_series (index rdf) col))
                 = true).
    { unfold comparable; apply orb_true_iff; left.
      exact (dropna_labels_stamps _ _ Hidx). }
    rewrite Hc; eauto.
  - intros writer w d writer' w' H.
    apply combined_tests_inv in H as [Hloop _].
    pose proof (run_tables _ _ _ _ _ _ _ _ _ _ Hloop) as Htab.
    pose proof (tests_loop_rows _ _ _ _ _ _ Hloop) as (_ & _ & _ & _ & Hout).
    pose proof (tests_loop_bodies _ _ _ _ _ Hloop) as Hok.
    cbv zeta in Htab.
    rewrite filter_all in Htab.
    + destruct Htab as (H1 & H2 & H3 & H4 & H5).
      split; [|repeat split; assumption].
      rewrite Hout, flat_map_nil; [apply app_nil_r|]; intros c.
      destruct (test_column lib rdf fdf reg exc dir c)
        as [[m|bp wh sw jb fig]|e] eqn:E; try reflexivity.
      now destruct (Hnever c m).
    + intros c Hc; destruct (Hok c Hc) as ([m|bp wh sw jb fig] & E);
        rewrite E; [now destruct (Hnever c m)|reflexivity].
Qed.

Lemma datetime_index_never_skips_witness :
  forallb is_stamp (index stamped_residuals) = true
  /\ exists d writer' w',
      combined_tests Ref.lib stamped_residuals diag_fitted diag_regressor
                     diag_excess "out" [] empty_world
      = (Ok (d, writer'), w')
      /\ stdout w' = []
      /\ map fst (results_bp d) = ["FundA"%string]
      /\ figures w' = ["out/residual_tests_FundA.png"%string].
Proof.
  split; [reflexivity|].
  destruct (combined_tests Ref.lib stamped_residuals diag_fitted
                           diag_regressor diag_excess "out" [] empty_world)
    as [[[d writer']|e] w'] eqn:Hrun;
    [|vm_compute in Hrun; discriminate].
  destruct (datetime_index_never_skips Ref.lib stamped_residuals diag_fitted
              diag_regressor diag_excess "out" eq_refl) as (_ & _ & H).
  destruct (H [] empty_world d writer' w' Hrun) as (H1 & H2 & _ & _ & _ & H6).
  exists d, writer', w'; split; [reflexivity|].
  rewrite H1, H2, H6; repeat split; reflexivity.
Defined.

(** ** Diagnostic Test Suite: a series without residuals *)

Lemma dropna_series_all_missing idx col :
  (forall v, In v col -> isna v = true) -> dropna_series idx col = [].
Proof.
  intros H; unfold dropna_series; apply filter_none; intros [t v] Hin.
  apply in_combine_r in Hin; cbn [snd]; now rewrite (H v Hin).
Qed.

Lemma map_const_repeat {A B : Type} (b : B) (l : list A) :
  map (fun _ => b) l = repeat b (length l).
Proof. induction l; cbn; congruence. Qed.

Lemma no_constant_among_empty {A : Type} (name : A -> string) (l : list A) :
  existsb (fun c : string * list float => is_nonzero_const (snd c))
          (map (fun x => (name x, @nil float)) l) = false.
Proof. induction l as [|x l IH]; [reflexivity|exact IH]. Qed.

(** The design matrix built from no row at all: a column [const] and
    the regressors, all empty. *)
Lemma empty_design (names : list string) :
  map snd (columns (add_constant (frame_of_rows names [])))
  = repeat [] (S (length names)).
Proof.
  unfold add_constant, frame_of_rows; cbn [columns index map length].
  rewrite (no_constant_among_empty (@snd nat string)).
  cbn [columns map snd repeat]; f_equal.
  rewrite map_map; cbn [snd]. rewrite map_const_repeat.
  now rewrite length_combine, length_seq, Nat.min_id.
Qed.

(** X18: a series without a single residual is not skipped: its pass
    calls the tests on an empty sample and a design matrix of empty
    columns (the constant and the regressors), so its outcome is that of
    the library on empty data, and an exception of the first test is the
    exception of the pass. *)
Theorem all_missing_column_is_not_skipped
        lib rdf fdf reg exc dir c fcol ecol :
  (forall v, In v (snd c) -> isna v = true) ->
  get_column fdf (fst c) = Ok fcol ->
  get_column exc (fst c) = Ok ecol ->
  let exog := repeat (@nil float) (S (length (columns reg))) in
  test_column lib rdf fdf reg exc dir c
  = (bp <- het_breuschpagan lib [] exog ;;
     white <- het_white lib [] exog ;;
     sw <- shapiro lib [] ;;
     jb <- jarque_bera lib [] ;;
     skewness <- skew lib [] ;;
     kurt <- kurtosis lib false [] ;;
     _ <- draw_panels lib (fst c) [] [] ;;
     Ok (Tested (fst c, bp) (fst c, white) (fst c, sw)
                (mkJB (fst c) (fst jb) (snd jb) skewness kurt)
                (dir ++ "/residual_tests_" ++ fst c ++ ".png")))
  /\ (forall message,
         test_column lib rdf fdf reg exc dir c <> Ok (Skipped message))
  /\ (forall e,
         het_breuschpagan lib [] exog = Raise e ->
         test_column lib rdf fdf reg exc dir c = Raise e).
Proof.
  intros Hall Hf He exog.
  assert (Hrun : test_column lib rdf fdf reg exc dir c
    = (bp <- het_breuschpagan lib [] exog ;;
       white <- het_white lib [] exog ;;
       sw <- shapiro lib [] ;;
       jb <- jarque_bera lib [] ;;
       skewness <- skew lib [] ;;
       kurt <- kurtosis lib false [] ;;
       _ <- draw_panels lib (fst c) [] [] ;;
       Ok (Tested (fst c, bp) (fst c, white) (fst c, sw)
                  (mkJB (fst c) (fst jb) (snd jb) skewness kurt)
                  (dir ++ "/residual_tests_" ++ fst c ++ ".png")))).
  { unfold test_column; cbv zeta.
    rewrite (dropna_series_all_missing _ _ Hall), Hf, He.
    cbn [map is_datetime64_any_dtype forallb sort_index comparable orb
         sorted_rows fold_right Py.bind].
    unfold loc_keys; rewrite !(cast_listlike_stamps lib _ [] eq_refl).
    cbn [map sort_index comparable forallb orb sorted_rows fold_right
         Py.bind loc mapM concat].
    rewrite empty_design, length_map; reflexivity. }
  split; [exact Hrun|]. split.
  - intros message; rewrite Hrun.
    destruct (het_breuschpagan lib [] exog); [|discriminate]; cbn [Py.bind].
    destruct (het_white lib [] exog); [|discriminate]; cbn [Py.bind].
    destruct (shapiro lib []); [|discriminate]; cbn [Py.bind].
    destruct (jarque_bera lib []); [|discriminate]; cbn [Py.bind].
    destruct (skew lib []); [|discriminate]; cbn [Py.bind].
    destruct (kurtosis lib false []); [|discriminate]; cbn [Py.bind].
    destruct (draw_panels lib (fst c) [] []); discriminate.
  - intros e Hbp; rewrite Hrun, Hbp; reflexivity.
Qed.

Lemma all_missing_column_is_not_skipped_witness :
  get_column missing_residuals "FundC" = Ok [nan; nan]
  /\ test_column Ref.lib missing_residuals missing_residuals diag_regressor
                 missing_residuals "out" ("FundC"%string, [nan; nan])
     = Raise (mkExn ValueError
                "zero-size array to reduction operation maximum")
  /\ fst (combined_tests Ref.lib missing_residuals missing_residuals
                         diag_regressor missing_residuals "out" []
                         empty_world)
     = Raise (mkExn ValueError
                "zero-size array to reduction operation maximum").
Proof.
  split; [reflexivity|].
  assert (H : test_column Ref.lib missing_residuals missing_residuals
                diag_regressor missing_residuals "out"
                ("FundC"%string, [nan; nan])
              = Raise (mkExn ValueError
                         "zero-size array to reduction operation maximum")).
  { apply (all_missing_column_is_not_skipped Ref.lib missing_residuals
             missing_residuals diag_regressor missing_residuals "out"
             ("FundC"%string, [nan; nan]) [nan; nan] [nan; nan]).
    - intros v [<-|[<-|[]]]; reflexivity.
    - reflexivity.
    - reflexivity.
    - reflexivity. }
  split; [exact H|].
  vm_compute; reflexivity.
Defined.

(** ** Autocorrelation: the Durbin-Watson table *)

Lemma dict_set_fresh {V : Type} key (v : V) (d : list (string * V)) :
  ~ In key (map fst d) -> dict_set key v d = d ++ [(key, v)].
Proof.
  induction d as [|kv d IH]; intros H; [reflexivity|]; cbn in *.
  destruct (String.eqb_spec (fst kv) key) as [E|_]; [tauto|].
  rewrite IH; tauto.
Qed.

Lemma dict_of_distinct_keys {V : Type} (g : string * list float -> V)
      (cols : list (string * list float)) (acc : list (string * V)) :
  NoDup (map fst acc ++ map fst cols) ->
  fold_left (fun d c => dict_set (fst c) (g c) d) cols acc
  = acc ++ map (fun c => (fst c, g c)) cols.
Proof.
  revert acc; induction cols as [|c cols IH]; intros acc Hnd;
    cbn [fold_left map]; [now rewrite app_nil_r|].
  cbn [map] in Hnd.
  rewrite dict_set_fresh.
  - rewrite IH; [now rewrite <- app_assoc|].
    now rewrite map_app, <- app_assoc.
  - apply NoDup_remove_2 in Hnd; intros Hin; apply Hnd, in_or_app; now left.
Qed.

Lemma StronglySorted_combine {A : Type} (idx : list label) (col : list A) :
  StronglySorted (fun a b => label_leb a b = true) idx ->
  StronglySorted rows_le (combine idx col).
Proof.
  intros H; revert col; induction H as [|t idx Hs IH Hall]; intros col;
    [constructor|].
  destruct col as [|v col]; cbn; constructor; [apply IH|].
  rewrite Forall_forall in *; intros [t' v'] Hin.
  apply in_combine_l in Hin; exact (Hall t' Hin).
Qed.


(** X19: [durbin_watson_capm] appends the sheet Durbin-Watson Test and,
    for distinct column names, returns one line per column in the order
    of the columns, the statistic of the non-missing residuals in the
    order of the frame.  It skips no series.  That sample is a
    rearrangement of the sample [combined_tests] uses for the same column,
    and the same sequence when the index is in ascending order. *)
Theorem durbin_watson_capm_table (durbin_watson : list float -> float)
        (rdf : DataFrame) (writer : Writer) :
  NoDup (map fst (columns rdf)) ->
  fst (durbin_watson_capm durbin_watson rdf writer)
  = map (fun c =>
           (fst c,
            durbin_watson (map snd (dropna_series (index rdf) (snd c)))))
        (columns rdf)
  /\ snd (durbin_watson_capm durbin_watson rdf writer)
     = writer ++ ["Durbin-Watson Test"%string]
  /\ forall col residuals,
      residual_sample rdf col = Ok residuals ->
      Permutation (map snd (dropna_series (index rdf) col))
                  (map snd residuals)
      /\ (StronglySorted (fun a b => label_leb a b = true) (index rdf) ->
          map snd residuals = map snd (dropna_series (index rdf) col)).
Proof.
  intros Hnd; unfold durbin_watson_capm; cbn [fst snd].
  split; [|split; [reflexivity|]].
  - apply (dict_of_distinct_keys
             (fun c => durbin_watson
                         (map snd (dropna_series (index rdf) (snd c))))
             (columns rdf) []).
    exact Hnd.
  - intros col residuals Hres; unfold residual_sample in Hres.
    apply sort_index_inv in Hres as [-> _]; split.
    + apply Permutation_map, sorted_rows_perm.
    + intros Hs; f_equal; apply sorted_rows_of_sorted.
      apply StronglySorted_Sorted, StronglySorted_filter.
      now apply StronglySorted_combine.
Qed.

Lemma durbin_watson_capm_table_witness :
  NoDup (map fst (columns diag_residuals))
  /\ map fst (fst (durbin_watson_capm Ref.durbin_watson diag_residuals []))
     = ["FundA"; "FundB"]%string
  /\ snd (durbin_watson_capm Ref.durbin_watson diag_residuals [])
     = ["Durbin-Watson Test"%string].
Proof.
  assert (Hnd : NoDup (map fst (columns diag_residuals))).
  { apply NoDup_cons; [intros [H|[]]; discriminate|].
    apply NoDup_cons; [intros []|apply NoDup_nil]. }
  split; [exact Hnd|].
  destruct (durbin_watson_capm_table Ref.durbin_watson diag_residuals []
              Hnd) as (H1 & H2 & _).
  rewrite H1, H2; split; reflexivity.
Defined.

(** ** Multicollinearity: an auxiliary regression that fails or fits
    perfectly *)

Lemma mapM_raises {A B : Type} (f : A -> result B) l a e :
  In a l -> f a = Raise e -> exists e', mapM f l = Raise e'.
Proof.
  induction l as [|x l IH]; intros Hin Ha; [destruct Hin|]; cbn.
  destruct (f x) as [b|e0] eqn:Hx; cbn; [|eauto].
  destruct Hin as [->|Hin]; [congruence|].
  destruct (IH Hin Ha) as (e' & ->); cbn; eauto.
Qed.

(** X20: [vif_fama] raises only an exception of one of its auxiliary
    regressions, and raises whenever one of them does; when it returns,
    a column the other columns of the design explain perfectly
    (R-squared 1) has an infinite factor, not an error. *)
Theorem vif_fama_failure lib panel :
  let design := columns (add_constant panel) in
  (forall e,
      vif_fama lib panel = Raise e ->
      exists i name col,
        nth_error design i = Some (name, col)
        /\ OLS_fit lib col (remove_nth i (map snd design)) = Raise e)
  /\ (forall i name col e,
         nth_error design i = Some (name, col) ->
         OLS_fit lib col (remove_nth i (map snd design)) = Raise e ->
         exists e', vif_fama lib panel = Raise e')
  /\ (forall table i name col fit,
         vif_fama lib panel = Ok table ->
         nth_error design i = Some (name, col) ->
         OLS_fit lib col (remove_nth i (map snd design)) = Ok fit ->
         rsquared fit = 1 ->
         nth_error table i = Some (name, infinity)).
Proof.
  intros design.
  assert (Hcol : forall i name col,
             nth_error design i = Some (name, col) ->
             nth i (map snd design) [] = col).
  { intros i name col Hi; apply nth_error_nth.
    now rewrite nth_error_map, Hi. }
  split; [|split].
  - intros e H; unfold vif_fama in H; cbv zeta in H; fold design in H.
    apply bind_raise in H as [H|(? & _ & H)]; [|discriminate].
    apply mapM_raise in H as (i & Hin & H).
    apply in_seq in Hin as [_ Hlt]; cbn in Hlt.
    destruct (nth_error design i) as [[name col]|] eqn:Hi;
      [|apply nth_error_None in Hi; lia].
    exists i, name, col; split; [exact Hi|].
    unfold variance_inflation_factor in H; cbv zeta in H.
    rewrite (Hcol _ _ _ Hi) in H.
    apply bind_raise in H as [H|(? & _ & H)]; [exact H|discriminate].
  - intros i name col e Hi He.
    assert (Hlt : (i < length design)%nat)
      by (apply nth_error_Some; congruence).
    destruct (mapM_raises (variance_inflation_factor lib (map snd design))
                          (seq 0 (length design)) i e) as (e' & He').
    + apply in_seq; lia.
    + unfold variance_inflation_factor; cbv zeta.
      now rewrite (Hcol _ _ _ Hi), He.
    + exists e'; unfold vif_fama; cbv zeta; fold design; now rewrite He'.
  - intros table i name col fit Hrun Hi Hfit Hr.
    destruct (vif_fama_entries lib panel table Hrun) as [_ Hrows].
    destruct (Hrows i name col Hi) as (fit' & Hfit' & Ht).
    fold design in Hfit'; rewrite Hfit in Hfit'; inversion Hfit'; subst fit'.
    rewrite Ht, Hr; reflexivity.
Qed.

Lemma vif_fama_failure_witness :
  exists table,
    vif_fama Ref.lib
      (mkFrame [Stamp 1; Stamp 2; Stamp 3]
               [("ln excess"%string, [0.25; 0.5; 0.125]);
                ("SMB"%string, [0.5; 1; 0.25])])
    = Ok table
    /\ nth_error table 1 = Some ("ln excess"%string, infinity).
Proof.
  set (panel := mkFrame [Stamp 1; Stamp 2; Stamp 3]
                        [("ln excess"%string, [0.25; 0.5; 0.125]);
                         ("SMB"%string, [0.5; 1; 0.25])]).
  destruct (vif_fama Ref.lib panel) as [table|e] eqn:Hrun;
    [|vm_compute in Hrun; discriminate].
  exists table; split; [reflexivity|].
  destruct (OLS_fit Ref.lib [0.25; 0.5; 0.125]
              (remove_nth 1 (map snd (columns (add_constant panel)))))
    as [fit|e] eqn:Hfit; [|vm_compute in Hfit; discriminate].
  refine (proj2 (proj2 (vif_fama_failure Ref.lib panel))
            table 1%nat "ln excess"%string [0.25; 0.5; 0.125] fit
            Hrun eq_refl Hfit _).
  vm_compute in Hfit; inversion Hfit; reflexivity.
Defined.

(** ** From the regressions to the diagnostic tests *)

Lemma estimation_labels_in_regressors yidx y X data :
  concat_dropna yidx y X = Ok data ->
  columns X <> [] ->
  incl (data_index data) (index X).
Proof.
  unfold concat_dropna, concat_dropna_with; intros H Hne.
  apply bind_ok in H as (joined & Hj & H).
  apply concat_index_with_inv in Hj
    as [[Heq ->]|(Heq & _ & _ & ->)]; rewrite Heq in H; cbv zeta in H;
    inversion H; subst data; clear H; cbn [data_index].
  - apply index_equals_eq in Heq; rewrite <- Heq.
    intros t Ht; exact (In_select _ _ _ Ht).
  - set (joined := union_index yidx (index X)).
    destruct (dropna_rows joined (fun t => or_nan (lookup yidx y t))
                (columns X)
                (fun c t => or_nan (lookup (index X) (snd c) t)))
      as (Hidx & _).
    cbv zeta in Hidx. unfold reindex_values. rewrite Hidx.
    intros t Ht; apply filter_In in Ht as [_ Ht].
    apply andb_prop in Ht as [_ Ht].
    destruct (columns X) as [|c0 cols]; [now destruct Hne|].
    cbn [forallb] in Ht; apply andb_prop in Ht as [Ht _].
    destruct (lookup (index X) (snd c0) t) as [v|] eqn:Hl.
    + exact (lookup_Some_In _ _ _ _ Hl).
    + cbn [or_nan] in Ht; rewrite isna_nan in Ht; discriminate.
Qed.

Lemma find_column_exists name (cols : list (string * list float)) :
  In name (map fst cols) -> exists col, find_column name cols = Some col.
Proof.
  induction cols as [|c cols IH]; intros H; [destruct H|]; cbn.
  destruct (String.eqb_spec (fst c) name) as [_|Hne]; [eauto|].
  destruct H as [H|H]; [contradiction|auto].
Qed.

Lemma loc_found {A : Type} (rows : list (label * A)) wanted :
  incl wanted (map fst rows) -> exists found, loc rows wanted = Ok found.
Proof.
  intros Hincl; unfold loc.
  destruct (mapM_ok_exists
              (fun t => match filter (fun r => label_eqb (fst r) t) rows with
                        | [] => Raise (mkExn KeyError "not in index")
                        | m => Ok m
                        end) wanted) as (groups & ->); [|cbn; eauto].
  intros t Ht; apply Hincl, in_map_iff in Ht as (r & Hr & Hin).
  destruct (filter (fun r => label_eqb (fst r) t) rows) as [|r' m] eqn:F;
    [|eauto].
  assert (Hrin : In r (filter (fun r => label_eqb (fst r) t) rows)).
  { apply filter_In; split; [exact Hin|].
    rewrite Hr; apply label_eqb_refl. }
  rewrite F in Hrin; destruct Hrin.
Qed.

(** What a pass of a regression leaves in the residual and fitted-value
    frames, when the fit returns one residual and one fitted value per
    row of the estimation and no residual is missing. *)
Lemma own_outputs_align lib T X column data r res fit :
  is_unique (index T) = true ->
  length (snd column) = length (index T) ->
  estimation_of lib T X column data r ->
  reindex_series (data_index data) (resid r) (index T) = Ok res ->
  reindex_series (data_index data) (fittedvalues r) (index T) = Ok fit ->
  length (resid r) = length (y_clean data) ->
  length (fittedvalues r) = length (y_clean data) ->
  (forall v, In v (resid r) -> isna v = false) ->
  Permutation (map fst (dropna_series (index T) res)) (data_index data)
  /\ length fit = length (index T)
  /\ incl (data_index data) (index T).
Proof.
  intros Hu Hlen Hest Hres Hfit Hlr Hlf Hna.
  destruct (fitted_re_expanded lib T X column data r res fit Hu Hlen Hest
              Hres Hfit) as [Hr Hf].
  destruct (Hr Hlr) as (_ & _ & _ & Hdrop).
  destruct (Hf Hlf) as (Hflen & _).
  destruct Hest as [Hdata _].
  destruct (concat_dropna_rows _ _ _ _ Hlen Hdata) as (Hy & Hincl & _).
  split; [|split; [exact Hflen|exact Hincl]].
  rewrite (Permutation_map fst (Hdrop Hna)).
  rewrite map_fst_combine_same by congruence. reflexivity.
Qed.

(** X21: the diagnostic tests find every row of the estimation.  Let
    [regression_fama] return on a well-formed frame with a duplicate-free
    index of time stamps and at least one regressor, with a fit that
    gives one residual and one fitted value per row of the estimation and
    no missing residual.  Then for every column of the residual frame the
    residuals can be sorted, the fitted-value frame and the excess-return
    frame have the column, and the look-ups of the residual labels in the
    fitted values, in the excess returns and in a regressor frame on the
    index of the regressors all succeed (the labels are time stamps, which
    every index reads as they are): no [KeyError] comes from the indexing
    of the notebook.  (The residual and fitted-value frames of
    [regression_capm] are those of the regression on the single factor.) *)
Theorem diagnostics_find_estimation_rows
        lib T X reg writer rows res fit writer' :
  is_unique (index T) = true ->
  well_formed T ->
  forallb is_stamp (index T) = true ->
  columns X <> [] ->
  index reg = index X ->
  regression_fama lib T X writer = Ok ((rows, res, fit), writer') ->
  (forall column data r,
      In column (columns T) ->
      estimation_of lib T X column data r ->
      length (resid r) = length (y_clean data)
      /\ length (fittedvalues r) = length (y_clean data)
      /\ forall v, In v (resid r) -> isna v = false) ->
  forall c,
    In c (columns res) ->
    exists residuals fcol fitted_values ecol excess_returns found,
      residual_sample res (snd c) = Ok residuals
      /\ forallb is_stamp (map fst residuals) = true
      /\ get_column fit (fst c) = Ok fcol
      /\ loc_keys lib (combine (index fit) fcol) (map fst residuals)
         = Ok fitted_values
      /\ get_column T (fst c) = Ok ecol
      /\ loc_keys lib (combine (index T) ecol) (map fst residuals)
         = Ok excess_returns
      /\ loc_keys lib (rows_of reg) (map fst residuals) = Ok found.
Proof.
  intros Hu Hwf Hst Hne Hreg Hrun Hlib c Hc.
  unfold regression_fama in Hrun; cbv zeta in Hrun.
  apply bind_ok in Hrun as (fits & Hfits & Hrun).
  unfold collect in Hrun; inversion Hrun; subst rows res fit writer';
    clear Hrun.
  cbn [index columns] in *.
  assert (Hpass : forall k column,
    nth_error (columns T) k = Some column ->
    exists (f : Fitted FamaRow) data,
      nth_error (map (fun f : string * Fitted FamaRow =>
                        (fst f, fit_residuals (snd f))) fits) k
      = Some (fst column, fit_residuals f)
      /\ nth_error (map (fun f : string * Fitted FamaRow =>
                           (fst f, fit_fitted_values (snd f))) fits) k
         = Some (fst column, fit_fitted_values f)
      /\ Permutation (map fst (dropna_series (index T) (fit_residuals f)))
                     (data_index data)
      /\ length (fit_fitted_values f) = length (index T)
      /\ incl (data_index data) (index T)
      /\ incl (data_index data) (index X)).
  { intros k column Hk.
    destruct (collect_columns T _ fits Hfits k column Hk)
      as (f & Hf & _ & Hres & Hfit).
    apply fama_column_inv in Hf
      as (data & r & Hest & _ & Hrr & Hrf & _).
    pose proof (nth_error_In _ _ Hk) as Hin.
    destruct (Hlib column data r Hin Hest) as (Hlr & Hlf & Hna).
    destruct (own_outputs_align lib T X column data r _ _ Hu (Hwf _ Hin)
                Hest Hrr Hrf Hlr Hlf Hna) as (H1 & H2 & H3).
    exists f, data. repeat split; try assumption.
    exact (estimation_labels_in_regressors _ _ _ _ (proj1 Hest) Hne). }
  assert (Hback : forall (g : string * Fitted FamaRow -> string * list float)
                         k x,
             nth_error (map g fits) k = Some x ->
             exists column, nth_error (columns T) k = Some column).
  { intros g k x Hk.
    destruct (nth_error (columns T) k) as [column|] eqn:E; [eauto|].
    apply nth_error_None in E.
    assert (k < length (map g fits))%nat by (apply nth_error_Some; congruence).
    rewrite length_map, (mapM_length _ _ _ Hfits) in H; lia. }
  destruct (In_nth_error _ _ Hc) as (k & Hk).
  destruct (Hback _ _ _ Hk) as (column & Hcol).
  destruct (Hpass k column Hcol)
    as (f & data & Hres & Hfit & Hlab & _ & HinT & HinX).
  rewrite Hres in Hk; inversion Hk; subst c; clear Hk; cbn [fst snd].
  assert (Hstamps : forallb is_stamp (data_index data) = true).
  { rewrite forallb_forall in *; intros t Ht; apply Hst, HinT, Ht. }
  assert (Hsort : residual_sample
                    (mkFrame (index T)
                       (map (fun f : string * Fitted FamaRow =>
                               (fst f, fit_residuals (snd f))) fits))
                    (fit_residuals f)
                  = Ok (sorted_rows
                          (dropna_series (index T) (fit_residuals f)))).
  { unfold residual_sample, sort_index; cbn [index].
    unfold comparable.
    replace (forallb is_stamp
               (map fst (dropna_series (index T) (fit_residuals f))))
      with true; [reflexivity|].
    symmetry; rewrite forallb_forall in *; intros t Ht.
    exact (Hstamps t (Permutation_in t Hlab Ht)). }
  set (residuals := sorted_rows (dropna_series (index T) (fit_residuals f)))
    in *.
  assert (Hlabels : incl (map fst residuals) (data_index data)).
  { intros t Ht; apply (Permutation_in t Hlab).
    apply (Permutation_in t
             (Permutation_sym
                (Permutation_map fst
                   (sorted_rows_perm
                      (dropna_series (index T) (fit_residuals f)))))).
    exact Ht. }
  assert (Hread : forallb is_stamp (map fst residuals) = true).
  { rewrite forallb_forall in *; intros t Ht; apply Hstamps, Hlabels, Ht. }
  (* the column of the fitted values *)
  destruct (find_column_exists (fst column)
              (map (fun f : string * Fitted FamaRow =>
                      (fst f, fit_fitted_values (snd f))) fits))
    as (fcol & Hfcol).
  { apply nth_error_In in Hfit.
    apply (in_map fst) in Hfit; exact Hfit. }
  assert (Hflen : length fcol = length (index T)).
  { destruct (In_nth_error _ _ (find_column_In _ _ _ Hfcol)) as (k2 & Hk2).
    destruct (Hback _ _ _ Hk2) as (column2 & Hcol2).
    destruct (Hpass k2 column2 Hcol2) as (f2 & _ & _ & Hfit2 & _ & Hl & _).
    rewrite Hfit2 in Hk2; inversion Hk2; subst fcol; exact Hl. }
  destruct (loc_found (combine (index T) fcol) (map fst residuals))
    as (fitted_values & Hfv).
  { rewrite map_fst_combine_same by (now rewrite Hflen).
    intros t Ht; apply HinT, Hlabels, Ht. }
  (* the column of the excess returns *)
  destruct (find_column_exists (fst column) (columns T)) as (ecol & Hecol).
  { apply nth_error_In in Hcol; apply (in_map fst) in Hcol; exact Hcol. }
  destruct (loc_found (combine (index T) ecol) (map fst residuals))
    as (excess_returns & Hev).
  { rewrite map_fst_combine_same
      by (symmetry; exact (Hwf _ (find_column_In _ _ _ Hecol))).
    intros t Ht; apply HinT, Hlabels, Ht. }
  (* the regressors *)
  destruct (loc_found (rows_of reg) (map fst residuals)) as (found & Hfound).
  { rewrite rows_of_labels, Hreg.
    intros t Ht; apply HinX, Hlabels, Ht. }
  exists residuals, fcol, fitted_values, ecol, excess_returns, found.
  split; [exact Hsort|]. split; [exact Hread|].
  unfold get_column, loc_keys; cbn [index columns]; rewrite Hfcol, Hecol.
  rewrite !(cast_listlike_stamps lib _ _ Hread).
  repeat split; assumption.
Qed.

Lemma diagnostics_find_estimation_rows_witness :
  exists rows res fit writer' c residuals found,
    regression_fama Ref.lib sample_excess sample_capm_regressor []
    = Ok ((rows, res, fit), writer')
    /\ In c (columns res)
    /\ residual_sample res (snd c) = Ok residuals
    /\ loc_keys Ref.lib (rows_of sample_capm_regressor) (map fst residuals)
       = Ok found.
Proof.
  destruct (regression_fama Ref.lib sample_excess sample_capm_regressor [])
    as [[[[rows res] fit] writer']|e] eqn:Hrun;
    [|vm_compute in Hrun; discriminate].
  destruct (columns res) as [|c cols] eqn:Hcols;
    [vm_compute in Hrun; inversion Hrun; subst; discriminate|].
  assert (Hc : In c (columns res)) by (rewrite Hcols; now left).
  destruct (diagnostics_find_estimation_rows Ref.lib sample_excess
              sample_capm_regressor sample_capm_regressor [] rows res fit
              writer' eq_refl sample_excess_well_formed eq_refl)
    with (c := c)
    as (residuals & _ & _ & _ & _ & found & Hres & _ & _ & _ & _ & _
        & Hfound).
  - discriminate.
  - reflexivity.
  - exact Hrun.
  - intros column data r [<-|[<-|[]]] [Hd Hr];
      vm_compute in Hd; inversion Hd; subst data; clear Hd;
      vm_compute in Hr; inversion Hr; subst r; clear Hr;
      (split; [reflexivity|]); (split; [reflexivity|]);
      intros v Hv; cbn in Hv;
      repeat (destruct Hv as [<-|Hv]; [reflexivity|]); destruct Hv.
  - exact Hc.
  - exists rows, res, fit, writer', c, residuals, found.
    repeat split; assumption.
Defined.

(** ** Diagnostic Test Suite: one sample for the four tests *)

Lemma tables_by_position (body : string * list float -> result Outcome)
      cols i bp :
  nth_error (flat_map (fun c => bp_rows_of (body c)) cols) i = Some bp ->
  exists c wh sw jb fig,
    In c cols
    /\ body c = Ok (Tested bp wh sw jb fig)
    /\ nth_error (flat_map (fun c => white_rows_of (body c)) cols) i = Some wh
    /\ nth_error (flat_map (fun c => shapiro_rows_of (body c)) cols) i
       = Some sw
    /\ nth_error (flat_map (fun c => jb_rows_of (body c)) cols) i = Some jb.
Proof.
  revert i; induction cols as [|c cols IH]; intros i H; cbn [flat_map] in *.
  - destruct i; discriminate.
  - destruct (body c) as [[m|bp0 wh0 sw0 jb0 fig0]|e] eqn:E;
      cbn [bp_rows_of white_rows_of shapiro_rows_of jb_rows_of app] in *.
    + destruct (IH i H) as (c' & wh & sw & jb & fig & Hin & Hrest).
      exists c', wh, sw, jb, fig; split; [now right|exact Hrest].
    + destruct i as [|i]; cbn [nth_error] in *.
      * inversion H; subst bp0.
        exists c, wh0, sw0, jb0, fig0; split; [now left|].
        repeat split; auto.
      * destruct (IH i H) as (c' & wh & sw & jb & fig & Hin & Hrest).
        exists c', wh, sw, jb, fig; split; [now right|exact Hrest].
    + destruct (IH i H) as (c' & wh & sw & jb & fig & Hin & Hrest).
      exists c', wh, sw, jb, fig; split; [now right|exact Hrest].
Qed.

(** X22: the four tables of [combined_tests] go together line by line:
    the lines at one position of the Breusch-Pagan, White, Shapiro-Wilk
    and Jarque-Bera tables carry the name of one and the same column, and
    their numbers are the results of the library on one and the same
    sample, the non-missing residuals of that column sorted by label, and
    (for the two heteroskedasticity tests) on one and the same design
    matrix. *)
Theorem tests_share_one_sample
        lib rdf fdf reg exc dir writer w d writer' w' :
  combined_tests lib rdf fdf reg exc dir writer w = (Ok (d, writer'), w') ->
  forall i bp,
    nth_error (results_bp d) i = Some bp ->
    exists c residuals found regressor_filtered wh sw jb,
      In c (columns rdf)
      /\ nth_error (results_white d) i = Some wh
      /\ nth_error (shapiro_results d) i = Some sw
      /\ nth_error (jarque_bera_results d) i = Some jb
      /\ fst bp = fst c /\ fst wh = fst c /\ fst sw = fst c
      /\ jb_fund jb = fst c
      /\ residual_sample rdf (snd c) = Ok residuals
      /\ loc_keys lib (rows_of reg) (map fst residuals) = Ok found
      /\ sort_index found = Ok regressor_filtered
      /\ (let sample := map snd residuals in
          let exog :=
            map snd (columns (add_constant
                                (frame_of_rows (map fst (columns reg))
                                               regressor_filtered))) in
          het_breuschpagan lib sample exog = Ok (snd bp)
          /\ het_white lib sample exog = Ok (snd wh)
          /\ shapiro lib sample = Ok (snd sw)
          /\ jarque_bera lib sample = Ok (jb_statistic jb, jb_pvalue jb)
          /\ skew lib sample = Ok (jb_skewness jb)
          /\ kurtosis lib false sample = Ok (jb_kurtosis jb)).
Proof.
  intros H i bp Hbp.
  apply combined_tests_inv in H as [Hloop _].
  pose proof (tests_loop_rows _ _ _ _ _ _ Hloop) as (H1 & H2 & H3 & H4 & _).
  cbn [results_bp results_white shapiro_results jarque_bera_results app]
    in H1, H2, H3, H4.
  rewrite H1 in Hbp.
  destruct (tables_by_position _ _ _ _ Hbp)
    as (c & wh & sw & jb & fig & Hc & Hbody & Hwh & Hsw & Hjb).
  apply test_column_tested in Hbody
    as (residuals & fcol & fv & ecol & ev & found & regf & Hres & _ & _ & _
        & _ & Hfound & Hsort & Htests).
  cbv zeta in Htests.
  destruct Htests as (Eb & Tb & Ew & Tw & Es & Ts & Ej & Tj & Tsk & Tku & _).
  exists c, residuals, found, regf, wh, sw, jb.
  rewrite H2, H3, H4.
  split; [exact Hc|]. split; [exact Hwh|]. split; [exact Hsw|].
  split; [exact Hjb|].
  split; [now rewrite Eb|]. split; [now rewrite Ew|].
  split; [now rewrite Es|]. split; [exact Ej|].
  split; [exact Hres|]. split; [exact Hfound|]. split; [exact Hsort|].
  cbv zeta; repeat split; assumption.
Qed.

Lemma tests_share_one_sample_witness :
  exists d writer' w' bp c residuals wh jb,
    combined_tests Ref.lib diag_residuals diag_fitted diag_regressor
                   diag_excess "out" [] empty_world
    = (Ok (d, writer'), w')
    /\ nth_error (results_bp d) 0 = Some bp
    /\ In c (columns diag_residuals)
    /\ nth_error (results_white d) 0 = Some wh
    /\ nth_error (jarque_bera_results d) 0 = Some jb
    /\ fst wh = fst bp
    /\ jb_fund jb = fst bp
    /\ residual_sample diag_residuals (snd c) = Ok residuals.
Proof.
  destruct (combined_tests Ref.lib diag_residuals diag_fitted diag_regressor
                           diag_excess "out" [] empty_world)
    as [[[d writer']|e] w'] eqn:Hrun;
    [|vm_compute in Hrun; discriminate].
  destruct (results_bp d) as [|bp rest] eqn:Hrows;
    [vm_compute in Hrun; inversion Hrun; subst; discriminate|].
  destruct (tests_share_one_sample Ref.lib diag_residuals diag_fitted
              diag_regressor diag_excess "out" [] empty_world d writer' w'
              Hrun 0%nat bp)
    as (c & residuals & _ & _ & wh & _ & jb & Hc & Hwh & _ & Hjb & Eb & Ew
        & _ & Ej & Hres & _).
  { now rewrite Hrows. }
  exists d, writer', w', bp, c, residuals, wh, jb.
  split; [reflexivity|]. split; [now rewrite Hrows|]. split; [exact Hc|].
  split; [exact Hwh|]. split; [exact Hjb|].
  split; [now rewrite Eb, Ew|]. split; [now rewrite Eb, Ej|exact Hres].
Defined.
